(** * LCA picture renamer: the filename engine of [app.js] and [script.js]

    A shallow embedding of the two application variants of the repository:

    - [app.js]    (module [App]): the richer variant, with the implementer
      field, the pair numbering rule [getNextNumber], the [naturalSort]
      comparator and a [Map] ledger [processedFiles].  The file holds the
      application twice, the second time with its HEIC preview; the
      functions embedded here are the same in both copies;
    - [script.js] (module [Script]): the simpler variant, with
      [sanitizeFilename], the placeholder for a missing identifier, index
      based numbering and a plain object ledger [renamedFiles].

    How the program is read:

    - strings are sequences of UTF-16 code units, lists of [N], so that
      the classes [\d] and [\s] of regular expressions and the set that
      [trim] removes are the sets of ECMAScript;
    - numbers are IEEE doubles: a run of digits reads as the nearest
      double, exact up to 2^53 and rounded to 53 significant bits beyond,
      and [String] prints the shortest numeral that reads back; the
      results of a comparator are integers, infinities or [NaN];
    - the values of the form controls, which the code reads from the page,
      are a record that is part of the state;
    - plain objects used as tables are finite maps ([gmap]) of their own
      entries, with string identifiers; in the tables read from the
      spreadsheets a lookup that finds no entry finds the members of
      [Object.prototype] under their names.  The ledger of [script.js],
      whose keys are the names of image files, is read by its own
      entries.  The [Map] ledger is an association list in insertion
      order;
    - [localeCompare] belongs to the host and is a parameter;
    - a cell of a spreadsheet is nothing, a text or an integer; the value
      the page leaves in a control whose options [updateSelect] of
      [app.js] rebuilds is a parameter of the readers;
    - an error thrown while a spreadsheet is read is a flag beside the
      state it leaves; the only other exception the engine can raise, the
      read of [name] on a missing image, leaves the state as it was. *)

From Stdlib Require Import NArith ZArith String Ascii List Lia DecimalN Sorted.
From stdpp Require Import base option list gmap.

Local Open Scope N_scope.

(** ** JavaScript strings *)

Abbreviation jsstring := (list N).

(** A string literal of the source, as its code units. *)
Definition js (s : string) : jsstring :=
  List.map N_of_ascii (list_ascii_of_string s).
Arguments js s%_string.

Fixpoint takeWhile {A} (p : A → bool) (l : list A) : list A :=
  match l with
  | [] => []
  | x :: l' => if p x then x :: takeWhile p l' else []
  end.

Fixpoint dropWhile {A} (p : A → bool) (l : list A) : list A :=
  match l with
  | [] => []
  | x :: l' => if p x then dropWhile p l' else l
  end.

(** [\d] of an ECMAScript regular expression: the ASCII digits. *)
Definition isDigit (c : N) : bool := (48 <=? c) && (c <=? 57).

(** [\s], which is also the set removed by [String.prototype.trim]:
    WhiteSpace and LineTerminator code units. *)
Definition isSpace (c : N) : bool :=
  ((9 <=? c) && (c <=? 13)) || (c =? 32) || (c =? 160) || (c =? 5760)
  || ((8192 <=? c) && (c <=? 8202)) || (c =? 8232) || (c =? 8233)
  || (c =? 8239) || (c =? 8287) || (c =? 12288) || (c =? 65279).

(** [s.trim()] *)
Definition trim (s : jsstring) : jsstring :=
  rev (dropWhile isSpace (rev (dropWhile isSpace s))).

(** [s.split(sep)] for a one-character separator: the pieces between the
    occurrences of [sep]; never the empty array. *)
Fixpoint split (sep : N) (s : jsstring) : list jsstring :=
  match s with
  | [] => [[]]
  | c :: s' =>
      if c =? sep then [] :: split sep s'
      else match split sep s' with
           | piece :: pieces => (c :: piece) :: pieces
           | [] => [[c]]
           end
  end.

(** [a.pop()] on a non-empty array of strings: its last element. *)
Definition pop (a : list jsstring) : jsstring := List.last a [].

(** The template literals of both variants put ["_"] between the
    interpolated values. *)
Fixpoint joinUnderscore (fields : list jsstring) : jsstring :=
  match fields with
  | [] => []
  | [f] => f
  | f :: rest => f ++ js "_" ++ joinUnderscore rest
  end.

(** ** Numbers and their decimal notation *)

Fixpoint digitsOfUint (d : Decimal.uint) : jsstring :=
  match d with
  | Decimal.Nil => []
  | Decimal.D0 d => 48 :: digitsOfUint d
  | Decimal.D1 d => 49 :: digitsOfUint d
  | Decimal.D2 d => 50 :: digitsOfUint d
  | Decimal.D3 d => 51 :: digitsOfUint d
  | Decimal.D4 d => 52 :: digitsOfUint d
  | Decimal.D5 d => 53 :: digitsOfUint d
  | Decimal.D6 d => 54 :: digitsOfUint d
  | Decimal.D7 d => 55 :: digitsOfUint d
  | Decimal.D8 d => 56 :: digitsOfUint d
  | Decimal.D9 d => 57 :: digitsOfUint d
  end.

(** The decimal notation of a natural number. *)
Definition toString (n : N) : jsstring := digitsOfUint (N.to_uint n).

(** The value of a string of decimal digits. *)
Definition decimalValue (ds : jsstring) : N :=
  fold_left (λ acc c, 10 * acc + (c - 48)) ds 0.

(** [!s] is false exactly for a non-empty string. *)
Definition truthy (s : jsstring) : bool :=
  match s with [] => false | _ :: _ => true end.

(** ** The doubles of JavaScript *)

(** The numbers of the code are IEEE doubles.  The engine meets only
    non-negative integers and [Infinity]: what [parseInt] reads from a run
    of digits, the greatest of such numbers, and that number plus one. *)
Inductive double := Finite (n : N) | Infinite.

#[global] Instance double_eq_dec : EqDecision double.
Proof. solve_decision. Defined.

#[global] Instance double_countable : Countable double.
Proof.
  apply (inj_countable'
           (λ x, match x with Finite n => Some n | Infinite => None end)
           (λ o, match o with Some n => Finite n | None => Infinite end)).
  by intros [].
Defined.

(** 2^53: up to it every natural number is a double. *)
Definition exactBelow : N := 9007199254740992.

(** The natural number with at most 53 significant bits that is nearest to
    [n]; of two equally near, the one whose last kept bit is 0. *)
Definition roundNat (n : N) : N :=
  if n <? exactBelow then n
  else
    let ulp := 2 ^ (N.log2 n - 52) in
    let q := n / ulp in
    let r := n mod ulp in
    let up := (ulp <? 2 * r) || ((2 * r =? ulp) && N.odd q) in
    (if up then q + 1 else q) * ulp.

(** The double nearest to a natural number: from 2^1024 on the rounded
    value is [Infinity]. *)
Definition toDouble (n : N) : double :=
  let r := roundNat n in
  if r <? 2 ^ 1024 then Finite r else Infinite.

(** The double nearest to an integer, for the difference of two
    doubles. *)
Definition roundInt (z : Z) : Z := (Z.sgn z * Z.of_N (roundNat (Z.abs_N z)))%Z.

(** [parseInt(ds)] on a string of decimal digits. *)
Definition parseInt (ds : jsstring) : double := toDouble (decimalValue ds).

(** [x + 1] *)
Definition plusOne (x : double) : double :=
  match x with
  | Finite n => toDouble (n + 1)
  | Infinite => Infinite
  end.

Definition maxDouble (x y : double) : double :=
  match x, y with
  | Finite a, Finite b => Finite (N.max a b)
  | _, _ => Infinite
  end.

(** [String(x)] prints the shortest decimal numeral that converts back to
    [x], and of several the nearest to [x] (the even one of two equally
    near).  [shortestAt x n k] looks among the numerals of [k] significant
    digits, given the number [n] of digits of [x]: the two next to [x],
    below and above. *)
Definition shortestAt (x : N) (n k : nat) : option N :=
  let step := 10 ^ N.of_nat (n - k) in
  let s := x / step in
  let below := s * step in
  let above := below + step in
  let okBelow := roundNat below =? x in
  let okAbove := roundNat above =? x in
  if okBelow && okAbove then
    Some (if x - below <? above - x then below
          else if above - x <? x - below then above
          else if N.even s then below else above)
  else if okBelow then Some below
  else if okAbove then Some above
  else None.

Fixpoint firstShortest (x : N) (n : nat) (ks : list nat) : N :=
  match ks with
  | [] => x
  | k :: ks' =>
      match shortestAt x n k with
      | Some v => v
      | None => firstShortest x n ks'
      end
  end.

Definition shortest (x : N) : N :=
  let n := length (toString x) in
  firstShortest x n (seq 1 n).

(** The digits of a numeral without its zeros at the end. *)
Definition stripZeros (ds : jsstring) : jsstring :=
  rev (dropWhile (λ c, c =? 48) (rev ds)).

(** [String(x)], the conversion a template literal and the assignment to
    the value of a control apply to a number: plain digits below 10^21,
    the notation with an exponent from there on. *)
Definition numberToString (x : double) : jsstring :=
  match x with
  | Infinite => js "Infinity"
  | Finite n =>
      let v := shortest n in
      let ds := toString v in
      if v <? 1000000000000000000000 then ds
      else
        match ds with
        | [] => []
        | d :: rest =>
            let more := stripZeros rest in
            d :: (if truthy more then 46 :: more else [])
              ++ js "e+" ++ toString (N.of_nat (length rest))
        end
  end.

(** The values a comparator can return: an integer, an infinity or [NaN]. *)
Inductive number := Fin (z : Z) | PosInf | NegInf | NaN.

(** [x - y] on doubles of integer value: the difference, rounded. *)
Definition sub (x y : number) : number :=
  match x, y with
  | Fin a, Fin b => Fin (roundInt (a - b))
  | NaN, _ | _, NaN => NaN
  | PosInf, PosInf | NegInf, NegInf => NaN
  | PosInf, _ | _, NegInf => PosInf
  | NegInf, _ | _, PosInf => NegInf
  end.

(** [x || y] and [if (x)] on numbers: [0] and [NaN] are falsy. *)
Definition numTruthy (x : number) : bool :=
  match x with
  | Fin z => negb (z =? 0)%Z
  | NaN => false
  | PosInf | NegInf => true
  end.

Definition isPositive (x : number) : bool :=
  match x with
  | Fin z => (0 <? z)%Z
  | PosInf => true
  | NegInf | NaN => false
  end.

(** [Array.prototype.sort(cmp)].  ECMAScript fixes the result for a
    consistent comparator: the stable arrangement in which no element is
    followed by one that [cmp] puts before it.  It is computed here by
    insertion, an element moving behind the elements that [cmp] puts
    strictly before it. *)
Fixpoint insertBy {A} (cmp : A → A → number) (x : A) (l : list A) : list A :=
  match l with
  | [] => [x]
  | y :: l' => if isPositive (cmp x y) then y :: insertBy cmp x l' else x :: l
  end.

Definition sortBy {A} (cmp : A → A → number) (l : list A) : list A :=
  foldr (insertBy cmp) [] l.

(** ** Plain objects used as tables *)

(** The names under which every plain object finds a member of
    [Object.prototype]. *)
Definition prototypeKeys : list jsstring :=
  [ js "constructor"; js "__defineGetter__"; js "__defineSetter__";
    js "hasOwnProperty"; js "__lookupGetter__"; js "__lookupSetter__";
    js "isPrototypeOf"; js "propertyIsEnumerable"; js "toString"; js "valueOf";
    js "__proto__"; js "toLocaleString" ].

(** What [table[key]] finds: an entry of the table itself, else a member
    of [Object.prototype], else [undefined]. *)
Inductive property (V : Type) := Own (v : V) | Inherited | Undefined.
Arguments Own {V} v.
Arguments Inherited {V}.
Arguments Undefined {V}.

Definition getProperty {V} (table : gmap jsstring V) (k : jsstring) : property V :=
  match table !! k with
  | Some v => Own v
  | None => if bool_decide (k ∈ prototypeKeys) then Inherited else Undefined
  end.

(** [table[key] = v] for a text or a number [v].  The name [__proto__]
    belongs to an accessor of [Object.prototype], whose setter ignores a
    value that is no object: nothing is stored. *)
Definition setProperty {V} (k : jsstring) (v : V) (table : gmap jsstring V)
  : gmap jsstring V :=
  if decide (k = js "__proto__") then table else <[k := v]> table.

(** How a template literal prints an inherited member: the prototype
    itself under [__proto__], a built-in function under every other name,
    in the text that V8 and JavaScriptCore give it. *)
Definition inheritedText (k : jsstring) : jsstring :=
  if decide (k = js "__proto__") then js "[object Object]"
  else
    js "function " ++ (if decide (k = js "constructor") then js "Object" else k)
    ++ js "() { [native code] }".

(** A loop over rows whose body may throw: the state it leaves, and
    whether it threw. *)
Fixpoint forEach {S R} (body : S → R → S * bool) (rows : list R) (st : S) : S * bool :=
  match rows with
  | [] => (st, false)
  | row :: rows' =>
      let '(st1, thrown) := body st row in
      if thrown then (st1, true) else forEach body rows' st1
  end.

(** ** Spreadsheet cells *)

(** A cell as the spreadsheet readers deliver it: nothing (an empty cell,
    or a column the row does not have), a text or a number.  Numbers are
    integers here, [Num z] standing for the double nearest to [z];
    fractions are outside the model. *)
Inductive cell := Blank | Text (s : jsstring) | Num (z : Z).

(** [if (c)] on a cell. *)
Definition cellTruthy (c : cell) : bool :=
  match c with
  | Blank => false
  | Text s => truthy s
  | Num z => negb (z =? 0)%Z
  end.

(** [String(c)]: how a cell is written as a property key and in a template
    literal. *)
Definition cellString (c : cell) : jsstring :=
  match c with
  | Blank => js "undefined"
  | Text s => s
  | Num z =>
      let digits := numberToString (toDouble (Z.abs_N z)) in
      if (z <? 0)%Z then 45 :: digits else digits
  end.

(** [a || b] on cells. *)
Definition orCell (a b : cell) : cell := if cellTruthy a then a else b.

(** [s.startsWith(kw)] and [s.includes(kw)]. *)
Fixpoint startsWith (s kw : jsstring) : bool :=
  match kw, s with
  | [], _ => true
  | _ :: _, [] => false
  | k :: kw', c :: s' => (c =? k) && startsWith s' kw'
  end.

Fixpoint includes (s kw : jsstring) : bool :=
  startsWith s kw
  || match s with
     | [] => false
     | _ :: s' => includes s' kw
     end.

(** [header.indexOf(s)] on a row of cells, by strict equality: the first
    position that holds the text [s]; [None] stands for -1. *)
Fixpoint indexOf (header : list cell) (s : jsstring) : option nat :=
  match header with
  | [] => None
  | c :: header' =>
      match c with
      | Text t => if decide (t = s) then Some 0%nat else S <$> indexOf header' s
      | _ => S <$> indexOf header' s
      end
  end.

(** [row[col]]: a missing element reads as nothing. *)
Definition cellAt (row : list cell) (col : nat) : cell := default Blank (row !! col).

(** ** [app.js] *)

Module App.

(** A [File] of the image input: its name and its bytes. *)
Record File := mkFile { name : jsstring; content : list N }.

(** A value of the [processedFiles] map:
    [{ newName, extension, blob }]. *)
Record Entry := mkEntry {
  newName : jsstring;
  extension : jsstring;
  blob : File
}.

(** The form controls that the engine reads through
    [document.getElementById(...).value]. *)
Record Form := mkForm {
  numberInput : jsstring;
  implementerSelect : jsstring;
  partNameInput : jsstring;
  weightInput : jsstring;
  unitSelect : jsstring;
  materialCategorySelect : jsstring;
  materialSelect : jsstring;
  processingSelect : jsstring;
  photoTypeSelect : jsstring;
  notesSelect : jsstring
}.

(** [AppState], together with the form and the list of processed names
    shown on the page.  [processedFiles] is a [Map]: an association list
    in insertion order with unique keys. *)
Record State := mkState {
  materials : gmap jsstring jsstring;
  processingMethods : gmap jsstring jsstring;
  implementers : gmap jsstring jsstring;
  materialCategories : gmap jsstring (list jsstring);
  materialNameToId : gmap jsstring jsstring;
  imageFiles : list File;
  currentIndex : nat;
  processedFiles : list (jsstring * Entry);
  isReady : bool;
  form : Form;
  processedList : list jsstring
}.

(** [Map.prototype.get] *)
Fixpoint mapGet {V} (k : jsstring) (m : list (jsstring * V)) : option V :=
  match m with
  | [] => None
  | (k', v) :: m' => if decide (k' = k) then Some v else mapGet k m'
  end.

(** [Map.prototype.set]: an existing key keeps its place, a new key goes
    last. *)
Fixpoint mapSet {V} (k : jsstring) (v : V) (m : list (jsstring * V))
  : list (jsstring * V) :=
  match m with
  | [] => [(k, v)]
  | (k', v') :: m' =>
      if decide (k' = k) then (k, v) :: m' else (k', v') :: mapSet k v m'
  end.

(** [data.newName.match(/^(\d+)_/)]: the captured digits, when the name
    starts with one digit or more followed by an underscore. *)
Definition matchNumber (s : jsstring) : option jsstring :=
  let ds := takeWhile isDigit s in
  match ds, dropWhile isDigit s with
  | _ :: _, c :: _ => if c =? 95 then Some ds else None
  | _, _ => None
  end.

(** The body of the [forEach] callback of [getNextNumber]. *)
Definition countNumber (numberCounts : gmap double nat) (data : Entry)
  : gmap double nat :=
  match matchNumber (newName data) with
  | Some ds =>
      let num := parseInt ds in
      <[num := (default 0%nat (numberCounts !! num) + 1)%nat]> numberCounts
  | None => numberCounts
  end.

Definition numberCountsOf (m : list (jsstring * Entry)) : gmap double nat :=
  fold_left (λ counts kv, countNumber counts kv.2) m ∅.

(** [Math.max(...keys)] on a non-empty array of non-negative numbers. *)
Definition mathMax (keys : list double) : double := foldr maxDouble (Finite 0) keys.

(** [getNextNumber()].  The keys of the object [numberCounts] are the
    numbers as [String] prints them, which tells any two doubles apart;
    the table is keyed by the doubles themselves. *)
Definition getNextNumber (st : State) : double :=
  let numberCounts := numberCountsOf (processedFiles st) in
  let keys := (map_to_list numberCounts).*1 in
  if (length keys =? 0)%nat then Finite 1
  else
    let maxNumber := mathMax keys in
    match numberCounts !! maxNumber with
    | Some c => if (c <? 2)%nat then maxNumber else plusOne maxNumber
    | None => plusOne maxNumber
    end.


(** *** [naturalSort] *)

(** The first component of a token, [$1 || Infinity]: the digits matched
    by [(\d+)], or [Infinity] for a run matched by [(\D+)]. *)
Inductive key := Digits (ds : jsstring) | Infinity.

(** The number a key is in the subtraction [an[0] - bn[0]].  A run of
    digits converts to the nearest double; the name of a file holds at
    most 255 code units, so that no run in it reaches the 309 digits that
    convert to [Infinity]. *)
Definition keyNumber (k : key) : number :=
  match k with
  | Digits ds => Fin (Z.of_N (roundNat (decimalValue ds)))
  | Infinity => PosInf
  end.

(** The matches of [/(\d+)|(\D+)/g]: the maximal runs of digits and of
    other code units, each tagged by whether it is a run of digits. *)
Fixpoint runs (s : jsstring) : list (bool * jsstring) :=
  match s with
  | [] => []
  | c :: s' =>
      match runs s' with
      | (d, r) :: rest =>
          if Bool.eqb d (isDigit c) then (d, c :: r) :: rest
          else (isDigit c, [c]) :: (d, r) :: rest
      | [] => [(isDigit c, [c])]
      end
  end.

(** The array [ax] that the [replace] callback fills:
    [[$1 || Infinity, $2 || '']] per match. *)
Definition tokens (s : jsstring) : list (key * jsstring) :=
  List.map (λ '(d, r), if d : bool then (Digits r, []) else (Infinity, r))
    (runs s).

(** The [while] loop of [naturalSort] and its final
    [ax.length - bx.length]. *)
Fixpoint compareTokens (localeCompare : jsstring → jsstring → Z)
    (ax bx : list (key * jsstring)) : number :=
  match ax, bx with
  | an :: ax', bn :: bx' =>
      let d := sub (keyNumber an.1) (keyNumber bn.1) in
      let nn := if numTruthy d then d else Fin (localeCompare an.2 bn.2) in
      if numTruthy nn then nn else compareTokens localeCompare ax' bx'
  | _, _ => Fin (Z.of_nat (length ax) - Z.of_nat (length bx))
  end.

(** [naturalSort(a, b)]; [localeCompare] is the host's
    [String.prototype.localeCompare]. *)
Definition naturalSort (localeCompare : jsstring → jsstring → Z)
    (a b : jsstring) : number :=
  compareTokens localeCompare (tokens a) (tokens b).

(** *** State updates *)

Definition withForm (f : Form) (st : State) : State :=
  mkState (materials st) (processingMethods st) (implementers st)
    (materialCategories st) (materialNameToId st) (imageFiles st)
    (currentIndex st) (processedFiles st) (isReady st) f (processedList st).

Definition withCurrentIndex (i : nat) (st : State) : State :=
  mkState (materials st) (processingMethods st) (implementers st)
    (materialCategories st) (materialNameToId st) (imageFiles st)
    i (processedFiles st) (isReady st) (form st) (processedList st).

Definition withProcessed (m : list (jsstring * Entry)) (shown : list jsstring)
    (st : State) : State :=
  mkState (materials st) (processingMethods st) (implementers st)
    (materialCategories st) (materialNameToId st) (imageFiles st)
    (currentIndex st) m (isReady st) (form st) shown.

Definition withImages (files : list File) (ready : bool) (st : State) : State :=
  mkState (materials st) (processingMethods st) (implementers st)
    (materialCategories st) (materialNameToId st) files
    0 [] ready (form st) (processedList st).

Definition withNumberInput (v : jsstring) (f : Form) : Form :=
  mkForm v (implementerSelect f) (partNameInput f) (weightInput f)
    (unitSelect f) (materialCategorySelect f) (materialSelect f)
    (processingSelect f) (photoTypeSelect f) (notesSelect f).

(** *** The filename engine *)

(** [validateForm()] *)
Definition validateForm (st : State) : bool :=
  let f := form st in
  truthy (trim (partNameInput f)) && truthy (trim (weightInput f))
  && truthy (implementerSelect f) && truthy (materialSelect f)
  && truthy (processingSelect f).

(** How a template literal prints [table[key]]: a missing key gives
    [undefined]. *)
Definition showId (table : gmap jsstring jsstring) (k : jsstring) : jsstring :=
  match getProperty table k with
  | Own id => id
  | Inherited => inheritedText k
  | Undefined => js "undefined"
  end.

(** The values interpolated by the template literal of
    [generateFilename], in its order. *)
Definition filenameFields (st : State) : list jsstring :=
  let f := form st in
  let number :=
    if truthy (numberInput f) then numberInput f
    else numberToString (getNextNumber st) in
  [ number; trim (partNameInput f); trim (weightInput f); unitSelect f;
    showId (materialNameToId st) (materialSelect f);
    showId (processingMethods st) (processingSelect f);
    showId (implementers st) (implementerSelect f);
    photoTypeSelect f; notesSelect f ].

(** [generateFilename()] *)
Definition generateFilename (st : State) : jsstring :=
  let f := form st in
  if negb (truthy (trim (partNameInput f)))
     || negb (truthy (trim (weightInput f)))
     || negb (truthy (implementerSelect f))
     || negb (truthy (materialSelect f))
     || negb (truthy (processingSelect f))
  then []
  else joinUnderscore (filenameFields st).

(** [autoSetNumber()]: the number is assigned to the [value] of the
    field, which converts it to its text; the field is read as a control
    that keeps the text it is given. *)
Definition autoSetNumber (st : State) : State :=
  withForm (withNumberInput (numberToString (getNextNumber st)) (form st)) st.

(** [navigatePrevious()] *)
Definition navigatePrevious (st : State) : State :=
  if (0 <? currentIndex st)%nat
  then autoSetNumber (withCurrentIndex (currentIndex st - 1) st)
  else st.

(** [checkReadyState()] *)
Definition checkReadyState (st : State) (files : list File) : bool :=
  (0 <? size (materials st))%nat && (0 <? size (processingMethods st))%nat
  && (0 <? size (implementers st))%nat && (0 <? length files)%nat.

(** [handleImageUpload(event)] with [files] the selected files. *)
Definition handleImageUpload (localeCompare : jsstring → jsstring → Z)
    (files : list File) (st : State) : State :=
  match files with
  | [] => st
  | _ :: _ =>
      let sorted :=
        sortBy (λ a b, naturalSort localeCompare (name a) (name b)) files in
      let ready := checkReadyState st sorted in
      let st' := withImages sorted ready st in
      if ready then autoSetNumber st' else st'
  end.

(** The name an entry gets in the archive, in [downloadZip], and the name
    [applyAndNext] shows in the processed list. *)
Definition fullFilename (data : Entry) : jsstring :=
  newName data ++ js "." ++ extension data.

(** [applyAndNext()].  When no image is current, [file.name] throws, the
    handler's [catch] reports it and nothing has been changed. *)
Definition applyAndNext (st : State) : State :=
  if negb (validateForm st) then st
  else
    match imageFiles st !! currentIndex st with
    | None => st
    | Some file =>
        let newFilename := generateFilename st in
        let ext := pop (split 46 (name file)) in
        let data := mkEntry newFilename ext file in
        let st1 :=
          withProcessed (mapSet (name file) data (processedFiles st))
            (processedList st ++ [fullFilename data]) st in
        if (Z.of_nat (currentIndex st1) <? Z.of_nat (length (imageFiles st1)) - 1)%Z
        then autoSetNumber (withCurrentIndex (currentIndex st1 + 1) st1)
        else st1
    end.

(** *** The workbook *)

(** A row of [XLSX.utils.sheet_to_json]: an object from column header to
    cell. *)
Definition rowGet (row : gmap jsstring cell) (column : jsstring) : cell :=
  default Blank (row !! column).

(** The column headers and the sheet keywords of the source, as code
    units. *)
Definition colMaterialName : jsstring := [32032; 26448; 21517].      (* 素材名 *)
Definition colMaterialId : jsstring := [32032; 26448; 73; 68].        (* 素材ID *)
Definition colMaterialCategory : jsstring := [32032; 26448; 21306; 20998]. (* 素材区分 *)
Definition colProcessingName : jsstring := [21152; 24037; 26041; 27861; 21517]. (* 加工方法名 *)
Definition colProcessingId : jsstring := [21152; 24037; 73; 68].      (* 加工ID *)
Definition colImplementerName : jsstring := [23455; 26045; 32773; 21517]. (* 実施者名 *)
Definition colName : jsstring := [21517; 21069].                      (* 名前 *)
Definition colImplementerId : jsstring := [23455; 26045; 32773; 73; 68]. (* 実施者ID *)
Definition colId : jsstring := [73; 68].                              (* ID *)
Definition keywordMaterial : jsstring := [32032; 26448].              (* 素材 *)
Definition keywordProcessing : jsstring := [21152; 24037].            (* 加工 *)
Definition keywordImplementer : jsstring := [23455; 26045; 32773].    (* 実施者 *)

Definition withMaterialTables (m : gmap jsstring jsstring)
    (categories : gmap jsstring (list jsstring)) (ids : gmap jsstring jsstring)
    (st : State) : State :=
  mkState m (processingMethods st) (implementers st) categories ids (imageFiles st)
    (currentIndex st) (processedFiles st) (isReady st) (form st) (processedList st).

Definition withProcessingMethods (m : gmap jsstring jsstring) (st : State) : State :=
  mkState (materials st) m (implementers st) (materialCategories st)
    (materialNameToId st) (imageFiles st) (currentIndex st) (processedFiles st)
    (isReady st) (form st) (processedList st).

Definition withImplementers (m : gmap jsstring jsstring) (st : State) : State :=
  mkState (materials st) (processingMethods st) m (materialCategories st)
    (materialNameToId st) (imageFiles st) (currentIndex st) (processedFiles st)
    (isReady st) (form st) (processedList st).

Definition withIsReady (ready : bool) (st : State) : State :=
  mkState (materials st) (processingMethods st) (implementers st)
    (materialCategories st) (materialNameToId st) (imageFiles st) (currentIndex st)
    (processedFiles st) ready (form st) (processedList st).

Definition withCategorySelect (v : jsstring) (f : Form) : Form :=
  mkForm (numberInput f) (implementerSelect f) (partNameInput f) (weightInput f)
    (unitSelect f) v (materialSelect f) (processingSelect f) (photoTypeSelect f)
    (notesSelect f).

Definition withProcessingSelect (v : jsstring) (f : Form) : Form :=
  mkForm (numberInput f) (implementerSelect f) (partNameInput f) (weightInput f)
    (unitSelect f) (materialCategorySelect f) (materialSelect f) v (photoTypeSelect f)
    (notesSelect f).

Definition withImplementerSelect (v : jsstring) (f : Form) : Form :=
  mkForm (numberInput f) v (partNameInput f) (weightInput f)
    (unitSelect f) (materialCategorySelect f) (materialSelect f) (processingSelect f)
    (photoTypeSelect f) (notesSelect f).

(** The body of the [forEach] callback of [parseMaterialSheet]: the
    identifier is stored first, then the name is filed under its
    category.  Under a category that is a name of [Object.prototype] the
    code finds a member that is no array, skips the creation of the list
    and throws at [push]. *)
Definition materialRow (st : State) (row : gmap jsstring cell) : State * bool :=
  let name := rowGet row colMaterialName in
  let id := rowGet row colMaterialId in
  let category := rowGet row colMaterialCategory in
  if cellTruthy name && cellTruthy id && cellTruthy category then
    let n := cellString name in
    let c := cellString category in
    let m := setProperty n (cellString id) (materials st) in
    let ids := setProperty n (cellString id) (materialNameToId st) in
    match getProperty (materialCategories st) c with
    | Own names =>
        (withMaterialTables m (<[c := names ++ [n]]> (materialCategories st)) ids st,
         false)
    | Undefined =>
        (withMaterialTables m (<[c := [n]]> (materialCategories st)) ids st, false)
    | Inherited => (withMaterialTables m (materialCategories st) ids st, true)
    end
  else (st, false).

(** [parseMaterialSheet(sheet)], with [data] the rows of the sheet: the
    state it leaves, and whether it threw.  [updateSelect] rebuilds the
    options of the category control; [selected] is the value the browser
    leaves in it, which the page decides. *)
Definition parseMaterialSheet (selected : jsstring) (data : list (gmap jsstring cell))
    (st : State) : State * bool :=
  let '(st1, thrown) := forEach materialRow data (withMaterialTables ∅ ∅ ∅ st) in
  if thrown then (st1, true)
  else (withForm (withCategorySelect selected (form st1)) st1, false).

Definition processingRow (st : State) (row : gmap jsstring cell) : State :=
  let name := rowGet row colProcessingName in
  let id := rowGet row colProcessingId in
  if cellTruthy name && cellTruthy id then
    withProcessingMethods
      (setProperty (cellString name) (cellString id) (processingMethods st)) st
  else st.

(** [parseProcessingSheet(sheet)] *)
Definition parseProcessingSheet (selected : jsstring) (data : list (gmap jsstring cell))
    (st : State) : State :=
  let st1 := fold_left processingRow data (withProcessingMethods ∅ st) in
  withForm (withProcessingSelect selected (form st1)) st1.

Definition implementerRow (st : State) (row : gmap jsstring cell) : State :=
  let name := orCell (rowGet row colImplementerName) (rowGet row colName) in
  let id := orCell (rowGet row colImplementerId) (rowGet row colId) in
  if cellTruthy name && cellTruthy id then
    withImplementers
      (setProperty (cellString name) (cellString id) (implementers st)) st
  else st.

(** [parseImplementerSheet(sheet)] *)
Definition parseImplementerSheet (selected : jsstring) (data : list (gmap jsstring cell))
    (st : State) : State :=
  let st1 := fold_left implementerRow data (withImplementers ∅ st) in
  withForm (withImplementerSelect selected (form st1)) st1.

(** [findSheet(workbook, keyword)]; a workbook is its sheets in the order
    of [SheetNames], each with its rows. *)
Fixpoint findSheet (workbook : list (jsstring * list (gmap jsstring cell)))
    (keyword : jsstring) : option (list (gmap jsstring cell)) :=
  match workbook with
  | [] => None
  | (sheetName, sheet) :: workbook' =>
      if includes sheetName keyword then Some sheet else findSheet workbook' keyword
  end.

(** The values the browser leaves in the three rebuilt controls. *)
Record Selected := mkSelected {
  selectedCategory : jsstring;
  selectedProcessing : jsstring;
  selectedImplementer : jsstring
}.

(** [parseExcelData(workbook)]: the state it leaves, and whether it
    threw: the error of the material sheet, which ends it at once, or its
    own error for missing sheets. *)
Definition parseExcelData (sel : Selected)
    (workbook : list (jsstring * list (gmap jsstring cell))) (st : State)
  : State * bool :=
  let '(st1, thrown) :=
    match findSheet workbook keywordMaterial with
    | Some sheet => parseMaterialSheet (selectedCategory sel) sheet st
    | None => (st, false)
    end in
  if thrown then (st1, true) else
  let st2 :=
    match findSheet workbook keywordProcessing with
    | Some sheet => parseProcessingSheet (selectedProcessing sel) sheet st1
    | None => st1
    end in
  let st3 :=
    match findSheet workbook keywordImplementer with
    | Some sheet => parseImplementerSheet (selectedImplementer sel) sheet st2
    | None => st2
    end in
  (st3,
   (size (materials st3) =? 0)%nat || (size (processingMethods st3) =? 0)%nat
   || (size (implementers st3) =? 0)%nat).

(** [handleExcelUpload(event)] once the workbook has been read: an error
    thrown in [parseExcelData] is caught and reported, and
    [checkReadyState] is not reached. *)
Definition handleExcelUpload (sel : Selected)
    (workbook : list (jsstring * list (gmap jsstring cell))) (st : State) : State :=
  let '(st1, thrown) := parseExcelData sel workbook st in
  if thrown then st1 else withIsReady (checkReadyState st1 (imageFiles st1)) st1.

(** [downloadZip()]: the calls of [zip.file] it makes, in the order of the
    ledger, each with the name and the content it passes. *)
Definition downloadZip (st : State) : list (jsstring * File) :=
  (λ entry, (fullFilename entry.2, blob entry.2)) <$> processedFiles st.

End App.

(** ** [script.js] *)

Module Script.

Record File := mkFile { name : jsstring; content : list N }.

(** The form controls read by [getInputValues]. *)
Record Inputs := mkInputs {
  inputPartName : jsstring;
  inputWeight : jsstring;
  inputUnit : jsstring;
  inputCategory : jsstring;
  inputMaterial : jsstring;
  inputProcessing : jsstring;
  inputPhotoType : jsstring;
  inputNotes : jsstring
}.

(** The object returned by [getInputValues]. *)
Record Values := mkValues {
  partName : jsstring;
  weight : jsstring;
  unit : jsstring;
  category : jsstring;
  material : jsstring;
  processing_ : jsstring;
  photoType : jsstring;
  notes : jsstring
}.

(** [state], with the form controls of [dom].  [renamedFiles] is a plain
    object from original to new full name; it is read by its own entries,
    the names of image files being no names of [Object.prototype]. *)
Record State := mkState {
  materials : gmap jsstring jsstring;
  materialCategories : gmap jsstring (list jsstring);
  materialNameToId : gmap jsstring jsstring;
  processing : gmap jsstring jsstring;
  images : list File;
  currentIndex : nat;
  renamedFiles : gmap jsstring jsstring;
  dom : Inputs
}.

(** [getInputValues()] *)
Definition getInputValues (st : State) : Values :=
  let d := dom st in
  mkValues (trim (inputPartName d)) (trim (inputWeight d)) (inputUnit d)
    (inputCategory d) (inputMaterial d) (inputProcessing d)
    (inputPhotoType d) (inputNotes d).

(** The class [[0-9a-zA-Z.-]] of the weight pattern. *)
Definition weightChar (c : N) : bool :=
  isDigit c || ((97 <=? c) && (c <=? 122)) || ((65 <=? c) && (c <=? 90))
  || (c =? 46) || (c =? 45).

(** [/^[0-9a-zA-Z.-]+$/.test(w)] *)
Definition weightPattern (w : jsstring) : bool :=
  truthy w && forallb weightChar w.

(** [validateInputs()] *)
Definition validateInputs (st : State) : bool :=
  let values := getInputValues st in
  truthy (partName values)
  && truthy (weight values) && weightPattern (weight values)
  && truthy (category values) && truthy (material values)
  && truthy (processing_ values).

(** The class of forbidden code units removed by [sanitizeFilename]:
    less-than, greater-than, colon, double quote, slash, backslash, bar,
    question mark, star, and the control characters 0x00 to 0x1f. *)
Definition forbidden (c : N) : bool :=
  (c =? 60) || (c =? 62) || (c =? 58) || (c =? 34) || (c =? 47)
  || (c =? 92) || (c =? 124) || (c =? 63) || (c =? 42) || (c <=? 31).

(** [s.replace(/\s+/g, ' ')]: every maximal run of white space becomes one
    space, written when the run ends. *)
Fixpoint collapseSpaces (s : jsstring) : jsstring :=
  match s with
  | [] => []
  | c :: s' =>
      if isSpace c then
        match s' with
        | c' :: _ => if isSpace c' then collapseSpaces s' else 32 :: collapseSpaces s'
        | [] => [32]
        end
      else c :: collapseSpaces s'
  end.

(** The three chained calls of [sanitizeFilename], without its guard. *)
Definition clean (str : jsstring) : jsstring :=
  trim (collapseSpaces (List.filter (λ c, negb (forbidden c)) str)).

(** [sanitizeFilename(str)] *)
Definition sanitizeFilename (str : jsstring) : jsstring :=
  if negb (truthy str) then js "untitled" else clean str.

(** [isReady()] *)
Definition isReady (st : State) : bool :=
  (0 <? size (materials st))%nat && (0 <? size (processing st))%nat
  && (0 <? length (images st))%nat.

(** [table[key] || '???'], as the template literal prints it. *)
Definition idOrPlaceholder (table : gmap jsstring jsstring) (k : jsstring)
  : jsstring :=
  match getProperty table k with
  | Own id => if truthy id then id else js "???"
  | Inherited => inheritedText k
  | Undefined => js "???"
  end.

(** The values interpolated by the template literal of
    [generateNewFilename], in its order.  The number is the position of
    the image, which is below 2^32 and printed digit by digit. *)
Definition filenameFields (st : State) : list jsstring :=
  let v := getInputValues st in
  [ toString (N.of_nat (currentIndex st) + 1);
    sanitizeFilename (partName v); sanitizeFilename (weight v); unit v;
    idOrPlaceholder (materialNameToId st) (material v);
    idOrPlaceholder (processing st) (processing_ v);
    photoType v; notes v ].

(** [generateNewFilename()] *)
Definition generateNewFilename (st : State) : jsstring :=
  if negb (isReady st) then []
  else
    let v := getInputValues st in
    if negb (truthy (partName v)) || negb (truthy (material v))
       || negb (truthy (processing_ v))
    then js "..."
    else joinUnderscore (filenameFields st).

Definition withCurrentIndex (i : nat) (st : State) : State :=
  mkState (materials st) (materialCategories st) (materialNameToId st)
    (processing st) (images st) i (renamedFiles st) (dom st).

Definition withRenamed (m : gmap jsstring jsstring) (st : State) : State :=
  mkState (materials st) (materialCategories st) (materialNameToId st)
    (processing st) (images st) (currentIndex st) m (dom st).

(** [applyAndNext()].  When no image is current, [currentFile.name]
    throws before anything has been changed. *)
Definition applyAndNext (st : State) : State :=
  if negb (validateInputs st) then st
  else
    match images st !! currentIndex st with
    | None => st
    | Some currentFile =>
        let newNameBase := generateNewFilename st in
        let ext := pop (split 46 (name currentFile)) in
        let newFullname := newNameBase ++ js "." ++ ext in
        let st1 :=
          withRenamed (<[name currentFile := newFullname]> (renamedFiles st)) st in
        if (Z.of_nat (currentIndex st1) <? Z.of_nat (length (images st1)) - 1)%Z
        then withCurrentIndex (currentIndex st1 + 1) st1
        else st1
    end.

(** [navigateImage(delta)] *)
Definition navigateImage (delta : Z) (st : State) : State :=
  let newIndex := (Z.of_nat (currentIndex st) + delta)%Z in
  if (0 <=? newIndex)%Z && (newIndex <? Z.of_nat (length (images st)))%Z
  then withCurrentIndex (Z.to_nat newIndex) st
  else st.

(** [handleImagesLoad(e)] with [files] the selected files. *)
Definition handleImagesLoad (localeCompare : jsstring → jsstring → Z)
    (files : list File) (st : State) : State :=
  match files with
  | [] => st
  | _ :: _ =>
      mkState (materials st) (materialCategories st) (materialNameToId st)
        (processing st)
        (sortBy (λ a b, Fin (localeCompare (name a) (name b))) files)
        0 ∅ (dom st)
  end.

(** *** The master tables *)

Definition colMaterialName : jsstring := [32032; 26448; 21517].       (* 素材名 *)
Definition colMaterial : jsstring := [32032; 26448].                  (* 素材 *)
Definition colMaterialId : jsstring := [32032; 26448; 73; 68].        (* 素材ID *)
Definition colMaterialCategory : jsstring := [32032; 26448; 21306; 20998]. (* 素材区分 *)
Definition colProcessingName : jsstring := [21152; 24037; 26041; 27861; 21517]. (* 加工方法名 *)
Definition colProcessing : jsstring := [21152; 24037; 26041; 27861].  (* 加工方法 *)
Definition colProcessingId : jsstring := [21152; 24037; 73; 68].      (* 加工ID *)
Definition commonCategory : jsstring := [20849; 36890].               (* 共通 *)

Definition withMaterialTables (m : gmap jsstring jsstring)
    (categories : gmap jsstring (list jsstring)) (ids : gmap jsstring jsstring)
    (st : State) : State :=
  mkState m categories ids (processing st) (images st) (currentIndex st)
    (renamedFiles st) (dom st).

Definition withProcessing (m : gmap jsstring jsstring) (st : State) : State :=
  mkState (materials st) (materialCategories st) (materialNameToId st) m (images st)
    (currentIndex st) (renamedFiles st) (dom st).

Definition withDom (d : Inputs) (st : State) : State :=
  mkState (materials st) (materialCategories st) (materialNameToId st) (processing st)
    (images st) (currentIndex st) (renamedFiles st) d.

Definition withInputCategory (v : jsstring) (d : Inputs) : Inputs :=
  mkInputs (inputPartName d) (inputWeight d) (inputUnit d) v (inputMaterial d)
    (inputProcessing d) (inputPhotoType d) (inputNotes d).

Definition withInputMaterial (v : jsstring) (d : Inputs) : Inputs :=
  mkInputs (inputPartName d) (inputWeight d) (inputUnit d) (inputCategory d) v
    (inputProcessing d) (inputPhotoType d) (inputNotes d).

Definition withInputProcessing (v : jsstring) (d : Inputs) : Inputs :=
  mkInputs (inputPartName d) (inputWeight d) (inputUnit d) (inputCategory d)
    (inputMaterial d) v (inputPhotoType d) (inputNotes d).

(** One turn of the loop of [parseMaterialMaster]; [colCat] is the column
    of the category, when the header has one.  The name is filed under
    its category first, then the identifier is stored.  Under a category
    that is a name of [Object.prototype] the code finds a member that is
    no array, skips the creation of the list and throws at [push]. *)
Definition materialRow (colName colId : nat) (colCat : option nat) (st : State)
    (row : list cell) : State * bool :=
  let name := cellAt row colName in
  let id := cellAt row colId in
  let cat :=
    match colCat with
    | Some col => cellAt row col
    | None => Text commonCategory
    end in
  if cellTruthy name && cellTruthy id then
    let catStr := cellString (orCell cat (Text commonCategory)) in
    let n := cellString name in
    let m := setProperty n (cellString id) (materials st) in
    let ids := setProperty n (cellString id) (materialNameToId st) in
    match getProperty (materialCategories st) catStr with
    | Own names =>
        (withMaterialTables m (<[catStr := names ++ [n]]> (materialCategories st)) ids st,
         false)
    | Undefined =>
        (withMaterialTables m (<[catStr := [n]]> (materialCategories st)) ids st, false)
    | Inherited => (st, true)
    end
  else (st, false).

(** The run of [parseMaterialMaster(rows)]: the state it leaves, and
    whether it threw.  The category control is rebuilt after the loop,
    from a first option of empty value, which leaves it on that option;
    the material control is not touched. *)
Definition readMaterialMaster (rows : list (list cell)) (st : State) : State * bool :=
  if (length rows <? 2)%nat then (st, false)
  else
    let header := default [] (rows !! 0%nat) in
    let colName :=
      match indexOf header colMaterialName with
      | Some col => Some col
      | None => indexOf header colMaterial
      end in
    match colName, indexOf header colMaterialId with
    | Some colName, Some colId =>
        let colCat := indexOf header colMaterialCategory in
        let '(st1, thrown) :=
          forEach (materialRow colName colId colCat) (drop 1 rows)
            (withMaterialTables ∅ ∅ ∅ st) in
        if thrown then (st1, true)
        else (withDom (withInputCategory [] (dom st1)) st1, false)
    | _, _ => (st, false)
    end.

(** [parseMaterialMaster(rows)]: the state it leaves.  An error it throws
    is caught by [handleMaterialLoad], which reports it and changes
    nothing more. *)
Definition parseMaterialMaster (rows : list (list cell)) (st : State) : State :=
  (readMaterialMaster rows st).1.

Definition processingRow (colName colId : nat) (st : State) (row : list cell) : State :=
  let name := cellAt row colName in
  let id := cellAt row colId in
  if cellTruthy name && cellTruthy id then
    withProcessing (setProperty (cellString name) (cellString id) (processing st)) st
  else st.

(** [parseProcessingMaster(rows)]; the processing control is rebuilt from
    a first option of empty value. *)
Definition parseProcessingMaster (rows : list (list cell)) (st : State) : State :=
  if (length rows <? 2)%nat then st
  else
    let header := default [] (rows !! 0%nat) in
    let colName :=
      match indexOf header colProcessingName with
      | Some col => Some col
      | None => indexOf header colProcessing
      end in
    match colName, indexOf header colProcessingId with
    | Some colName, Some colId =>
        let st1 :=
          fold_left (processingRow colName colId) (drop 1 rows) (withProcessing ∅ st) in
        withDom (withInputProcessing [] (dom st1)) st1
    | _, _ => st
    end.

(** [handleCategoryChange()]: the material control is rebuilt from a first
    option of empty value, whatever the category. *)
Definition handleCategoryChange (st : State) : State :=
  withDom (withInputMaterial [] (dom st)) st.

(** The options [handleCategoryChange] puts into the material control,
    after the empty one: the names of the category, when the table has
    it.  (Under a member of [Object.prototype] the loop over the names
    throws before an option is added.) *)
Definition materialOptions (st : State) : list jsstring :=
  let category := inputCategory (dom st) in
  if truthy category then
    match getProperty (materialCategories st) category with
    | Own names => names
    | Inherited | Undefined => []
    end
  else [].

(** [downloadZip()]: the calls of [folder.file] it makes, in the order of
    the images, each with the name and the content it passes.  Without a
    call no archive is saved. *)
Definition downloadZip (st : State) : list (jsstring * File) :=
  omap (λ file,
          match renamedFiles st !! name file with
          | Some newName => if truthy newName then Some (newName, file) else None
          | None => None
          end) (images st).

End Script.

(** ** Vocabulary of the specification *)

(** The leading integer of an assigned name, in the words of the
    specification: the digits before the first underscore.  A name without
    an underscore, or with anything but a non-empty run of digits before
    its first underscore, has none. *)
Definition leadingInteger (s : jsstring) : option N :=
  match split 95 s with
  | ds :: _ :: _ =>
      if truthy ds && forallb isDigit ds then Some (decimalValue ds) else None
  | _ => None
  end.

(** The numeric prefixes assigned in a ledger, one per entry that has one. *)
Definition ledgerNumbers (m : list (jsstring * App.Entry)) : list N :=
  omap (λ kv, leadingInteger (App.newName kv.2)) m.

(** How many times [n] occurs among the assigned prefixes. *)
Definition occurrences (n : N) (nums : list N) : nat :=
  count_occ N.eq_dec nums n.

(** The doubles: what [toDouble] returns. *)
Definition isDouble (x : double) : Prop :=
  match x with
  | Finite n => roundNat n = n ∧ n < 2 ^ 1024
  | Infinite => True
  end.

(** The order of the doubles. *)
Definition doubleLe (x y : double) : Prop :=
  match x, y with
  | Finite a, Finite b => a ≤ b
  | _, Infinite => True
  | Infinite, Finite _ => False
  end.

(** How many times a double occurs in a list. *)
Definition occurrencesOf (x : double) (xs : list double) : nat :=
  count_occ double_eq_dec xs x.

(** The greatest of the assigned prefixes. *)
Definition greatest (nums : list N) : N := foldr N.max 0 nums.

(** The assigned prefixes as [getNextNumber] reads them: [parseInt] of the
    digits that its regular expression captures. *)
Definition ledgerDoubles (m : list (jsstring * App.Entry)) : list double :=
  omap (λ kv, parseInt <$> App.matchNumber (App.newName kv.2)) m.

(** A number that the doubles hold exactly, with its successor: the
    numbers below 2^53. *)
Definition safeNumber (n : N) : Prop := n < exactBelow.

Definition exampleFile (n : string) : App.File := App.mkFile (js n) [].

Definition exampleEntry (n : string) : App.Entry :=
  App.mkEntry (js n) (js "jpg") (exampleFile "x.jpg").

Definition emptyForm : App.Form := App.mkForm [] [] [] [] [] [] [] [] [] [].

(** A ledger with a gap, a value used three times and a name without a
    number. *)
Definition gapLedger : list (jsstring * App.Entry) :=
  [ (js "a.jpg", exampleEntry "1_bolt_3_kg_M01_P02_I03_P_0");
    (js "b.jpg", exampleEntry "5_bolt_3_kg_M01_P02_I03_P_0");
    (js "c.jpg", exampleEntry "05_nut_3_kg_M01_P02_I03_P_0");
    (js "d.jpg", exampleEntry "5_nut_3_kg_M01_P02_I03_D_0");
    (js "e.jpg", exampleEntry "draft_nut") ].

Definition ledgerState (m : list (jsstring * App.Entry)) : App.State :=
  App.mkState ∅ ∅ ∅ ∅ ∅ [] 0 m false emptyForm [].

(** A ledger whose one entry carries 2^53 + 1, a number typed into the
    number field. *)
Definition wideLedger : list (jsstring * App.Entry) :=
  [ (js "a.jpg", exampleEntry "9007199254740993_bolt_3_kg_M01_P02_I03_P_0") ].

(** *** Forward confirmation *)

(** The user fills in the form for the current image and leaves the
    number field as the application set it. *)
Definition userFills (f : App.Form) (st : App.State) : App.State :=
  App.withForm (App.withNumberInput (App.numberInput (App.form st)) f) st.

(** One confirmation per form, in forward order; the result lists what
    [getNextNumber] returns before each confirmation. *)
Fixpoint confirmForward (fs : list App.Form) (st : App.State) : list double :=
  match fs with
  | [] => []
  | f :: fs' =>
      let st1 := userFills f st in
      App.getNextNumber st1 :: confirmForward fs' (App.applyAndNext st1)
  end.

(** The number field is empty or holds what [autoSetNumber] wrote. *)
Definition numberProposed (st : App.State) : Prop :=
  App.numberInput (App.form st) = []
  ∨ App.numberInput (App.form st) = numberToString (App.getNextNumber st).

(** The images from the cursor on have distinct names, none of them in the
    ledger yet. *)
Definition freshAhead (st : App.State) : Prop :=
  let ahead := drop (App.currentIndex st) (App.imageFiles st) in
  NoDup (App.name <$> ahead)
  ∧ Forall (λ file, App.mapGet (App.name file) (App.processedFiles st) = None) ahead.

(** The second use of the greatest assigned number is still open. *)
Definition slotOpen (nums : list N) : bool :=
  match nums with
  | [] => false
  | _ :: _ => (occurrences (greatest nums) nums <? 2)%nat
  end.

(** The pair sequence: [n] numbers from [r] on, each used twice, the
    first only once when [once] is set. *)
Fixpoint pairSeq (r : N) (once : bool) (n : nat) : list N :=
  match n with
  | O => []
  | S n' => r :: pairSeq (if once then r + 1 else r) (negb once) n'
  end.

(** Tables and a filled-in form for the examples. *)
Definition table (rows : list (string * string)) : gmap jsstring jsstring :=
  list_to_map (List.map (λ row, (js row.1, js row.2)) rows).

Definition bracketForm (number : jsstring) : App.Form :=
  App.mkForm number (js "Alice") (js "Bracket") (js "12.5") (js "kg")
    (js "Metal") (js "Aluminum") (js "Anodize") (js "P") (js "0").

(** Eight images; the first five are in [gapLedger] already and the
    cursor of [reviewState] stands on the sixth. *)
Definition reviewImages : list App.File :=
  List.map exampleFile
    ["a.jpg"; "b.jpg"; "c.jpg"; "d.jpg"; "e.jpg"; "f.jpg"; "g.jpg"; "h.jpg"]%string.

Definition reviewState : App.State :=
  App.mkState (table [("Aluminum", "M01")]%string) (table [("Anodize", "P02")]%string)
    (table [("Alice", "I03")]%string) {[ js "Metal" := [js "Aluminum"] ]}
    (table [("Aluminum", "M01")]%string)
    reviewImages 5 gapLedger true (bracketForm []) [].

Definition reviewForms : list App.Form :=
  [bracketForm []; bracketForm []; bracketForm []].

(** The scenario of the specification: one material, one processing
    method, one implementer, an empty ledger and the image
    [IMG_001.jpg]. *)
Definition scenarioState : App.State :=
  App.mkState (table [("Aluminum", "M01")]%string) (table [("Anodize", "P02")]%string)
    (table [("Alice", "I03")]%string) {[ js "Metal" := [js "Aluminum"] ]}
    (table [("Aluminum", "M01")]%string)
    [exampleFile "IMG_001.jpg"; exampleFile "IMG_002.jpg"; exampleFile "IMG_003.jpg"]
    0 [] true (bracketForm []) [].

(** *** Required fields, in the words of the specification *)

(** The allow-list of the weight: digits, ASCII letters, dot and hyphen. *)
Definition weightAllowed (w : jsstring) : bool :=
  forallb (λ c, isDigit c || ((65 <=? c) && (c <=? 90))
                || ((97 <=? c) && (c <=? 122)) || (c =? 46) || (c =? 45)) w.

(** Part name and weight non-empty after trimming, the weight within its
    allow-list, material and processing selected. *)
Definition requiredFields (part weight material processing : jsstring) : bool :=
  truthy (trim part) && truthy (trim weight) && weightAllowed (trim weight)
  && truthy material && truthy processing.

Definition appRequired (st : App.State) : bool :=
  let f := App.form st in
  requiredFields (App.partNameInput f) (App.weightInput f)
    (App.materialSelect f) (App.processingSelect f)
  && truthy (App.implementerSelect f).

Definition scriptRequired (st : Script.State) : bool :=
  let d := Script.dom st in
  requiredFields (Script.inputPartName d) (Script.inputWeight d)
    (Script.inputMaterial d) (Script.inputProcessing d).

(** The scenario with a comma in the weight. *)
Definition commaWeightState : App.State :=
  App.withForm
    (App.mkForm [] (js "Alice") (js "Bracket") (js "12,5") (js "kg")
       (js "Metal") (js "Aluminum") (js "Anodize") (js "P") (js "0"))
    scenarioState.

(** The scenario in the variant of [script.js]. *)
Definition scriptInputs (part weight material : string) : Script.Inputs :=
  Script.mkInputs (js part) (js weight) (js "kg") (js "Metal") (js material)
    (js "Anodize") (js "P") (js "0").

Definition scriptState (d : Script.Inputs) : Script.State :=
  Script.mkState (table [("Aluminum", "M01")]%string)
    {[ js "Metal" := [js "Aluminum"] ]} (table [("Aluminum", "M01")]%string)
    (table [("Anodize", "P02")]%string)
    [Script.mkFile (js "IMG_001.jpg") []; Script.mkFile (js "IMG_002") []]
    0 ∅ d.

(** *** Sanitized text, in the words of the specification *)

(** White space occurs only as single spaces: every white-space code unit
    is a space and is not followed by another. *)
Fixpoint tidy (s : jsstring) : Prop :=
  match s with
  | [] => True
  | c :: s' =>
      (isSpace c = true →
       c = 32 ∧ match s' with [] => True | c' :: _ => isSpace c' = false end)
      ∧ tidy s'
  end.

(** No forbidden character, no run of white space but single spaces, and
    no white space at either end. *)
Definition sanitized (s : jsstring) : Prop :=
  Forall (λ c, Script.forbidden c = false) s ∧ tidy s ∧ trim s = s.

(** The part-name and weight fields (the second and the third value of
    the template) of every accepted form are sanitized. *)
Definition fieldsSanitized {S} (accepted : S → bool)
    (fields : S → list jsstring) : Prop :=
  ∀ st, accepted st = true →
    ∀ i field, (i = 1 ∨ i = 2)%nat → fields st !! i = Some field →
      sanitized field.

(** The scenario with a slash in the part name. *)
Definition slashState : App.State :=
  App.withForm
    (App.mkForm [] (js "Alice") (js "Bracket A/B") (js "12.5") (js "kg")
       (js "Metal") (js "Aluminum") (js "Anodize") (js "P") (js "0"))
    scenarioState.

(** The scenario with a material that the table does not hold, as after a
    second import of the workbook. *)
Definition steelState : App.State :=
  App.withForm
    (App.mkForm [] (js "Alice") (js "Bracket") (js "12.5") (js "kg")
       (js "Metal") (js "Steel") (js "Anodize") (js "P") (js "0"))
    scenarioState.

(** The scenario with the cursor on an image whose name has no dot. *)
Definition noDotState : App.State :=
  App.mkState (table [("Aluminum", "M01")]%string) (table [("Anodize", "P02")]%string)
    (table [("Alice", "I03")]%string) {[ js "Metal" := [js "Aluminum"] ]}
    (table [("Aluminum", "M01")]%string)
    [exampleFile "IMG_001.jpg"; exampleFile "IMG_002"]
    1 [] true (bracketForm []) [].

Definition scriptNoDotState : Script.State :=
  Script.withCurrentIndex 1 (scriptState (scriptInputs "Bracket" "12.5" "Aluminum")).

(** *** Collation *)

(** Comparison by code units, the collation of the examples.  It orders
    [img1.jpg], [img10.jpg] and [img2.jpg] as the host's [localeCompare]
    does without its numeric option: a dot before a digit, and
    1 before 2. *)
Fixpoint codeUnitCompare (a b : jsstring) : Z :=
  match a, b with
  | [], [] => 0
  | [], _ :: _ => -1
  | _ :: _, [] => 1
  | x :: a', y :: b' =>
      if x <? y then -1 else if y <? x then 1 else codeUnitCompare a' b'
  end.

(** Two collations order the given names alike. *)
Definition agreeOn (lc lc' : jsstring → jsstring → Z) (names : list jsstring) : Prop :=
  ∀ a b, a ∈ names → b ∈ names → Z.sgn (lc a b) = Z.sgn (lc' a b).

(** A text that does not begin with a digit. *)
Definition noLeadingDigit (s : jsstring) : Prop :=
  match s with
  | [] => True
  | c :: _ => isDigit c = false
  end.

(** A text that does not end in a digit. *)
Definition noTrailingDigit (s : jsstring) : Prop :=
  match last s with
  | Some c => isDigit c = false
  | None => True
  end.

Definition importedNames : list string := ["img10.jpg"; "img2.jpg"; "img1.jpg"]%string.

Definition scriptFile (n : string) : Script.File := Script.mkFile (js n) [].

(** Comparison of two numbers by their difference. *)
Definition byNumber (n m : N) : number := Fin (Z.of_N n - Z.of_N m).

(** ** The review session *)

(** The cursor stands on an image, or at 0 when there is none. *)
Definition cursorOk (index : nat) (images : nat) : Prop :=
  index = 0%nat ∨ (index < images)%nat.

(** Every key of the ledger is the name of an image of the sequence. *)
Definition ledgerWithin (st : App.State) : Prop :=
  Forall (λ k, k ∈ App.name <$> App.imageFiles st) (App.processedFiles st).*1.

(** The number at the head of the name recorded for an image. *)
Definition recordedNumber (k : jsstring) (st : App.State) : option N :=
  App.mapGet k (App.processedFiles st) ≫= λ data, leadingInteger (App.newName data).

(** The form is confirmed for two images in a row, the user goes back
    one image and confirms the same form once more. *)
Definition confirmTwice (f : App.Form) (st : App.State) : App.State :=
  App.applyAndNext (userFills f (App.applyAndNext (userFills f st))).

Definition backAndConfirm (f : App.Form) (st : App.State) : App.State :=
  App.applyAndNext (userFills f (App.navigatePrevious st)).

(** The scenario in [script.js], with its form filled in. *)
Definition bracketScript : Script.State :=
  scriptState (scriptInputs "Bracket" "12.5" "Aluminum").

(** *** The tables read from the spreadsheets *)

(** The material tables hang together: no category is the name of a
    member of [Object.prototype], every category lists at least one name,
    every listed name has an identifier, the name [__proto__] apart, under
    which nothing can be stored, every identifier is a non-empty text,
    and every name with an identifier is listed. *)
Definition linked (ids : gmap jsstring jsstring)
    (categories : gmap jsstring (list jsstring)) : Prop :=
  (∀ c names, categories !! c = Some names →
     (c ∉ prototypeKeys) ∧ names ≠ []
     ∧ ∀ n, n ∈ names →
         n = js "__proto__" ∨ (∃ id, ids !! n = Some id ∧ truthy id = true))
  ∧ (∀ n id, ids !! n = Some id →
       truthy id = true ∧ ∃ c names, categories !! c = Some names ∧ n ∈ names).

(** No sheet of the workbook has a name that contains the keyword. *)
Definition noSheet (workbook : list (jsstring * list (gmap jsstring cell)))
    (keyword : jsstring) : Prop :=
  Forall (λ sheet, includes sheet.1 keyword = false) workbook.

(** What an import of spreadsheets never touches in [app.js]. *)
Definition appSession (st : App.State) :=
  (App.imageFiles st, App.currentIndex st, App.processedFiles st,
   App.processedList st, App.numberInput (App.form st)).

(** A workbook with one row in each of its three sheets. *)
Definition exampleWorkbook : list (jsstring * list (gmap jsstring cell)) :=
  [ (App.keywordMaterial,
     [ {[ App.colMaterialName := Text (js "Aluminum");
          App.colMaterialId := Text (js "M01");
          App.colMaterialCategory := Text (js "Metal") ]} ]);
    (App.keywordProcessing,
     [ {[ App.colProcessingName := Text (js "Anodize");
          App.colProcessingId := Num 2 ]} ]);
    (App.keywordImplementer,
     [ {[ App.colName := Text (js "Alice"); App.colId := Num 3 ]} ]) ].

Definition exampleSelected : App.Selected := App.mkSelected [] [] [].

(** The application as it starts: no tables, no images. *)
Definition appStart : App.State := ledgerState [].

(** The material tables of [app.js] hang together. *)
Definition appMaterialsLinked (st : App.State) : Prop :=
  App.materials st = App.materialNameToId st
  ∧ linked (App.materialNameToId st) (App.materialCategories st).

(** What each reader of a sheet leaves alone. *)
Definition appOutsideMaterials (st : App.State) :=
  (App.processingMethods st, App.implementers st, App.isReady st, appSession st).

Definition appOutsideProcessing (st : App.State) :=
  (App.materials st, App.materialCategories st, App.materialNameToId st,
   App.implementers st, App.isReady st, appSession st).

Definition appOutsideImplementers (st : App.State) :=
  (App.materials st, App.materialCategories st, App.materialNameToId st,
   App.processingMethods st, App.isReady st, appSession st).

(** The five tables of [app.js]. *)
Definition appTables (st : App.State) :=
  (App.materials st, App.materialCategories st, App.materialNameToId st,
   App.processingMethods st, App.implementers st).

(** The material tables of [script.js] hang together. *)
Definition scriptMaterialsLinked (st : Script.State) : Prop :=
  Script.materials st = Script.materialNameToId st
  ∧ linked (Script.materialNameToId st) (Script.materialCategories st).

(** What the readers of the masters never touch in [script.js]. *)
Definition scriptSession (st : Script.State) :=
  (Script.images st, Script.currentIndex st, Script.renamedFiles st).

(** The header row of a master. *)
Definition headerOf (rows : list (list cell)) : list cell := default [] (rows !! 0%nat).

(** The names of the rows that have a name and an identifier, in the
    order of the rows. *)
Definition validNames (colName colId : nat) (rows : list (list cell)) : list jsstring :=
  List.map (λ row, cellString (cellAt row colName))
    (List.filter (λ row, cellTruthy (cellAt row colName) && cellTruthy (cellAt row colId))
       rows).

(** The categories of a master without a category column. *)
Definition commonOnly (names : list jsstring) : gmap jsstring (list jsstring) :=
  match names with
  | [] => ∅
  | _ :: _ => {[ Script.commonCategory := names ]}
  end.

(** The user picks a category. *)
Definition picksCategory (category : jsstring) (st : Script.State) : Script.State :=
  Script.withDom (Script.withInputCategory category (Script.dom st)) st.

(** A material master with its category column, and one without. *)
Definition exampleMaster : list (list cell) :=
  [ [Text Script.colMaterialName; Text Script.colMaterialId;
     Text Script.colMaterialCategory];
    [Text (js "Aluminum"); Text (js "M01"); Text (js "Metal")];
    [Text (js "Steel"); Num 7; Blank];
    [Text (js "Nameless"); Blank; Text (js "Metal")] ].

Definition plainMaster : list (list cell) :=
  [ [Text Script.colMaterial; Text Script.colMaterialId];
    [Text (js "Aluminum"); Text (js "M01")];
    [Blank; Text (js "M02")];
    [Text (js "Steel"); Num 7] ].

Definition exampleProcessingMaster : list (list cell) :=
  [ [Text Script.colProcessing; Text Script.colProcessingId];
    [Text (js "Anodize"); Text (js "P02")];
    [Text (js "Polish"); Num 0] ].

(** Every entry of the processing table was read from a row. *)
Definition readFrom (rows : list (list cell)) (table : gmap jsstring jsstring) : Prop :=
  ∀ n id, table !! n = Some id →
    id ≠ []
    ∧ ∃ row name idCell, row ∈ rows ∧ name ∈ row ∧ idCell ∈ row
        ∧ cellTruthy name = true ∧ cellTruthy idCell = true
        ∧ cellString name = n ∧ cellString idCell = id.

(** The application after a first workbook, and a second workbook that
    has the material sheet only. *)
Definition loadedApp : App.State :=
  App.handleExcelUpload exampleSelected exampleWorkbook appStart.

Definition materialsOnly : list (jsstring * list (gmap jsstring cell)) :=
  take 1 exampleWorkbook.

(** *** The archive *)

(** In [script.js] every recorded name starts with the position of its
    image, counted from 1. *)
Definition positioned (st : Script.State) : Prop :=
  ∀ i file newName,
    Script.images st !! i = Some file →
    Script.renamedFiles st !! Script.name file = Some newName →
    leadingInteger newName = Some (N.of_nat i + 1).

(** The user changes the controls. *)
Definition userSets (d : Script.Inputs) (st : Script.State) : Script.State :=
  Script.withDom d st.

(** *** Rows a reader of materials can read *)

(** A row of the material sheet that [parseMaterialSheet] of [app.js]
    reads: its three cells are truthy. *)
Definition appRowRead (row : gmap jsstring cell) : bool :=
  cellTruthy (App.rowGet row App.colMaterialName)
  && cellTruthy (App.rowGet row App.colMaterialId)
  && cellTruthy (App.rowGet row App.colMaterialCategory).

(** No row that is read has a category that is the name of a member of
    [Object.prototype]. *)
Definition appRowOk (row : gmap jsstring cell) : Prop :=
  appRowRead row = true →
  cellString (App.rowGet row App.colMaterialCategory) ∉ prototypeKeys.

#[global] Instance appRowOk_dec (row : gmap jsstring cell) : Decision (appRowOk row).
Proof. unfold appRowOk. apply _. Defined.

Definition appSheetReadable (data : list (gmap jsstring cell)) : Prop :=
  Forall appRowOk data.

(** The same for the material sheet of a workbook, when it has one. *)
Definition workbookReadable (workbook : list (jsstring * list (gmap jsstring cell)))
  : Prop :=
  match App.findSheet workbook App.keywordMaterial with
  | Some data => appSheetReadable data
  | None => True
  end.

(** The category [parseMaterialMaster] of [script.js] files a row
    under. *)
Definition scriptRowCategory (colCat : option nat) (row : list cell) : jsstring :=
  cellString
    (orCell
       match colCat with
       | Some col => cellAt row col
       | None => Text Script.commonCategory
       end
       (Text Script.commonCategory)).

Definition scriptRowOk (colName colId : nat) (colCat : option nat) (row : list cell)
  : Prop :=
  cellTruthy (cellAt row colName) && cellTruthy (cellAt row colId) = true →
  scriptRowCategory colCat row ∉ prototypeKeys.

#[global] Instance scriptRowOk_dec (colName colId : nat) (colCat : option nat)
    (row : list cell) : Decision (scriptRowOk colName colId colCat row).
Proof. unfold scriptRowOk. apply _. Defined.

(** The columns [parseMaterialMaster] takes the name and the identifier
    from. *)
Definition masterColumns (rows : list (list cell)) : option (nat * nat) :=
  match
    match indexOf (headerOf rows) Script.colMaterialName with
    | Some col => Some col
    | None => indexOf (headerOf rows) Script.colMaterial
    end,
    indexOf (headerOf rows) Script.colMaterialId
  with
  | Some colName, Some colId => Some (colName, colId)
  | _, _ => None
  end.

(** No row below the header that has a name and an identifier has a
    category that is the name of a member of [Object.prototype]. *)
Definition masterReadable (rows : list (list cell)) : Prop :=
  match masterColumns rows with
  | Some (colName, colId) =>
      Forall (scriptRowOk colName colId
                (indexOf (headerOf rows) Script.colMaterialCategory))
        (drop 1 rows)
  | None => True
  end.

(** A workbook and a master with a category named like a member of
    [Object.prototype]. *)
Definition inheritedWorkbook : list (jsstring * list (gmap jsstring cell)) :=
  [ (App.keywordMaterial,
     [ {[ App.colMaterialName := Text (js "Aluminum");
          App.colMaterialId := Text (js "M01");
          App.colMaterialCategory := Text (js "constructor") ]};
       {[ App.colMaterialName := Text (js "Steel");
          App.colMaterialId := Text (js "M02");
          App.colMaterialCategory := Text (js "Metal") ]} ]);
    (App.keywordProcessing,
     [ {[ App.colProcessingName := Text (js "Anodize");
          App.colProcessingId := Num 2 ]} ]);
    (App.keywordImplementer,
     [ {[ App.colName := Text (js "Alice"); App.colId := Num 3 ]} ]) ].

Definition inheritedMaster : list (list cell) :=
  [ [Text Script.colMaterialName; Text Script.colMaterialId;
     Text Script.colMaterialCategory];
    [Text (js "Aluminum"); Text (js "M01"); Text (js "constructor")];
    [Text (js "Steel"); Text (js "M02"); Text (js "Metal")] ].

(** * Properties *)

(** ** Lists and strings *)

Section Spans.
Context {A : Type} (p : A → bool).

Lemma takeWhile_dropWhile (l : list A) :
  takeWhile p l ++ dropWhile p l = l.
Proof. induction l as [|x l IH]; simpl; [done|]. destruct (p x); simpl; congruence. Qed.

Lemma takeWhile_all (l : list A) : Forall (λ x, p x = true) (takeWhile p l).
Proof.
  induction l as [|x l IH]; simpl; [constructor|].
  destruct (p x) eqn:E; [by constructor | constructor].
Qed.

Lemma dropWhile_head (l : list A) x r : dropWhile p l = x :: r → p x = false.
Proof.
  induction l as [|y l IH]; simpl; [done|].
  destruct (p y) eqn:E; [done|]. intros [= -> _]. done.
Qed.

Lemma takeWhile_stop (ds : list A) c r :
  Forall (λ x, p x = true) ds → p c = false →
  takeWhile p (ds ++ c :: r) = ds.
Proof.
  induction 1 as [|x ds Hx _ IH]; simpl; intros Hc; [by rewrite Hc|].
  rewrite Hx. f_equal. by apply IH.
Qed.

Lemma dropWhile_stop (ds : list A) c r :
  Forall (λ x, p x = true) ds → p c = false →
  dropWhile p (ds ++ c :: r) = c :: r.
Proof.
  induction 1 as [|x ds Hx _ IH]; simpl; intros Hc; [by rewrite Hc|].
  rewrite Hx. by apply IH.
Qed.

Lemma dropWhile_idem (l : list A) : dropWhile p (dropWhile p l) = dropWhile p l.
Proof.
  induction l as [|x l IH]; simpl; [done|].
  destruct (p x) eqn:E; [done|]. simpl. by rewrite E.
Qed.

Lemma dropWhile_fixed (l : list A) :
  match l with [] => True | x :: _ => p x = false end → dropWhile p l = l.
Proof. destruct l as [|x l]; simpl; [done|]. by intros ->. Qed.
End Spans.

(** ** Decimal notation *)

Lemma decimalValue_digits_pos (d : Decimal.uint) (acc : positive) :
  fold_left (λ a c, 10 * a + (c - 48)) (digitsOfUint d) (N.pos acc)
  = N.pos (Pos.of_uint_acc d acc).
Proof.
  revert acc. induction d; intros acc; simpl; [done|..];
    (etransitivity; [|apply IHd]); f_equal; lia.
Qed.

Lemma decimalValue_digitsOfUint (d : Decimal.uint) :
  decimalValue (digitsOfUint d) = N.of_uint d.
Proof.
  unfold decimalValue, N.of_uint.
  induction d; simpl; [done| exact IHd |..];
    (etransitivity; [|apply decimalValue_digits_pos]); f_equal.
Qed.

Lemma decimalValue_toString (n : N) : decimalValue (toString n) = n.
Proof. unfold toString. rewrite decimalValue_digitsOfUint. apply DecimalN.Unsigned.of_to. Qed.

Lemma digitsOfUint_digits (d : Decimal.uint) :
  Forall (λ c, isDigit c = true) (digitsOfUint d).
Proof. induction d; simpl; constructor; done. Qed.

Lemma toString_digits (n : N) : Forall (λ c, isDigit c = true) (toString n).
Proof. apply digitsOfUint_digits. Qed.

Lemma toString_nonempty (n : N) : toString n ≠ [].
Proof.
  unfold toString. destruct n as [|p]; simpl; [done|].
  intros H. apply (f_equal decimalValue) in H. rewrite decimalValue_digitsOfUint in H.
  change (N.of_uint (Pos.to_uint p)) with (N.of_uint (N.to_uint (N.pos p))) in H.
  rewrite DecimalN.Unsigned.of_to in H. done.
Qed.


(** ** Rounding to a double *)

Lemma exactBelow_pow : exactBelow = 2 ^ 53.
Proof. reflexivity. Qed.

Lemma roundNat_small (n : N) : n < exactBelow → roundNat n = n.
Proof. intros H. unfold roundNat. by apply N.ltb_lt in H as ->. Qed.

(** The parts of a number from 2^53 on: its unit in the last place, the
    53 bits kept and the rest. *)
Lemma roundNat_big (n : N) :
  exactBelow ≤ n →
  ∃ e q r,
    e = N.log2 n - 52 ∧ 1 ≤ e ∧ n = q * 2 ^ e + r ∧ r < 2 ^ e
    ∧ 2 ^ 52 ≤ q ∧ q < 2 ^ 53
    ∧ roundNat n
      = (if (2 ^ e <? 2 * r) || ((2 * r =? 2 ^ e) && N.odd q) then q + 1 else q) * 2 ^ e.
Proof.
  intros Hn. rewrite exactBelow_pow in Hn.
  assert (0 < n) as Hpos by (pose proof (N.pow_nonzero 2 53); lia).
  assert (53 ≤ N.log2 n) as Hlog.
  { rewrite <- (N.log2_pow2 53) by lia. by apply N.log2_le_mono. }
  destruct (N.log2_spec n Hpos) as [Hlo Hhi].
  set (e := N.log2 n - 52).
  assert (N.log2 n = 52 + e) as Ha by lia.
  rewrite Ha in Hlo. rewrite Ha, <- N.add_succ_l in Hhi.
  rewrite N.pow_add_r in Hlo, Hhi.
  change (N.succ 52) with 53 in Hhi.
  assert (0 < 2 ^ e) as Hu by (apply N.neq_0_lt_0, N.pow_nonzero; lia).
  exists e, (n / 2 ^ e), (n mod 2 ^ e).
  split; [done|]. split; [lia|].
  split; [rewrite N.mul_comm; apply N.div_mod; lia|].
  split; [apply N.mod_lt; lia|].
  split; [apply N.div_le_lower_bound; lia|].
  split; [apply N.Div0.div_lt_upper_bound; lia|].
  unfold roundNat. rewrite exactBelow_pow.
  by apply N.ltb_ge in Hn as ->.
Qed.

Lemma roundNat_lower (n : N) : exactBelow ≤ n → exactBelow ≤ roundNat n.
Proof.
  intros Hn. destruct (roundNat_big n Hn) as (e & q & r & _ & He & _ & _ & Hq & _ & ->).
  rewrite exactBelow_pow.
  assert (2 ^ 1 ≤ 2 ^ e) as Hu by (apply N.pow_le_mono_r; lia).
  change (2 ^ 1) with 2 in Hu. change (2 ^ 53) with (2 ^ 52 * 2).
  destruct (_ || _); apply N.mul_le_mono; lia.
Qed.

Lemma roundNat_pos (n : N) : 0 < n → 0 < roundNat n.
Proof.
  intros Hn. destruct (N.lt_ge_cases n exactBelow) as [H|H].
  - by rewrite roundNat_small.
  - apply roundNat_lower in H. unfold exactBelow in H. lia.
Qed.

Lemma log2_parts (q e : N) : 2 ^ 52 ≤ q → q < 2 ^ 53 → N.log2 (q * 2 ^ e) = 52 + e.
Proof.
  intros Hlo Hhi.
  assert (0 < 2 ^ e) as Hu by (apply N.neq_0_lt_0, N.pow_nonzero; lia).
  apply N.log2_unique; [lia|split].
  - rewrite N.pow_add_r. by apply N.mul_le_mono_r.
  - rewrite <- N.add_succ_l, N.pow_add_r. change (N.succ 52) with 53.
    by apply N.mul_lt_mono_pos_r.
Qed.

(** A rounded number is a double: rounding it again changes nothing. *)
Lemma roundNat_idem (n : N) : roundNat (roundNat n) = roundNat n.
Proof.
  destruct (N.lt_ge_cases n exactBelow) as [H|H].
  - rewrite (roundNat_small n H). by apply roundNat_small.
  - destruct (roundNat_big n H) as (e & q & r & _ & He & _ & Hr & Hq & Hq' & ->).
    assert (0 < 2 ^ e) as Hu by (apply N.neq_0_lt_0, N.pow_nonzero; lia).
    assert (2 ^ 1 ≤ 2 ^ e) as Hu2 by (apply N.pow_le_mono_r; lia).
    change (2 ^ 1) with 2 in Hu2.
    set (q' := if _ || _ then q + 1 else q).
    assert (q ≤ q' ∧ q' ≤ q + 1) as [Hq1 Hq2] by (subst q'; destruct (_ || _); lia).
    destruct (N.lt_ge_cases q' (2 ^ 53)) as [Hlt|Hge].
    + (* the kept bits stay within 53 bits *)
      assert (exactBelow ≤ q' * 2 ^ e) as Hbig.
      { rewrite exactBelow_pow. change (2 ^ 53) with (2 ^ 52 * 2).
        apply N.mul_le_mono; lia. }
      destruct (roundNat_big _ Hbig) as (e1 & q1 & r1 & He1 & _ & Hsplit & Hr1 & _ & _ & ->).
      rewrite log2_parts in He1 by lia.
      assert (e1 = e) as -> by lia.
      assert (q' = q1 ∧ 0 = r1) as [<- <-].
      { apply (N.div_mod_unique (2 ^ e)); [lia|lia|]. lia. }
      assert ((2 ^ e <? 2 * 0) || ((2 * 0 =? 2 ^ e) && N.odd q') = false) as ->; [|done].
      apply orb_false_iff. split; [apply N.ltb_ge; lia|].
      apply andb_false_iff. left. apply N.eqb_neq. lia.
    + (* the kept bits reach 2^53: the next power of two *)
      assert (q' = 2 ^ 53) as -> by lia.
      assert (2 ^ 53 * 2 ^ e = 2 ^ 52 * 2 ^ (e + 1)) as Hshift.
      { rewrite N.pow_add_r. change (2 ^ 53) with (2 ^ 52 * 2 ^ 1). lia. }
      rewrite Hshift.
      assert (exactBelow ≤ 2 ^ 52 * 2 ^ (e + 1)) as Hbig.
      { rewrite <- Hshift, exactBelow_pow. rewrite <- (N.mul_1_r (2 ^ 53)) at 1.
        apply N.mul_le_mono_l. lia. }
      destruct (roundNat_big _ Hbig) as (e1 & q1 & r1 & He1 & _ & Hsplit & Hr1 & _ & _ & ->).
      rewrite log2_parts in He1 by (change (2 ^ 53) with (2 ^ 52 * 2); lia).
      assert (e1 = e + 1) as -> by lia.
      assert (0 < 2 ^ (e + 1)) as Hu' by (apply N.neq_0_lt_0, N.pow_nonzero; lia).
      assert (2 ^ 52 = q1 ∧ 0 = r1) as [<- <-].
      { apply (N.div_mod_unique (2 ^ (e + 1))); [lia|lia|]. lia. }
      assert ((2 ^ (e + 1) <? 2 * 0) || ((2 * 0 =? 2 ^ (e + 1)) && N.odd (2 ^ 52)) = false)
        as ->; [|done].
      apply orb_false_iff. split; [apply N.ltb_ge; lia|].
      apply andb_false_iff. left. apply N.eqb_neq. lia.
Qed.

(** Rounding keeps the order. *)
Lemma roundNat_mono (n m : N) : n ≤ m → roundNat n ≤ roundNat m.
Proof.
  intros Hnm.
  destruct (N.lt_ge_cases n exactBelow) as [Hn|Hn].
  { rewrite (roundNat_small n Hn).
    destruct (N.lt_ge_cases m exactBelow) as [Hm|Hm].
    - by rewrite roundNat_small.
    - apply roundNat_lower in Hm. lia. }
  assert (exactBelow ≤ m) as Hm by lia.
  destruct (roundNat_big n Hn) as (e & q & r & He & He1 & Hsplit & Hr & Hq & Hq' & ->).
  destruct (roundNat_big m Hm) as (e' & p & s & He' & _ & Hsplit' & Hs & Hp & Hp' & ->).
  assert (e ≤ e') as Hee.
  { subst e e'. pose proof (N.log2_le_mono n m Hnm). lia. }
  assert (0 < 2 ^ e) as Hu by (apply N.neq_0_lt_0, N.pow_nonzero; lia).
  set (c := (2 ^ e <? 2 * r) || ((2 * r =? 2 ^ e) && N.odd q)).
  set (c' := (2 ^ e' <? 2 * s) || ((2 * s =? 2 ^ e') && N.odd p)).
  destruct (decide (e = e')) as [<-|Hne].
  - apply N.mul_le_mono_r.
    destruct (N.lt_trichotomy q p) as [Hlt|[Heq|Hgt]].
    + destruct c, c'; lia.
    + subst p. assert (r ≤ s) as Hrs by lia.
      assert (c = true → c' = true) as Hc.
      { subst c c'. intros [H|[H1 H2]%andb_true_iff]%orb_true_iff.
        - apply N.ltb_lt in H. apply orb_true_iff. left. apply N.ltb_lt. lia.
        - apply N.eqb_eq in H1. destruct (decide (r = s)) as [<-|Hr'].
          + apply orb_true_iff. right. rewrite H2, andb_true_r. by apply N.eqb_eq.
          + apply orb_true_iff. left. apply N.ltb_lt. lia. }
      destruct c; [by rewrite Hc|]. destruct c'; lia.
    + exfalso. assert ((p + 1) * 2 ^ e ≤ q * 2 ^ e) as H by (apply N.mul_le_mono_r; lia).
      lia.
  - assert (e + 1 ≤ e') as Hlt by lia.
    assert (2 ^ (e + 1) ≤ 2 ^ e') as Hpow by (apply N.pow_le_mono_r; lia).
    rewrite N.pow_add_r in Hpow. change (2 ^ 1) with 2 in Hpow.
    transitivity (2 ^ 53 * 2 ^ e).
    { apply N.mul_le_mono_r. destruct c; lia. }
    transitivity (2 ^ 52 * 2 ^ e').
    { change (2 ^ 53) with (2 ^ 52 * 2). rewrite <- N.mul_assoc.
      apply N.mul_le_mono_l. lia. }
    apply N.mul_le_mono; [destruct c'; lia|lia].
Qed.

Lemma toDouble_small (n : N) : n ≤ exactBelow → toDouble n = Finite n.
Proof.
  intros Hn. unfold toDouble.
  assert (roundNat n = n) as ->.
  { destruct (N.lt_ge_cases n exactBelow) as [H|H]; [by apply roundNat_small|].
    assert (n = exactBelow) as -> by lia. reflexivity. }
  assert ((n <? 2 ^ 1024) = true) as ->; [|done].
  apply N.ltb_lt. eapply N.le_lt_trans; [exact Hn|]. by apply N.ltb_lt.
Qed.

Lemma toDouble_isDouble (n : N) : isDouble (toDouble n).
Proof.
  unfold toDouble. destruct (N.ltb_spec (roundNat n) (2 ^ 1024)); [|done].
  split; [apply roundNat_idem|done].
Qed.

Lemma toDouble_fixed (n : N) : isDouble (Finite n) → toDouble n = Finite n.
Proof.
  intros [Hr Hlt]. unfold toDouble. rewrite Hr. by apply N.ltb_lt in Hlt as ->.
Qed.

(** ** The numeral that [String] prints *)

Lemma shortestAt_valid (x : N) (n k : nat) (v : N) :
  shortestAt x n k = Some v → roundNat v = x.
Proof.
  unfold shortestAt. cbv zeta.
  set (below := _ * _). set (above := below + _).
  destruct (N.eqb_spec (roundNat below) x) as [Hb|Hb],
           (N.eqb_spec (roundNat above) x) as [Ha|Ha]; cbn [andb].
  - repeat case_match; by intros [= <-].
  - by intros [= <-].
  - by intros [= <-].
  - done.
Qed.

Lemma firstShortest_valid (x : N) (n : nat) (ks : list nat) :
  roundNat (firstShortest x n ks) = x ∨ firstShortest x n ks = x.
Proof.
  induction ks as [|k ks IH]; simpl; [by right|].
  destruct (shortestAt x n k) as [v|] eqn:E; [|done].
  left. by apply shortestAt_valid in E.
Qed.

(** The numeral printed for a double reads back as that double. *)
Lemma shortest_double (x : N) : roundNat x = x → roundNat (shortest x) = x.
Proof.
  intros Hx. unfold shortest.
  by destruct (firstShortest_valid x (length (toString x)) (seq 1 (length (toString x))))
    as [H| ->].
Qed.

(** Below 2^53 it is the number itself. *)
Lemma shortest_small (x : N) : x < exactBelow → shortest x = x.
Proof.
  intros Hx. pose proof (shortest_double x (roundNat_small x Hx)) as H.
  destruct (N.lt_ge_cases (shortest x) exactBelow) as [Hlt|Hge].
  - by rewrite roundNat_small in H.
  - apply roundNat_lower in Hge. lia.
Qed.

Lemma numberToString_small (n : N) :
  n < exactBelow → numberToString (Finite n) = toString n.
Proof.
  intros Hn. unfold numberToString. rewrite shortest_small by done.
  assert ((n <? 1000000000000000000000) = true) as ->; [|done].
  apply N.ltb_lt. unfold exactBelow in Hn. lia.
Qed.

Lemma numberToString_nonempty (x : double) : numberToString x ≠ [].
Proof.
  destruct x as [n|]; [|done]. unfold numberToString. cbv zeta.
  destruct (_ <? _); [apply toString_nonempty|].
  pose proof (toString_nonempty (shortest n)) as Hne.
  by destruct (toString (shortest n)).
Qed.

Lemma decimalValue_toDouble (n : N) : parseInt (toString n) = toDouble n.
Proof. unfold parseInt. by rewrite decimalValue_toString. Qed.

(** ** The numbering rule of [app.js] *)

Lemma split_spans (sep : N) (s : jsstring) :
  split sep s =
  takeWhile (λ c, negb (c =? sep)) s ::
  match dropWhile (λ c, negb (c =? sep)) s with
  | [] => []
  | _ :: r => split sep r
  end.
Proof.
  induction s as [|c s IH]; simpl; [done|].
  destruct (c =? sep) eqn:E; simpl; [done|].
  rewrite IH. done.
Qed.

Lemma split_nonempty (sep : N) (s : jsstring) : split sep s ≠ [].
Proof. rewrite split_spans. done. Qed.

Lemma isDigit_not_underscore c : isDigit c = true → negb (c =? 95) = true.
Proof. unfold isDigit. intros H. destruct (N.eqb_spec c 95) as [->|]; [done|done]. Qed.

Lemma forallb_Forall_true {A} (p : A → bool) (l : list A) :
  forallb p l = true ↔ Forall (λ x, p x = true) l.
Proof.
  induction l as [|x l IH]; simpl; [by split; [constructor|]|].
  rewrite andb_true_iff, IH. split.
  - intros [? ?]. by constructor.
  - by inversion 1.
Qed.

(** The regular expression of the source captures what the specification
    calls the leading integer. *)
Lemma matchNumber_leadingInteger (s : jsstring) :
  decimalValue <$> App.matchNumber s = leadingInteger s.
Proof.
  unfold App.matchNumber, leadingInteger. rewrite split_spans.
  pose proof (takeWhile_dropWhile isDigit s) as Hs.
  pose proof (takeWhile_all isDigit s) as Hd.
  destruct (takeWhile isDigit s) as [|d ds] eqn:Et.
  - (* no leading digit *)
    simpl in Hs.
    destruct s as [|c s']; simpl; [done|].
    simpl in Et. destruct (isDigit c) eqn:Ec; [done|].
    destruct (c =? 95) eqn:E95; simpl.
    + by destruct (split 95 s').
    + destruct (dropWhile _ s') as [|? r]; [done|].
      simpl. rewrite Ec. simpl. by destruct (split 95 r).
  - destruct (dropWhile isDigit s) as [|c r] eqn:Er.
    + (* digits only: no underscore at all *)
      rewrite app_nil_r in Hs. subst s.
      assert (Hall : Forall (λ c, negb (c =? 95) = true) (d :: ds)).
      { eapply Forall_impl; [exact Hd|]. intros ?. apply isDigit_not_underscore. }
      assert (Hdrop : dropWhile (λ c, negb (c =? 95)) (d :: ds) = []).
      { clear -Hall. induction Hall as [|x l Hx _ IH]; simpl; [done|]. by rewrite Hx. }
      rewrite Hdrop. done.
    + pose proof (dropWhile_head _ _ _ _ Er) as Hc.
      assert (Hall : Forall (λ c, negb (c =? 95) = true) (d :: ds)).
      { eapply Forall_impl; [exact Hd|]. intros ?. apply isDigit_not_underscore. }
      subst s.
      destruct (c =? 95) eqn:E95.
      * rewrite takeWhile_stop, dropWhile_stop by (done || by rewrite E95).
        rewrite split_spans.
        assert (forallb isDigit (d :: ds) = true) as -> by by apply forallb_Forall_true.
        done.
      * (* the digits are followed by something else before any underscore *)
        assert (Hpre : ∀ l, Forall (λ c, negb (c =? 95) = true) l →
          ∃ t, takeWhile (λ c, negb (c =? 95)) (l ++ c :: r) = l ++ c :: t).
        { clear -E95. induction 1 as [|x l Hx _ [t IH]]; simpl.
          - rewrite E95. simpl. eauto.
          - rewrite Hx, IH. eauto. }
        destruct (Hpre _ Hall) as [t Ht]. rewrite Ht.
        assert (forallb isDigit ((d :: ds) ++ c :: t) = false) as Hf.
        { rewrite forallb_app. simpl. rewrite Hc. by rewrite andb_false_r. }
        rewrite Hf, andb_false_r. by destruct (match dropWhile _ _ with [] => [] | _ :: r0 => split 95 r0 end).
Qed.

Lemma ledgerNumbers_snoc (m : list (jsstring * App.Entry)) kv :
  ledgerNumbers (m ++ [kv]) =
  ledgerNumbers m ++ option_list (leadingInteger (App.newName kv.2)).
Proof.
  unfold ledgerNumbers. rewrite omap_app. simpl.
  by destruct (leadingInteger _).
Qed.

Lemma ledgerDoubles_snoc (m : list (jsstring * App.Entry)) kv :
  ledgerDoubles (m ++ [kv]) =
  ledgerDoubles m ++ option_list (parseInt <$> App.matchNumber (App.newName kv.2)).
Proof.
  unfold ledgerDoubles. rewrite omap_app. simpl.
  by destruct (App.matchNumber _).
Qed.

(** What [getNextNumber] reads are the leading integers, each converted
    to the nearest double. *)
Lemma ledgerDoubles_numbers (m : list (jsstring * App.Entry)) :
  ledgerDoubles m = toDouble <$> ledgerNumbers m.
Proof.
  induction m as [|kv m IH] using rev_ind; [done|].
  rewrite ledgerDoubles_snoc, ledgerNumbers_snoc, fmap_app, IH. f_equal.
  rewrite <- matchNumber_leadingInteger.
  by destruct (App.matchNumber _).
Qed.

Lemma numberCountsOf_snoc (m : list (jsstring * App.Entry)) kv :
  App.numberCountsOf (m ++ [kv]) = App.countNumber (App.numberCountsOf m) kv.2.
Proof. unfold App.numberCountsOf. by rewrite fold_left_app. Qed.

(** The object [numberCounts] holds, for each number read, the number of
    entries that carry it, and nothing else. *)
Lemma numberCounts_lookup (m : list (jsstring * App.Entry)) (x : double) :
  App.numberCountsOf m !! x =
  match occurrencesOf x (ledgerDoubles m) with
  | O => None
  | S c => Some (S c)
  end.
Proof.
  unfold occurrencesOf.
  induction m as [|kv m IH] using rev_ind; [done|].
  rewrite numberCountsOf_snoc, ledgerDoubles_snoc, count_occ_app.
  unfold App.countNumber.
  destruct (App.matchNumber (App.newName kv.2)) as [ds|]; simpl.
  - destruct (double_eq_dec (parseInt ds) x) as [->|Hne].
    + rewrite lookup_insert_eq, IH.
      destruct (count_occ _ _ _); simpl; f_equal; lia.
    + rewrite lookup_insert_ne by done. rewrite IH.
      by rewrite Nat.add_0_r.
  - by rewrite Nat.add_0_r.
Qed.

Lemma occurrences_pos (n : N) (nums : list N) :
  n ∈ nums ↔ (0 < occurrences n nums)%nat.
Proof.
  unfold occurrences. rewrite list_elem_of_In.
  rewrite (count_occ_In N.eq_dec). unfold gt. done.
Qed.

Lemma occurrencesOf_pos (x : double) (xs : list double) :
  x ∈ xs ↔ (0 < occurrencesOf x xs)%nat.
Proof.
  unfold occurrencesOf. rewrite list_elem_of_In.
  rewrite (count_occ_In double_eq_dec). unfold gt. done.
Qed.

Lemma numberCounts_keys (m : list (jsstring * App.Entry)) (x : double) :
  x ∈ (map_to_list (App.numberCountsOf m)).*1 ↔ x ∈ ledgerDoubles m.
Proof.
  rewrite (occurrencesOf_pos x (ledgerDoubles m)), list_elem_of_fmap. split.
  - intros [[k c] [-> H]]. apply elem_of_map_to_list in H.
    rewrite numberCounts_lookup in H. simpl in *.
    destruct (occurrencesOf k _); [done|lia].
  - intros H. exists (x, occurrencesOf x (ledgerDoubles m)). split; [done|].
    apply elem_of_map_to_list. rewrite numberCounts_lookup.
    destruct (occurrencesOf x _); [lia|done].
Qed.

(** *** The order of the doubles *)

Lemma doubleLe_refl (x : double) : doubleLe x x.
Proof. destruct x; simpl; [lia|done]. Qed.

Lemma doubleLe_trans (x y z : double) : doubleLe x y → doubleLe y z → doubleLe x z.
Proof. destruct x, y, z; simpl; try done; lia. Qed.

Lemma doubleLe_antisym (x y : double) : doubleLe x y → doubleLe y x → x = y.
Proof. destruct x, y; simpl; try done. intros. f_equal. lia. Qed.

Lemma maxDouble_l (x y : double) : doubleLe x (maxDouble x y).
Proof. destruct x, y; simpl; try done; lia. Qed.

Lemma maxDouble_r (x y : double) : doubleLe y (maxDouble x y).
Proof. destruct x, y; simpl; try done; lia. Qed.

Lemma maxDouble_cases (x y : double) : maxDouble x y = x ∨ maxDouble x y = y.
Proof.
  destruct x as [a|], y as [b|]; simpl; auto.
  destruct (N.max_spec a b) as [[_ ->]|[_ ->]]; auto.
Qed.

Lemma toDouble_mono (n m : N) : n ≤ m → doubleLe (toDouble n) (toDouble m).
Proof.
  intros H. apply roundNat_mono in H. unfold toDouble.
  destruct (N.ltb_spec (roundNat m) (2 ^ 1024)) as [Hm|Hm]; [|by destruct (_ <? _)].
  assert ((roundNat n <? 2 ^ 1024) = true) as -> by (apply N.ltb_lt; lia). done.
Qed.

Lemma plusOne_ge (x : double) : isDouble x → doubleLe x (plusOne x).
Proof.
  destruct x as [n|]; [|done]. intros Hx.
  change (doubleLe (Finite n) (toDouble (n + 1))).
  rewrite <- (toDouble_fixed n Hx) at 1. apply toDouble_mono. lia.
Qed.

Lemma mathMax_upper (keys : list double) x : x ∈ keys → doubleLe x (App.mathMax keys).
Proof.
  induction 1 as [x l|x y l _ IH]; simpl; [apply maxDouble_l|].
  eapply doubleLe_trans; [exact IH|]. apply maxDouble_r.
Qed.

Lemma mathMax_elem (keys : list double) : keys ≠ [] → App.mathMax keys ∈ keys.
Proof.
  induction keys as [|x l IH]; [done|]. intros _. simpl.
  destruct l as [|y l'].
  - simpl. destruct x; simpl; [|left]. rewrite N.max_0_r. left.
  - destruct (maxDouble_cases x (App.mathMax (y :: l'))) as [->| ->].
    + left.
    + right. by apply IH.
Qed.

Lemma mathMax_unique (keys : list double) (M : double) :
  M ∈ keys → (∀ x, x ∈ keys → doubleLe x M) → App.mathMax keys = M.
Proof.
  intros HM Hub. apply doubleLe_antisym.
  - apply Hub, mathMax_elem. by intros ->; inversion HM.
  - by apply mathMax_upper.
Qed.

Lemma greatest_upper (nums : list N) n : n ∈ nums → n ≤ greatest nums.
Proof.
  induction 1 as [x l|x y l _ IH]; simpl; [lia|].
  etransitivity; [exact IH|]. lia.
Qed.

Lemma greatest_elem (nums : list N) : nums ≠ [] → greatest nums ∈ nums.
Proof.
  induction nums as [|x l IH]; [done|]. intros _. simpl.
  destruct l as [|y l'].
  - simpl. rewrite N.max_0_r. left.
  - destruct (N.max_spec x (greatest (y :: l'))) as [[_ ->]|[_ ->]].
    + right. by apply IH.
    + left.
Qed.

Lemma greatest_unique (nums : list N) (M : N) :
  M ∈ nums → (∀ n, n ∈ nums → n ≤ M) → greatest nums = M.
Proof.
  intros HM Hub. apply N.le_antisymm.
  - apply Hub, greatest_elem. by intros ->; inversion HM.
  - by apply greatest_upper.
Qed.

Lemma greatest_bounds (nums : list N) :
  nums ≠ [] → greatest nums ∈ nums ∧ Forall (λ n, n ≤ greatest nums) nums.
Proof.
  intros Hne. split; [by apply greatest_elem|].
  apply Forall_forall. intros n Hn. by apply greatest_upper.
Qed.

(** [getNextNumber] by cases on the numbers read. *)
Lemma getNextNumber_empty (st : App.State) :
  ledgerNumbers (App.processedFiles st) = [] → App.getNextNumber st = Finite 1.
Proof.
  intros Hnil. unfold App.getNextNumber.
  destruct ((map_to_list _).*1) as [|k ks] eqn:Ek; [done|].
  assert (k ∈ ledgerDoubles (App.processedFiles st)) as Hk.
  { apply numberCounts_keys. rewrite Ek. left. }
  rewrite ledgerDoubles_numbers, Hnil in Hk. by inversion Hk.
Qed.

Lemma getNextNumber_of_max (st : App.State) (M : double) :
  let read := ledgerDoubles (App.processedFiles st) in
  M ∈ read → (∀ x, x ∈ read → doubleLe x M) →
  App.getNextNumber st = if (occurrencesOf M read <? 2)%nat then M else plusOne M.
Proof.
  intros read HM Hub. unfold App.getNextNumber.
  set (keys := (map_to_list _).*1).
  assert (M ∈ keys) as HMk by by apply numberCounts_keys.
  assert (App.mathMax keys = M) as ->.
  { apply mathMax_unique; [done|]. intros x Hx. apply Hub. by apply numberCounts_keys. }
  destruct keys as [|k ks]; [by inversion HMk|]. simpl.
  rewrite numberCounts_lookup. fold read.
  apply occurrencesOf_pos in HM.
  destruct (occurrencesOf M read) as [|c]; [lia|done].
Qed.

(** The greatest number read is the double of the greatest leading
    integer. *)
Lemma greatest_read (nums : list N) :
  nums ≠ [] →
  toDouble (greatest nums) ∈ toDouble <$> nums
  ∧ ∀ x, x ∈ toDouble <$> nums → doubleLe x (toDouble (greatest nums)).
Proof.
  intros Hne. split.
  - apply list_elem_of_fmap. exists (greatest nums). split; [done|]. by apply greatest_elem.
  - intros x (n & -> & Hn)%list_elem_of_fmap. by apply toDouble_mono, greatest_upper.
Qed.

Lemma getNextNumber_greatest (st : App.State) :
  let nums := ledgerNumbers (App.processedFiles st) in
  nums ≠ [] →
  App.getNextNumber st =
    if (occurrencesOf (toDouble (greatest nums)) (toDouble <$> nums) <? 2)%nat
    then toDouble (greatest nums) else plusOne (toDouble (greatest nums)).
Proof.
  intros nums Hne. destruct (greatest_read nums Hne) as [HM Hub].
  rewrite (getNextNumber_of_max st (toDouble (greatest nums)));
    rewrite ledgerDoubles_numbers; done.
Qed.

(** [getNextNumber] reads the ledger only through its assigned prefixes. *)
Lemma getNextNumber_ext (st st' : App.State) :
  ledgerNumbers (App.processedFiles st) = ledgerNumbers (App.processedFiles st') →
  App.getNextNumber st = App.getNextNumber st'.
Proof.
  intros Heq.
  destruct (ledgerNumbers (App.processedFiles st)) as [|x l] eqn:E.
  - rewrite !getNextNumber_empty; done.
  - rewrite (getNextNumber_greatest st) by (by rewrite E).
    rewrite (getNextNumber_greatest st') by (by rewrite <- Heq).
    by rewrite E, <- Heq.
Qed.

Lemma getNextNumber_isDouble (st : App.State) : isDouble (App.getNextNumber st).
Proof.
  destruct (ledgerNumbers (App.processedFiles st)) as [|x l] eqn:E.
  - rewrite getNextNumber_empty by done. by split.
  - rewrite getNextNumber_greatest by (by rewrite E).
    destruct (_ <? _)%nat; [apply toDouble_isDouble|].
    destruct (toDouble _) as [n|]; [apply toDouble_isDouble|done].
Qed.

(** Below 2^53 the numbers read are the leading integers themselves. *)
Lemma occurrencesOf_safe (M : N) (nums : list N) :
  Forall safeNumber nums → safeNumber M →
  occurrencesOf (Finite M) (toDouble <$> nums) = occurrences M nums.
Proof.
  intros Hsafe HM. unfold occurrencesOf, occurrences.
  induction Hsafe as [|a rest Ha _ IH]; [done|].
  cbn [fmap list_fmap count_occ]. rewrite IH.
  unfold safeNumber in Ha.
  assert (toDouble a = Finite a) as -> by (apply toDouble_small; lia).
  destruct (N.eq_dec a M) as [->|Hne'];
    destruct (double_eq_dec _ (Finite M)) as [E|Hne]; try done.
  by injection E.
Qed.

Lemma getNextNumber_max (st : App.State) (M : N) :
  let nums := ledgerNumbers (App.processedFiles st) in
  M ∈ nums → (∀ n, n ∈ nums → n ≤ M) → safeNumber M →
  App.getNextNumber st = Finite (if (occurrences M nums <? 2)%nat then M else M + 1).
Proof.
  intros nums HM Hub Hsafe.
  assert (nums ≠ []) as Hne by (intros E; rewrite E in HM; inversion HM).
  assert (greatest nums = M) as HG by by apply greatest_unique.
  assert (Forall safeNumber nums) as Hall.
  { apply Forall_forall. intros n Hn. apply Hub in Hn. unfold safeNumber in *. lia. }
  rewrite (getNextNumber_greatest st Hne). fold nums. rewrite HG.
  unfold safeNumber in Hsafe.
  rewrite (toDouble_small M) by lia.
  rewrite occurrencesOf_safe by done.
  destruct (_ <? _)%nat; [done|]. simpl. apply toDouble_small. lia.
Qed.

Lemma mapSet_fresh {V} (k : jsstring) (v : V) (m : list (jsstring * V)) :
  App.mapGet k m = None → App.mapSet k v m = m ++ [(k, v)].
Proof.
  induction m as [|[k' v'] m IH]; simpl; [done|].
  destruct (decide (k' = k)); [done|]. intros H. by rewrite IH.
Qed.

Lemma mapGet_mapSet_eq {V} (k : jsstring) (v : V) (m : list (jsstring * V)) :
  App.mapGet k (App.mapSet k v m) = Some v.
Proof.
  induction m as [|[k' v'] m IH]; simpl.
  - by rewrite decide_True.
  - destruct (decide (k' = k)) as [->|Hne]; simpl.
    + by rewrite decide_True.
    + by rewrite decide_False.
Qed.

Lemma mapGet_mapSet_ne {V} (k k0 : jsstring) (v : V) (m : list (jsstring * V)) :
  k0 ≠ k → App.mapGet k0 (App.mapSet k v m) = App.mapGet k0 m.
Proof.
  intros Hne. induction m as [|[k' v'] m IH]; simpl.
  - by rewrite decide_False.
  - destruct (decide (k' = k)) as [->|Hk]; simpl.
    + by rewrite !decide_False.
    + by rewrite IH.
Qed.

(** At 2^53 + 1, used once, [getNextNumber] returns 2^53: the digits are
    read as the nearest double. *)
Lemma getNextNumber_pair_rule_counterexample :
  ¬ (∀ M, M ∈ ledgerNumbers wideLedger →
       Forall (λ n, n ≤ M) (ledgerNumbers wideLedger) →
       (occurrences M (ledgerNumbers wideLedger) < 2)%nat →
       App.getNextNumber (ledgerState wideLedger) = Finite M).
Proof.
  intros H. specialize (H 9007199254740993).
  assert (App.getNextNumber (ledgerState wideLedger) = Finite 9007199254740992) as E
    by (vm_compute; reflexivity).
  rewrite E in H. discriminate H.
  - apply (bool_decide_unpack _). vm_compute. reflexivity.
  - apply (bool_decide_unpack _). vm_compute. reflexivity.
  - vm_compute. lia.
Qed.

(** C1, as the code has it.  [getNextNumber] returns 1 when no entry of
    the ledger has a numeric prefix; otherwise, with [M] the greatest
    leading integer among the assigned names and [M] below 2^53, it
    returns [M] when [M] occurs fewer than two times and [M + 1] when it
    occurs two times or more.  An entry whose name has no leading integer
    is not counted: recording one under a new key leaves the result as it
    was.  (From 2^53 on the digits are read as the nearest double.) *)
Theorem getNextNumber_pair_rule (st : App.State) :
  let nums := ledgerNumbers (App.processedFiles st) in
  (nums = [] → App.getNextNumber st = Finite 1) ∧
  (∀ M, M ∈ nums → Forall (λ n, n ≤ M) nums → safeNumber M →
     ((occurrences M nums < 2)%nat → App.getNextNumber st = Finite M) ∧
     ((2 ≤ occurrences M nums)%nat → App.getNextNumber st = Finite (M + 1))) ∧
  (∀ k data,
     App.mapGet k (App.processedFiles st) = None →
     leadingInteger (App.newName data) = None →
     App.getNextNumber
       (App.withProcessed (App.mapSet k data (App.processedFiles st))
          (App.processedList st) st)
     = App.getNextNumber st).
Proof.
  intros nums. split; [apply getNextNumber_empty|]. split.
  - intros M HM Hub Hsafe. rewrite Forall_forall in Hub.
    rewrite (getNextNumber_max st M HM Hub Hsafe). fold nums.
    split; intros Hocc.
    + by apply Nat.ltb_lt in Hocc as ->.
    + apply Nat.ltb_ge in Hocc as ->. done.
  - intros k data Hfresh Hnone. apply getNextNumber_ext. simpl.
    rewrite mapSet_fresh by done. rewrite ledgerNumbers_snoc. simpl.
    rewrite Hnone. simpl. by rewrite app_nil_r.
Qed.

Lemma getNextNumber_pair_rule_witness :
  App.getNextNumber (ledgerState gapLedger) = Finite (5 + 1)
  ∧ App.getNextNumber
      (ledgerState (App.mapSet (js "f.jpg") (exampleEntry "no number") gapLedger))
    = App.getNextNumber (ledgerState gapLedger).
Proof.
  destruct (getNextNumber_pair_rule (ledgerState gapLedger)) as (_ & Hmax & Hskip).
  split.
  - apply (Hmax 5).
    + apply (bool_decide_unpack _). vm_compute. reflexivity.
    + apply (bool_decide_unpack _). vm_compute. reflexivity.
    + vm_compute. reflexivity.
    + vm_compute. lia.
  - apply (Hskip (js "f.jpg") (exampleEntry "no number")); vm_compute; reflexivity.
Defined.

(** ** Forward confirmation in [app.js] *)

Lemma matchNumber_prefix (ds rest : jsstring) :
  Forall (λ c, isDigit c = true) ds → ds ≠ [] →
  App.matchNumber (ds ++ 95 :: rest) = Some ds.
Proof.
  intros Hd Hne. unfold App.matchNumber.
  rewrite takeWhile_stop, dropWhile_stop by done.
  destruct ds; [done|]. done.
Qed.

Lemma leadingInteger_toString (n : N) (rest : jsstring) :
  leadingInteger (toString n ++ js "_" ++ rest) = Some n.
Proof.
  rewrite <- matchNumber_leadingInteger.
  change (js "_" ++ rest) with (95 :: rest).
  rewrite matchNumber_prefix by (apply toString_digits || apply toString_nonempty).
  simpl. by rewrite decimalValue_toString.
Qed.

(** A digit followed by a dot or by the letter of the exponent is no
    number before an underscore. *)
Lemma matchNumber_broken (d c : N) (rest : jsstring) :
  isDigit c = false → c ≠ 95 → App.matchNumber (d :: c :: rest) = None.
Proof.
  intros Hc Hne. unfold App.matchNumber. cbn [takeWhile dropWhile].
  destruct (isDigit d); [|done]. rewrite Hc.
  by apply N.eqb_neq in Hne as ->.
Qed.

(** When the name composed from a proposed number has a leading number
    for [getNextNumber], it is the proposed number. *)
Lemma matchNumber_numberToString (x : double) (rest ds : jsstring) :
  isDouble x →
  App.matchNumber (numberToString x ++ 95 :: rest) = Some ds → parseInt ds = x.
Proof.
  destruct x as [n|]; [|done]. intros [Hn Hlt]. unfold numberToString. cbv zeta.
  destruct (shortest n <? 1000000000000000000000).
  - rewrite matchNumber_prefix by (apply toString_digits || apply toString_nonempty).
    intros [= <-]. rewrite decimalValue_toDouble. unfold toDouble.
    rewrite shortest_double by done. by apply N.ltb_lt in Hlt as ->.
  - pose proof (toString_nonempty (shortest n)) as Hne.
    destruct (toString (shortest n)) as [|d more]; [done|].
    change (js "e+") with [101; 43].
    destruct (truthy (stripZeros more)); cbn [app];
      by rewrite matchNumber_broken.
Qed.

Lemma validateForm_form (st st' : App.State) :
  App.form st = App.form st' → App.validateForm st = App.validateForm st'.
Proof. unfold App.validateForm. by intros ->. Qed.

Lemma generateFilename_valid (st : App.State) :
  App.validateForm st = true →
  App.generateFilename st = joinUnderscore (App.filenameFields st).
Proof.
  unfold App.validateForm, App.generateFilename.
  rewrite !andb_true_iff. intros [[[[-> ->] ->] ->] ->]. done.
Qed.

Lemma numberField_proposed (st : App.State) :
  numberProposed st →
  (if truthy (App.numberInput (App.form st)) then App.numberInput (App.form st)
   else numberToString (App.getNextNumber st))
  = numberToString (App.getNextNumber st).
Proof.
  intros [->| ->]; [done|].
  pose proof (numberToString_nonempty (App.getNextNumber st)) as Hne.
  by destruct (numberToString _).
Qed.

(** With the proposed number in the number field, the name generated for a
    valid form starts with the proposed number as [String] prints it. *)
Lemma generateFilename_proposed (st : App.State) :
  App.validateForm st = true → numberProposed st →
  ∃ rest,
    App.generateFilename st = numberToString (App.getNextNumber st) ++ 95 :: rest.
Proof.
  intros Hv Hn. rewrite generateFilename_valid by done.
  unfold App.filenameFields. rewrite numberField_proposed by done.
  cbn [joinUnderscore]. eauto.
Qed.

(** Below 2^53 that is the number that [getNextNumber] returns. *)
Lemma generateFilename_number (st : App.State) (r : N) :
  App.validateForm st = true → numberProposed st →
  App.getNextNumber st = Finite r → safeNumber r →
  leadingInteger (App.generateFilename st) = Some r.
Proof.
  intros Hv Hn Hr Hsafe.
  destruct (generateFilename_proposed st Hv Hn) as [rest ->].
  rewrite Hr, numberToString_small by done.
  apply (leadingInteger_toString r rest).
Qed.

Lemma slotOpen_nonempty (nums : list N) :
  nums ≠ [] → slotOpen nums = (occurrences (greatest nums) nums <? 2)%nat.
Proof. by destruct nums. Qed.

(** [getNextNumber] as a function of the numbers read. *)
Lemma getNextNumber_read (st : App.State) :
  App.getNextNumber st =
    match ledgerDoubles (App.processedFiles st) with
    | [] => Finite 1
    | read =>
        if (occurrencesOf (App.mathMax read) read <? 2)%nat
        then App.mathMax read else plusOne (App.mathMax read)
    end.
Proof.
  destruct (ledgerDoubles (App.processedFiles st)) as [|x l] eqn:E.
  - apply getNextNumber_empty.
    rewrite ledgerDoubles_numbers in E. by destruct (ledgerNumbers _).
  - rewrite <- E. apply getNextNumber_of_max.
    + apply mathMax_elem. by rewrite E.
    + intros y Hy. by apply mathMax_upper.
Qed.

Lemma occurrences_read (n : N) (nums : list N) :
  (occurrences n nums ≤ occurrencesOf (toDouble n) (toDouble <$> nums))%nat.
Proof.
  unfold occurrences, occurrencesOf. induction nums as [|a nums IH]; [done|].
  cbn [fmap list_fmap count_occ].
  destruct (N.eq_dec a n) as [->|Hne].
  - destruct (double_eq_dec (toDouble n) (toDouble n)); [lia|done].
  - destruct (double_eq_dec (toDouble a) (toDouble n)); lia.
Qed.

Lemma occurrencesOf_snoc (x y : double) (xs : list double) :
  occurrencesOf x (xs ++ [y])
  = (occurrencesOf x xs + if decide (y = x) then 1 else 0)%nat.
Proof.
  unfold occurrencesOf. rewrite count_occ_app. simpl.
  destruct (double_eq_dec y x); by rewrite ?decide_True, ?decide_False by done.
Qed.

(** Recording the proposal when the greatest number is used up: the next
    proposal is the same, whatever the size of the numbers. *)
Lemma recorded_proposal (st st' : App.State) (kv : jsstring * App.Entry)
    (rest : jsstring) :
  slotOpen (ledgerNumbers (App.processedFiles st)) = false →
  App.processedFiles st' = App.processedFiles st ++ [kv] →
  App.newName kv.2 = numberToString (App.getNextNumber st) ++ 95 :: rest →
  App.getNextNumber st' = App.getNextNumber st.
Proof.
  intros Hslot Hledger Hname.
  set (p := App.getNextNumber st) in *.
  pose proof (getNextNumber_isDouble st) as Hp. fold p in Hp.
  set (read := ledgerDoubles (App.processedFiles st)).
  assert (ledgerDoubles (App.processedFiles st')
          = read ++ option_list (parseInt <$> App.matchNumber (App.newName kv.2)))
    as Hread by (rewrite Hledger; apply ledgerDoubles_snoc).
  destruct (App.matchNumber (App.newName kv.2)) as [ds|] eqn:Em; simpl in Hread.
  2:{ rewrite app_nil_r in Hread. unfold p. by rewrite !getNextNumber_read, Hread. }
  rewrite Hname in Em. apply matchNumber_numberToString in Em; [|done].
  rewrite Em in Hread. clear Em ds.
  destruct (ledgerNumbers (App.processedFiles st)) as [|a nums] eqn:Enums.
  - (* no number yet: 1 is recorded once *)
    assert (p = Finite 1) as Hone by (by apply getNextNumber_empty).
    assert (read = []) as Hnil by (unfold read; by rewrite ledgerDoubles_numbers, Enums).
    rewrite getNextNumber_read, Hread, Hnil, Hone. reflexivity.
  - set (all := a :: nums) in *.
    assert (all ≠ []) as Hne by done.
    destruct (greatest_read all Hne) as [HM Hub].
    set (M := toDouble (greatest all)) in *.
    assert (read = toDouble <$> all) as Hall
      by (unfold read; by rewrite ledgerDoubles_numbers, Enums).
    rewrite <- Hall in HM, Hub.
    assert (2 ≤ occurrencesOf M read)%nat as Hocc.
    { rewrite slotOpen_nonempty in Hslot by done. apply Nat.ltb_ge in Hslot.
      etransitivity; [exact Hslot|]. rewrite Hall. apply occurrences_read. }
    assert (p = plusOne M) as HpM.
    { unfold p. rewrite (getNextNumber_of_max st M HM Hub). fold read.
      by apply Nat.ltb_ge in Hocc as ->. }
    assert (doubleLe M p) as HMp.
    { rewrite HpM. apply plusOne_ge, toDouble_isDouble. }
    rewrite (getNextNumber_of_max st' p); rewrite Hread.
    + rewrite occurrencesOf_snoc, decide_True by done.
      destruct (decide (p = M)) as [E|E].
      * rewrite E in *.
        assert ((occurrencesOf M read + 1 <? 2)%nat = false) as ->
          by (apply Nat.ltb_ge; lia).
        by rewrite <- HpM.
      * assert (occurrencesOf p read = 0%nat) as ->; [|done].
        destruct (occurrencesOf p read) eqn:Eo; [done|].
        exfalso. apply E. apply doubleLe_antisym; [|done].
        apply Hub. apply occurrencesOf_pos. lia.
    + apply elem_of_app. right. by apply list_elem_of_singleton.
    + intros x [Hx|Hx]%elem_of_app.
      * eapply doubleLe_trans; [by apply Hub|done].
      * apply list_elem_of_singleton in Hx as ->. apply doubleLe_refl.
Qed.

Lemma greatest_app (a b : list N) : greatest (a ++ b) = N.max (greatest a) (greatest b).
Proof. induction a as [|x a IH]; simpl; [lia|]. rewrite IH. lia. Qed.

(** Below 2^53 [getNextNumber] returns the greatest leading integer or
    its successor. *)
Lemma getNextNumber_safe (st : App.State) :
  let nums := ledgerNumbers (App.processedFiles st) in
  safeNumber (greatest nums) →
  ∃ r, App.getNextNumber st = Finite r ∧ greatest nums ≤ r ∧ r ≤ greatest nums + 1
       ∧ Forall safeNumber nums.
Proof.
  intros nums Hsafe. destruct (decide (nums = [])) as [E|Hne].
  - exists 1. rewrite getNextNumber_empty by done. rewrite E. simpl.
    repeat split; (lia || done).
  - destruct (greatest_bounds nums Hne) as [HM Hub].
    assert (Forall safeNumber nums) as Hall.
    { eapply Forall_impl; [exact Hub|]. unfold safeNumber in *. intros n Hn. simpl in Hn. lia. }
    rewrite Forall_forall in Hub.
    rewrite (getNextNumber_max st _ HM Hub Hsafe). fold nums.
    eexists. split; [done|]. destruct (_ <? _)%nat; repeat split; (lia || done).
Qed.

Lemma pairRule_step (nums : list N) (st st' : App.State) (r : N) :
  ledgerNumbers (App.processedFiles st) = nums →
  App.getNextNumber st = Finite r → safeNumber r → safeNumber (greatest nums) →
  ledgerNumbers (App.processedFiles st') = nums ++ [r] →
  App.getNextNumber st' = Finite (if slotOpen nums then r + 1 else r)
  ∧ slotOpen (nums ++ [r]) = negb (slotOpen nums).
Proof.
  intros Hnums Hr0 Hsafe HsafeG Hnums'.
  destruct (decide (nums = [])) as [->|Hne].
  - (* empty ledger: 1 is recorded once *)
    rewrite (getNextNumber_empty st) in Hr0 by done. injection Hr0 as <-.
    simpl in *. split; [|done].
    rewrite (getNextNumber_max st' 1); rewrite ?Hnums'; try done.
    + apply list_elem_of_singleton. done.
    + intros n Hn. apply list_elem_of_singleton in Hn. lia.
  - destruct (greatest_bounds nums Hne) as [HM Hub].
    rewrite Forall_forall in Hub.
    set (M := greatest nums) in *.
    assert (r = if (occurrences M nums <? 2)%nat then M else M + 1) as Hr.
    { rewrite (getNextNumber_max st M) in Hr0; rewrite ?Hnums; try done.
      rewrite Hnums in Hr0. by injection Hr0. }
    assert (slotOpen nums = (occurrences M nums <? 2)%nat) as Hs.
    { by apply slotOpen_nonempty. }
    rewrite Hs.
    assert (0 < occurrences M nums)%nat as Hpos by by apply occurrences_pos.
    assert (greatest (nums ++ [r]) = r) as Hmax'.
    { apply greatest_unique.
      - apply elem_of_app. right. apply list_elem_of_singleton. done.
      - intros n [Hn|Hn]%elem_of_app.
        + apply Hub in Hn. rewrite Hr. destruct (_ <? _)%nat; lia.
        + apply list_elem_of_singleton in Hn. lia. }
    assert (occurrences r (nums ++ [r]) = S (occurrences r nums)) as Hocc'.
    { unfold occurrences. rewrite count_occ_app. simpl.
      destruct (N.eq_dec r r); [lia|done]. }
    assert (slotOpen (nums ++ [r]) = (S (occurrences r nums) <? 2)%nat) as Hs'.
    { rewrite slotOpen_nonempty by (by destruct nums).
      by rewrite Hmax', Hocc'. }
    assert (App.getNextNumber st' =
            Finite (if (S (occurrences r nums) <? 2)%nat then r else r + 1)) as Hr'.
    { rewrite (getNextNumber_max st' r); rewrite ?Hnums'.
      - by rewrite Hocc'.
      - apply elem_of_app. right. apply list_elem_of_singleton. done.
      - intros n Hn. rewrite <- Hmax'. by apply greatest_upper.
      - done. }
    rewrite Hr', Hs'.
    destruct (occurrences M nums <? 2)%nat eqn:Hlt.
    + (* M is used for the second time *)
      subst r. apply Nat.ltb_lt in Hlt.
      assert (occurrences M nums = 1%nat) as -> by lia. done.
    + (* M is full: M + 1 is new *)
      subst r.
      assert (occurrences (M + 1) nums = 0%nat) as ->; [|done].
      destruct (occurrences (M + 1) nums) eqn:Ho; [done|].
      assert (M + 1 ∈ nums) as Hin by (apply occurrences_pos; lia).
      apply Hub in Hin. lia.
Qed.

Lemma applyAndNext_confirm (st : App.State) (file : App.File) :
  App.validateForm st = true →
  App.imageFiles st !! App.currentIndex st = Some file →
  let data :=
    App.mkEntry (App.generateFilename st) (pop (split 46 (App.name file))) file in
  let st1 :=
    App.withProcessed (App.mapSet (App.name file) data (App.processedFiles st))
      (App.processedList st ++ [App.fullFilename data]) st in
  App.applyAndNext st =
    if (Z.of_nat (App.currentIndex st) <? Z.of_nat (length (App.imageFiles st)) - 1)%Z
    then App.autoSetNumber (App.withCurrentIndex (App.currentIndex st + 1) st1)
    else st1.
Proof. intros Hv Hf. unfold App.applyAndNext. rewrite Hv, Hf. done. Qed.

Lemma applyAndNext_processedFiles (st : App.State) (file : App.File) :
  App.validateForm st = true →
  App.imageFiles st !! App.currentIndex st = Some file →
  App.processedFiles (App.applyAndNext st) =
    App.mapSet (App.name file)
      (App.mkEntry (App.generateFilename st) (pop (split 46 (App.name file))) file)
      (App.processedFiles st).
Proof.
  intros Hv Hf. rewrite (applyAndNext_confirm st file Hv Hf).
  by destruct (_ <? _)%Z.
Qed.

Lemma applyAndNext_imageFiles (st : App.State) :
  App.imageFiles (App.applyAndNext st) = App.imageFiles st.
Proof.
  unfold App.applyAndNext.
  destruct (negb _); [done|]. destruct (_ !! _); [|done].
  by destruct (_ <? _)%Z.
Qed.

Lemma applyAndNext_advance (st : App.State) (file : App.File) :
  App.validateForm st = true →
  App.imageFiles st !! App.currentIndex st = Some file →
  (App.currentIndex st + 1 < length (App.imageFiles st))%nat →
  App.currentIndex (App.applyAndNext st) = S (App.currentIndex st)
  ∧ App.numberInput (App.form (App.applyAndNext st))
    = numberToString (App.getNextNumber (App.applyAndNext st)).
Proof.
  intros Hv Hf Hlt. rewrite (applyAndNext_confirm st file Hv Hf).
  assert ((Z.of_nat (App.currentIndex st)
           <? Z.of_nat (length (App.imageFiles st)) - 1)%Z = true) as ->
    by (apply Z.ltb_lt; lia).
  simpl. split; [lia|done].
Qed.

(** Over a run that stays below 2^53, the proposals are the pair
    sequence. *)
Lemma confirmForward_pairSeq (fs : list App.Form) (st : App.State) :
  numberProposed st → freshAhead st →
  (App.currentIndex st + length fs ≤ length (App.imageFiles st))%nat →
  Forall (λ f, App.validateForm (App.withForm f st) = true) fs →
  greatest (ledgerNumbers (App.processedFiles st)) + N.of_nat (length fs) < exactBelow →
  ∃ r,
    App.getNextNumber st = Finite r
    ∧ confirmForward fs st =
        Finite <$> pairSeq r (slotOpen (ledgerNumbers (App.processedFiles st))) (length fs).
Proof.
  revert st. induction fs as [|f fs IH];
    intros st Hnum [Hdup Hfresh] Hlen Hvalid Hbound.
  { destruct (getNextNumber_safe st) as (r & Hr & _); [unfold safeNumber; simpl in *; lia|].
    by exists r. }
  inversion Hvalid as [|? ? Hf Hfs]; subst.
  cbn [length] in Hbound.
  destruct (getNextNumber_safe st) as (r & Hr & HGr & HrG & Hall);
    [unfold safeNumber; lia|].
  assert (safeNumber r) as Hsafe by (unfold safeNumber; lia).
  exists r. split; [done|].
  cbn [confirmForward pairSeq length fmap list_fmap].
  set (st1 := userFills f st).
  assert (App.getNextNumber st1 = Finite r) as Hr1 by exact Hr.
  assert (App.validateForm st1 = true) as Hv1 by exact Hf.
  simpl in Hlen.
  destruct (lookup_lt_is_Some_2 (App.imageFiles st) (App.currentIndex st)) as [file Hfile];
    [lia|].
  assert (App.imageFiles st1 !! App.currentIndex st1 = Some file) as Hfile1 by exact Hfile.
  rewrite (drop_S _ _ _ Hfile) in Hdup, Hfresh.
  rewrite fmap_cons in Hdup. apply NoDup_cons in Hdup as [Hnotin Hdup].
  apply Forall_cons in Hfresh as [Hnew Hfresh].
  assert (ledgerNumbers (App.processedFiles (App.applyAndNext st1))
          = ledgerNumbers (App.processedFiles st) ++ [r]) as Hnums.
  { rewrite (applyAndNext_processedFiles st1 file Hv1 Hfile1).
    change (App.processedFiles st1) with (App.processedFiles st).
    rewrite mapSet_fresh by done. rewrite ledgerNumbers_snoc. simpl.
    rewrite (generateFilename_number st1 r); [done|done| |done|done].
    destruct Hnum as [H|H]; [left|right]; exact H. }
  destruct (pairRule_step _ st (App.applyAndNext st1) r eq_refl Hr Hsafe) as [Hnext Hslot];
    [unfold safeNumber; lia|exact Hnums|].
  rewrite Hr1. f_equal.
  destruct fs as [|f' fs']; [done|].
  simpl in Hlen.
  destruct (applyAndNext_advance st1 file Hv1 Hfile1) as [Hidx Hprop].
  { change (App.currentIndex st1) with (App.currentIndex st).
    change (App.imageFiles st1) with (App.imageFiles st). lia. }
  change (App.currentIndex st1) with (App.currentIndex st) in Hidx.
  destruct (IH (App.applyAndNext st1)) as (r' & Hr' & Hrun).
  - by right.
  - unfold freshAhead. rewrite applyAndNext_imageFiles, Hidx.
    change (App.imageFiles st1) with (App.imageFiles st).
    split; [done|].
    rewrite (applyAndNext_processedFiles st1 file Hv1 Hfile1).
    change (App.processedFiles st1) with (App.processedFiles st).
    rewrite Forall_forall in Hfresh. apply Forall_forall. intros file' Hin.
    rewrite mapGet_mapSet_ne; [by apply Hfresh|].
    intros Heq. apply Hnotin. rewrite <- Heq.
    apply list_elem_of_fmap. eauto.
  - rewrite applyAndNext_imageFiles, Hidx.
    change (App.imageFiles st1) with (App.imageFiles st). simpl. lia.
  - eapply Forall_impl; [exact Hfs|]. intros g Hg. exact Hg.
  - rewrite Hnums, greatest_app. cbn [greatest foldr length] in *. lia.
  - rewrite Hrun, Hnums, Hslot. rewrite Hnext in Hr'. injection Hr' as <-.
    by destruct (slotOpen _).
Qed.

Lemma pairSeq_length (n : nat) (r : N) (once : bool) :
  length (pairSeq r once n) = n.
Proof. revert r once. induction n as [|n IH]; intros r once; simpl; [done|]. by rewrite IH. Qed.

Lemma pairSeq_adjacent (n : nat) (r : N) (once : bool) (i : nat) (a b : N) :
  pairSeq r once n !! i = Some a → pairSeq r once n !! S i = Some b →
  a ≤ b ∧ b ≤ a + 1.
Proof.
  revert r once i. induction n as [|n IH]; intros r once i; [done|].
  destruct i as [|i]; simpl.
  - intros [= <-]. destruct n as [|n']; [done|]. simpl. intros [= <-].
    destruct once; lia.
  - apply IH.
Qed.

Lemma pairSeq_occurrences (n : nat) (r : N) (once : bool) (v : N) :
  (occurrences v (pairSeq r once n)
   ≤ if (v <? r)%N then 0 else if (v =? r)%N && once then 1 else 2)%nat.
Proof.
  revert r once. induction n as [|n IH]; intros r once.
  - simpl. unfold occurrences. simpl. repeat destruct (_ <? _); repeat destruct (_ && _); lia.
  - unfold occurrences in *. cbn [pairSeq count_occ].
    specialize (IH (if once then r + 1 else r) (negb once)).
    destruct (N.eq_dec r v) as [->|Hne].
    + rewrite N.ltb_irrefl, N.eqb_refl. simpl.
      destruct once; simpl in *.
      * assert ((v <? v + 1) = true) as Hlt by (apply N.ltb_lt; lia).
        rewrite Hlt in IH. lia.
      * rewrite N.ltb_irrefl, N.eqb_refl in IH. simpl in IH. lia.
    + destruct (N.ltb_spec v r) as [Hlt|Hge].
      * destruct once.
        -- assert ((v <? r + 1) = true) as Hlt' by (apply N.ltb_lt; lia).
           rewrite Hlt' in IH. lia.
        -- assert ((v <? r) = true) as Hlt' by (apply N.ltb_lt; lia).
           rewrite Hlt' in IH. lia.
      * assert ((v =? r) = false) as -> by (apply N.eqb_neq; lia). simpl.
        etransitivity; [exact IH|].
        repeat destruct (_ <? _); repeat destruct (_ && _); lia.
Qed.

(** At 2^53 + 1 [getNextNumber] returns 2^53, below the prefix that is
    assigned. *)
Lemma getNextNumber_monotone_counterexample :
  ¬ (∀ n, n ∈ ledgerNumbers wideLedger →
       ∃ r, App.getNextNumber (ledgerState wideLedger) = Finite r ∧ n ≤ r).
Proof.
  intros H. destruct (H 9007199254740993) as (r & Hr & Hle).
  - apply (bool_decide_unpack _). vm_compute. reflexivity.
  - assert (App.getNextNumber (ledgerState wideLedger) = Finite 9007199254740992) as E
      by (vm_compute; reflexivity).
    rewrite E in Hr. injection Hr as <-. lia.
Qed.

(** C4, as the code has it.  For every ledger whose numbers are below
    2^53, with gaps or values used more than twice included,
    [getNextNumber] is not below any leading integer already assigned.
    Over successive confirmations in forward order that stay below 2^53,
    each recording the number that [getNextNumber] proposed, the returned
    numbers never decrease, never skip a value, and no value is returned
    more than twice.  (From 2^53 on the digits are read as the nearest
    double, and the proposal no longer advances.) *)
Theorem getNextNumber_monotone (st : App.State) (fs : list App.Form) :
  (safeNumber (greatest (ledgerNumbers (App.processedFiles st))) →
   ∃ r, App.getNextNumber st = Finite r
        ∧ ∀ n, n ∈ ledgerNumbers (App.processedFiles st) → n ≤ r)
  ∧ (numberProposed st → freshAhead st →
     (App.currentIndex st + length fs ≤ length (App.imageFiles st))%nat →
     Forall (λ f, App.validateForm (App.withForm f st) = true) fs →
     greatest (ledgerNumbers (App.processedFiles st)) + N.of_nat (length fs)
       < exactBelow →
     ∃ returned,
       confirmForward fs st = Finite <$> returned
       ∧ length returned = length fs
       ∧ (∀ i a b, returned !! i = Some a → returned !! S i = Some b →
            a ≤ b ∧ b ≤ a + 1)
       ∧ (∀ v, occurrences v returned ≤ 2)%nat).
Proof.
  split.
  - intros Hsafe. destruct (getNextNumber_safe st Hsafe) as (r & Hr & HG & _).
    exists r. split; [done|]. intros n Hn. apply greatest_upper in Hn. lia.
  - intros Hnum Hfresh Hlen Hvalid Hbound.
    destruct (confirmForward_pairSeq fs st Hnum Hfresh Hlen Hvalid Hbound)
      as (r & _ & Hrun).
    eexists. split; [exact Hrun|]. split; [|split].
    + apply pairSeq_length.
    + intros i a b. apply pairSeq_adjacent.
    + intros v. etransitivity; [apply pairSeq_occurrences|].
      destruct (_ <? _); [lia|]. destruct (_ && _); lia.
Qed.

Lemma getNextNumber_monotone_witness :
  (∃ r, App.getNextNumber reviewState = Finite r
        ∧ ∀ n, n ∈ ledgerNumbers (App.processedFiles reviewState) → n ≤ r)
  ∧ ∃ returned,
      confirmForward reviewForms reviewState = Finite <$> returned
      ∧ ∀ v, (occurrences v returned ≤ 2)%nat.
Proof.
  destruct (getNextNumber_monotone reviewState reviewForms) as [Hlow Hrun].
  split.
  - apply Hlow. vm_compute. reflexivity.
  - destruct Hrun as (returned & Hret & _ & _ & Hocc).
    + left. reflexivity.
    + unfold freshAhead. split; apply (bool_decide_unpack _); vm_compute; reflexivity.
    + vm_compute. lia.
    + apply (bool_decide_unpack _). vm_compute. reflexivity.
    + vm_compute. reflexivity.
    + by exists returned.
Defined.

Example confirmForward_review :
  confirmForward reviewForms reviewState = [Finite 6; Finite 6; Finite 7].
Proof. vm_compute. reflexivity. Qed.

(** From the empty ledger: the second image keeps number 1, the third
    gets number 2. *)
Example confirmForward_scenario :
  confirmForward reviewForms scenarioState = [Finite 1; Finite 1; Finite 2].
Proof. vm_compute. reflexivity. Qed.

(** From 2^53 on the proposal stays where it is. *)
Example confirmForward_wide :
  confirmForward reviewForms
    (App.mkState (App.materials scenarioState) (App.processingMethods scenarioState)
       (App.implementers scenarioState) (App.materialCategories scenarioState)
       (App.materialNameToId scenarioState)
       (exampleFile "a.jpg" :: App.imageFiles scenarioState) 1 wideLedger true
       (bracketForm []) [])
  = [Finite 9007199254740992; Finite 9007199254740992; Finite 9007199254740992].
Proof. vm_compute. reflexivity. Qed.
(** ** The composed name in [app.js] *)

(** The name recorded by a confirmation, written out field by field. *)
Lemma applyAndNext_fullFilename (st : App.State) (file : App.File) :
  App.validateForm st = true →
  App.imageFiles st !! App.currentIndex st = Some file →
  let f := App.form st in
  let number :=
    if truthy (App.numberInput f) then App.numberInput f
    else numberToString (App.getNextNumber st) in
  App.fullFilename <$> App.mapGet (App.name file) (App.processedFiles (App.applyAndNext st))
  = Some (number ++ js "_" ++ trim (App.partNameInput f) ++ js "_"
          ++ trim (App.weightInput f) ++ js "_" ++ App.unitSelect f ++ js "_"
          ++ App.showId (App.materialNameToId st) (App.materialSelect f) ++ js "_"
          ++ App.showId (App.processingMethods st) (App.processingSelect f) ++ js "_"
          ++ App.showId (App.implementers st) (App.implementerSelect f) ++ js "_"
          ++ App.photoTypeSelect f ++ js "_" ++ App.notesSelect f
          ++ js "." ++ pop (split 46 (App.name file))).
Proof.
  intros Hv Hf f number.
  rewrite (applyAndNext_processedFiles st file Hv Hf), mapGet_mapSet_eq.
  cbn [fmap option_fmap option_map]. unfold App.fullFilename. cbn [App.newName App.extension].
  rewrite generateFilename_valid by done.
  unfold App.filenameFields. fold f. fold number. cbn [joinUnderscore].
  f_equal. by rewrite <- !app_assoc.
Qed.

Lemma applyAndNext_processedList (st : App.State) (file : App.File) :
  App.validateForm st = true →
  App.imageFiles st !! App.currentIndex st = Some file →
  App.processedList (App.applyAndNext st) =
    App.processedList st
    ++ [App.generateFilename st ++ js "." ++ pop (split 46 (App.name file))].
Proof.
  intros Hv Hf. rewrite (applyAndNext_confirm st file Hv Hf).
  by destruct (_ <? _)%Z.
Qed.

(** C2. With the tables Aluminum to M01, Anodize to P02 and Alice to I03,
    an empty ledger and the form Bracket, 12.5, kg, Aluminum, Anodize,
    Alice, P, 0, confirming the image [IMG_001.jpg] assigns the full name
    [1_Bracket_12.5_kg_M01_P02_I03_P_0.jpg]: number, part name, weight,
    unit, material id, processing id, implementer id, photo type and notes
    joined by underscores, then a dot and the original extension.  It is
    the name of the ledger entry in the archive and the name added to the
    list of processed files.  The number field is empty or holds the
    number the application proposed. *)
Theorem applyAndNext_scenario (st : App.State) (file : App.File) (number : jsstring) :
  App.materialNameToId st !! js "Aluminum" = Some (js "M01") →
  App.processingMethods st !! js "Anodize" = Some (js "P02") →
  App.implementers st !! js "Alice" = Some (js "I03") →
  App.processedFiles st = [] →
  App.imageFiles st !! App.currentIndex st = Some file →
  App.name file = js "IMG_001.jpg" →
  App.form st = bracketForm number →
  number = [] ∨ number = numberToString (App.getNextNumber st) →
  App.fullFilename <$> App.mapGet (js "IMG_001.jpg") (App.processedFiles (App.applyAndNext st))
  = Some (js "1_Bracket_12.5_kg_M01_P02_I03_P_0.jpg")
  ∧ App.processedList (App.applyAndNext st)
    = App.processedList st ++ [js "1_Bracket_12.5_kg_M01_P02_I03_P_0.jpg"].
Proof.
  intros Hmat Hproc Himpl Hledger Hfile Hname Hform Hnumber.
  assert (App.validateForm st = true) as Hv.
  { unfold App.validateForm. rewrite Hform. reflexivity. }
  assert (App.getNextNumber st = Finite 1) as Hone.
  { apply getNextNumber_empty. by rewrite Hledger. }
  rewrite Hone in Hnumber.
  assert (App.generateFilename st = js "1_Bracket_12.5_kg_M01_P02_I03_P_0") as Hgen.
  { rewrite generateFilename_valid by done. unfold App.filenameFields.
    rewrite Hone, Hform.
    cbn [bracketForm App.numberInput App.partNameInput App.weightInput
         App.unitSelect App.materialSelect App.processingSelect
         App.implementerSelect App.photoTypeSelect App.notesSelect].
    unfold App.showId, getProperty. rewrite Hmat, Hproc, Himpl.
    destruct Hnumber as [-> | ->]; vm_compute; reflexivity. }
  split.
  - rewrite <- Hname.
    rewrite (applyAndNext_processedFiles st file Hv Hfile), mapGet_mapSet_eq.
    cbn [fmap option_fmap option_map]. unfold App.fullFilename.
    cbn [App.newName App.extension]. rewrite Hgen, Hname. reflexivity.
  - rewrite (applyAndNext_processedList st file Hv Hfile), Hgen, Hname. reflexivity.
Qed.

Lemma applyAndNext_scenario_witness :
  App.fullFilename <$>
    App.mapGet (js "IMG_001.jpg") (App.processedFiles (App.applyAndNext scenarioState))
  = Some (js "1_Bracket_12.5_kg_M01_P02_I03_P_0.jpg")
  ∧ App.processedList (App.applyAndNext scenarioState)
    = App.processedList scenarioState ++ [js "1_Bracket_12.5_kg_M01_P02_I03_P_0.jpg"].
Proof.
  apply (applyAndNext_scenario scenarioState (exampleFile "IMG_001.jpg") []).
  - vm_compute. reflexivity.
  - vm_compute. reflexivity.
  - vm_compute. reflexivity.
  - reflexivity.
  - reflexivity.
  - reflexivity.
  - reflexivity.
  - left. reflexivity.
Defined.

(** ** When a name is generated *)

Lemma truthy_false (s : jsstring) : truthy s = false ↔ s = [].
Proof. by destruct s. Qed.

Lemma truthy_true (s : jsstring) : truthy s = true ↔ s ≠ [].
Proof. by destruct s. Qed.

Ltac case_truthy x :=
  let E := fresh "E" in
  destruct (truthy x) eqn:E; [apply truthy_true in E | apply truthy_false in E].

Lemma joinUnderscore_underscore (a b : jsstring) (l : list jsstring) :
  95 ∈ joinUnderscore (a :: b :: l).
Proof. cbn [joinUnderscore]. apply elem_of_app. right. left. Qed.

Lemma joinUnderscore_nonempty (a b : jsstring) (l : list jsstring) :
  joinUnderscore (a :: b :: l) ≠ [].
Proof.
  intros E. pose proof (joinUnderscore_underscore a b l) as H.
  rewrite E in H. inversion H.
Qed.

Lemma joinUnderscore_not_dots (a b : jsstring) (l : list jsstring) :
  joinUnderscore (a :: b :: l) ≠ js "...".
Proof.
  intros E. pose proof (joinUnderscore_underscore a b l) as H.
  rewrite E in H. vm_compute in H.
  repeat (apply elem_of_cons in H as [H|H]; [discriminate H|]). inversion H.
Qed.

Lemma weightPattern_allowed (w : jsstring) :
  Script.weightPattern w = truthy w && weightAllowed w.
Proof.
  unfold Script.weightPattern, weightAllowed. f_equal.
  induction w as [|c w IH]; simpl; [done|]. rewrite IH. f_equal.
  unfold Script.weightChar. destruct (isDigit c); simpl; [done|].
  destruct ((97 <=? c) && (c <=? 122)), ((65 <=? c) && (c <=? 90)); done.
Qed.

(** What [validateInputs] accepts. *)
Lemma validateInputs_true (st : Script.State) :
  let d := Script.dom st in
  Script.validateInputs st = true ↔
  trim (Script.inputPartName d) ≠ [] ∧ trim (Script.inputWeight d) ≠ []
  ∧ weightAllowed (trim (Script.inputWeight d)) = true
  ∧ Script.inputCategory d ≠ [] ∧ Script.inputMaterial d ≠ []
  ∧ Script.inputProcessing d ≠ [].
Proof.
  intros d. unfold Script.validateInputs.
  cbn [Script.getInputValues Script.partName Script.weight Script.category
       Script.material Script.processing_]. fold d.
  rewrite weightPattern_allowed, !andb_true_iff, !truthy_true. tauto.
Qed.

(** Neither variant checks what the specification requires: [app.js] has
    no allow-list for the weight, and [script.js] answers a missing field
    with the three dots of its preview. *)
Lemma generateFilename_gate_counterexample :
  ¬ (∀ st : App.State, App.generateFilename st = [] ↔ appRequired st = false)
  ∧ ¬ (∀ st : Script.State,
         Script.generateNewFilename st = [] ↔ scriptRequired st = false).
Proof.
  split.
  - intros H. specialize (H commaWeightState). destruct H as [_ H].
    assert (App.generateFilename commaWeightState = []) as E by (apply H; reflexivity).
    vm_compute in E. discriminate E.
  - intros H. specialize (H (scriptState (scriptInputs "" "12.5" "Aluminum"))).
    destruct H as [_ H].
    assert (Script.generateNewFilename (scriptState (scriptInputs "" "12.5" "Aluminum")) = [])
      as E by (apply H; reflexivity).
    vm_compute in E. discriminate E.
Qed.

(** C3, as the code has it.  In [app.js], [generateFilename] returns the
    empty string exactly when the trimmed part name or the trimmed weight
    is empty or the implementer, the material or the processing method is
    not selected; the characters of the weight are not checked.  In
    [script.js], [generateNewFilename] returns the empty string exactly
    when the tables or the images are not loaded, and otherwise the
    three dots exactly when the trimmed part name is empty or the material
    or the processing method is not selected; the allow-list of the weight
    is checked by [validateInputs], which holds exactly when the trimmed
    part name and weight are non-empty, the weight is within the
    allow-list, and category, material and processing method are selected.
    All of them are total: no input raises an exception. *)
Theorem generateFilename_gate :
  (∀ st : App.State,
     let f := App.form st in
     App.generateFilename st = [] ↔
     trim (App.partNameInput f) = [] ∨ trim (App.weightInput f) = []
     ∨ App.implementerSelect f = [] ∨ App.materialSelect f = []
     ∨ App.processingSelect f = [])
  ∧ (∀ st : Script.State,
       let d := Script.dom st in
       (Script.generateNewFilename st = [] ↔ Script.isReady st = false)
       ∧ (Script.isReady st = true →
            (Script.generateNewFilename st = js "..." ↔
             trim (Script.inputPartName d) = [] ∨ Script.inputMaterial d = []
             ∨ Script.inputProcessing d = []))
       ∧ (Script.validateInputs st = true ↔
          trim (Script.inputPartName d) ≠ [] ∧ trim (Script.inputWeight d) ≠ []
          ∧ weightAllowed (trim (Script.inputWeight d)) = true
          ∧ Script.inputCategory d ≠ [] ∧ Script.inputMaterial d ≠ []
          ∧ Script.inputProcessing d ≠ [])).
Proof.
  split.
  - intros st f. unfold App.generateFilename. fold f.
    case_truthy (trim (App.partNameInput f)); cbn [negb orb]; [|tauto].
    case_truthy (trim (App.weightInput f)); cbn [negb orb]; [|tauto].
    case_truthy (App.implementerSelect f); cbn [negb orb]; [|tauto].
    case_truthy (App.materialSelect f); cbn [negb orb]; [|tauto].
    case_truthy (App.processingSelect f); cbn [negb orb]; [|tauto].
    split; [|tauto]. intros Hnil. by apply joinUnderscore_nonempty in Hnil.
  - intros st d. split; [|split].
    + unfold Script.generateNewFilename.
      destruct (Script.isReady st); cbn [negb]; [|done].
      split; [|done]. intros Hnil.
      destruct (_ || _); [done|]. by apply joinUnderscore_nonempty in Hnil.
    + intros Hready. unfold Script.generateNewFilename. rewrite Hready.
      cbn [negb Script.getInputValues Script.partName Script.material Script.processing_].
      fold d.
      case_truthy (trim (Script.inputPartName d)); cbn [negb orb]; [|tauto].
      case_truthy (Script.inputMaterial d); cbn [negb orb]; [|tauto].
      case_truthy (Script.inputProcessing d); cbn [negb orb]; [|tauto].
      split; [|tauto].
      intros Hdots. unfold Script.filenameFields in Hdots.
      by apply joinUnderscore_not_dots in Hdots.
    + apply validateInputs_true.
Qed.

Lemma generateFilename_gate_witness :
  Script.generateNewFilename (scriptState (scriptInputs "" "12.5" "Aluminum")) = js "...".
Proof.
  destruct (proj2 generateFilename_gate (scriptState (scriptInputs "" "12.5" "Aluminum")))
    as (_ & Hdots & _).
  apply Hdots; [reflexivity|]. left. reflexivity.
Defined.

(** ** [sanitizeFilename] of [script.js] *)

Lemma collapseSpaces_head (s : jsstring) :
  match s with
  | [] => Script.collapseSpaces s = []
  | c :: _ => ∃ t, Script.collapseSpaces s = (if isSpace c then 32 else c) :: t
  end.
Proof.
  induction s as [|c s IH]; [done|].
  cbn [Script.collapseSpaces].
  destruct (isSpace c) eqn:Ec; [|eauto].
  destruct s as [|c' s']; [eauto|].
  destruct (isSpace c') eqn:Ec'; [|eauto].
  destruct IH as [t IH]. eauto.
Qed.

Lemma collapseSpaces_tidy (s : jsstring) : tidy (Script.collapseSpaces s).
Proof.
  induction s as [|c s IH]; [done|].
  cbn [Script.collapseSpaces].
  destruct (isSpace c) eqn:Ec.
  - destruct s as [|c' s']; [done|].
    destruct (isSpace c') eqn:Ec'; [exact IH|].
    split; [|exact IH]. intros _. split; [done|].
    pose proof (collapseSpaces_head (c' :: s')) as [t Ht]. rewrite Ec' in Ht.
    by rewrite Ht.
  - split; [|exact IH]. intros H. simpl in H. congruence.
Qed.

Lemma tidy_collapseSpaces (s : jsstring) : tidy s → Script.collapseSpaces s = s.
Proof.
  induction s as [|c s IH]; [done|]. intros [Hc Hs].
  cbn [Script.collapseSpaces]. rewrite (IH Hs).
  destruct (isSpace c) eqn:Ec; [|done].
  destruct (Hc eq_refl) as [-> Hnext].
  destruct s as [|c' s']; [done|]. by rewrite Hnext.
Qed.

Lemma tidy_app (a b : jsstring) : tidy (a ++ b) → tidy a ∧ tidy b.
Proof.
  induction a as [|c a IH]; [done|]. intros [Hc Hab].
  destruct (IH Hab) as [Ha Hb]. split; [|done].
  split; [|done]. intros Hs. destruct (Hc Hs) as [-> Hnext].
  split; [done|]. by destruct a.
Qed.

Lemma trim_infix (s : jsstring) : ∃ pre post, s = pre ++ trim s ++ post.
Proof.
  exists (takeWhile isSpace s),
         (rev (takeWhile isSpace (rev (dropWhile isSpace s)))).
  unfold trim. rewrite <- rev_app_distr, takeWhile_dropWhile, rev_involutive.
  by rewrite takeWhile_dropWhile.
Qed.

Lemma trim_trim (s : jsstring) : trim (trim s) = trim s.
Proof.
  unfold trim. set (v := dropWhile isSpace s).
  set (x := dropWhile isSpace (rev v)).
  assert (dropWhile isSpace (rev x) = rev x) as ->.
  { apply dropWhile_fixed.
    destruct (rev x) as [|c w'] eqn:Ew; [done|].
    (* [rev x] is a prefix of [v], whose first code unit is no white space *)
    pose proof (takeWhile_dropWhile isSpace (rev v)) as Hv. fold x in Hv.
    apply (f_equal (@rev N)) in Hv.
    rewrite rev_app_distr, rev_involutive, Ew in Hv.
    eapply dropWhile_head. unfold v in Hv. symmetry. exact Hv. }
  rewrite rev_involutive. unfold x. by rewrite dropWhile_idem.
Qed.

Lemma Forall_collapseSpaces (P : N → Prop) (s : jsstring) :
  P 32 → Forall P s → Forall P (Script.collapseSpaces s).
Proof.
  intros H32. induction 1 as [|c s Hc Hs IH]; [constructor|].
  cbn [Script.collapseSpaces].
  destruct (isSpace c); [|by constructor].
  destruct s as [|c' s']; [by repeat constructor|].
  destruct (isSpace c'); [done|by constructor].
Qed.

Lemma Forall_trim (P : N → Prop) (s : jsstring) : Forall P s → Forall P (trim s).
Proof.
  intros H. destruct (trim_infix s) as (pre & post & E). rewrite E in H.
  apply Forall_app in H as [_ H]. by apply Forall_app in H as [H _].
Qed.

Lemma filter_all {A} (p : A → bool) (l : list A) :
  Forall (λ x, p x = true) l → List.filter p l = l.
Proof. induction 1 as [|x l Hx _ IH]; simpl; [done|]. by rewrite Hx, IH. Qed.

Lemma filter_Forall {A} (p : A → bool) (l : list A) :
  Forall (λ x, p x = true) (List.filter p l).
Proof.
  induction l as [|x l IH]; simpl; [constructor|].
  destruct (p x) eqn:E; [by constructor|done].
Qed.

(** What the three replacements of [sanitizeFilename] leave. *)
Lemma clean_sanitized (s : jsstring) : sanitized (Script.clean s).
Proof.
  unfold Script.clean. split; [|split].
  - apply Forall_trim, Forall_collapseSpaces; [done|].
    eapply Forall_impl; [apply filter_Forall|].
    intros c H. simpl in H. by apply negb_true_iff.
  - destruct (trim_infix (Script.collapseSpaces
      (List.filter (λ c, negb (Script.forbidden c)) s))) as (pre & post & E).
    pose proof (collapseSpaces_tidy (List.filter (λ c, negb (Script.forbidden c)) s)) as H.
    rewrite E in H. apply tidy_app in H as [_ H]. by apply tidy_app in H as [H _].
  - apply trim_trim.
Qed.

Lemma sanitized_clean (s : jsstring) : sanitized s → Script.clean s = s.
Proof.
  intros (Hok & Htidy & Htrim). unfold Script.clean.
  rewrite filter_all.
  - by rewrite tidy_collapseSpaces.
  - eapply Forall_impl; [exact Hok|]. intros c H. simpl in H. by rewrite H.
Qed.

Lemma clean_clean (s : jsstring) : Script.clean (Script.clean s) = Script.clean s.
Proof. apply sanitized_clean, clean_sanitized. Qed.

Lemma sanitizeFilename_truthy (s : jsstring) :
  s ≠ [] → Script.sanitizeFilename s = Script.clean s.
Proof. by destruct s. Qed.

(** A string of forbidden characters is sanitized to the empty string,
    and the empty string to [untitled]. *)
Lemma sanitizeFilename_idempotent_counterexample :
  ¬ (∀ s, Script.sanitizeFilename (Script.sanitizeFilename s) = Script.sanitizeFilename s).
Proof. intros H. specialize (H (js "?")). vm_compute in H. discriminate H. Qed.

(** C7, as the code has it.  [sanitizeFilename] is idempotent on every
    string whose sanitized form is not empty: there
    [sanitizeFilename (sanitizeFilename s) = sanitizeFilename s]. *)
Theorem sanitizeFilename_idempotent (s : jsstring) :
  Script.sanitizeFilename s ≠ [] →
  Script.sanitizeFilename (Script.sanitizeFilename s) = Script.sanitizeFilename s.
Proof.
  intros Hne. destruct s as [|c s]; [by vm_compute|].
  rewrite (sanitizeFilename_truthy (c :: s)) in * by done.
  rewrite sanitizeFilename_truthy by done. apply clean_clean.
Qed.

Lemma sanitizeFilename_idempotent_witness :
  Script.sanitizeFilename (Script.sanitizeFilename (js "  a <b>  c?  "))
  = Script.sanitizeFilename (js "  a <b>  c?  ").
Proof. apply sanitizeFilename_idempotent. vm_compute. discriminate. Defined.

(** ** Sanitized fields *)

Lemma weightAllowed_sanitized (w : jsstring) :
  weightAllowed w = true → sanitized w.
Proof.
  unfold weightAllowed. rewrite forallb_Forall_true. intros Hall.
  assert (Forall (λ c, Script.forbidden c = false ∧ isSpace c = false) w) as H.
  { eapply Forall_impl; [exact Hall|]. intros c Hc. simpl in Hc.
    unfold isDigit in Hc.
    rewrite !orb_true_iff, !andb_true_iff, !N.leb_le, !N.eqb_eq in Hc.
    split; apply not_true_iff_false; intros G.
    - unfold Script.forbidden in G.
      rewrite !orb_true_iff, !N.eqb_eq, N.leb_le in G. lia.
    - unfold isSpace in G.
      rewrite !orb_true_iff, !andb_true_iff, !N.leb_le, !N.eqb_eq in G. lia. }
  clear Hall. split; [|split].
  - eapply Forall_impl; [exact H|]. by intros c [? _].
  - induction H as [|c s [_ Hc] _ IH]; [done|].
    split; [|exact IH]. intros G. congruence.
  - unfold trim.
    assert (∀ s, Forall (λ c, Script.forbidden c = false ∧ isSpace c = false) s →
                 dropWhile isSpace s = s) as Hfix.
    { intros s Hs. apply dropWhile_fixed. destruct Hs as [|c s [_ Hc] _]; done. }
    rewrite (Hfix w H), Hfix; [apply rev_involutive|].
    apply Forall_forall. intros c Hc. rewrite Forall_forall in H.
    apply H. apply list_elem_of_In. apply in_rev. by apply list_elem_of_In.
Qed.

Lemma app_fields_counterexample :
  ¬ fieldsSanitized App.validateForm App.filenameFields.
Proof.
  intros H.
  destruct (H slashState eq_refl 1%nat (js "Bracket A/B")) as [Hok _];
    [by left | reflexivity |].
  apply (bool_decide_pack _) in Hok. vm_compute in Hok. exact Hok.
Qed.

(** C6, as the code has it.  In [script.js], for every form accepted by
    [validateInputs] the part-name and weight fields of the generated name
    are the trimmed inputs with every forbidden character removed, every
    run of white space made one space, and trimmed again; they hold no
    forbidden character, no run of white space but single spaces and none
    at their ends, and the weight field is the trimmed weight itself.
    Once the tables and the images are loaded, the generated name is the
    fields joined by underscores.  ([app.js] has no sanitization.) *)
Theorem script_fields_sanitized (st : Script.State) :
  Script.validateInputs st = true →
  let d := Script.dom st in
  let partName := Script.clean (trim (Script.inputPartName d)) in
  Script.filenameFields st !! 1%nat = Some partName
  ∧ Script.filenameFields st !! 2%nat = Some (trim (Script.inputWeight d))
  ∧ sanitized partName ∧ sanitized (trim (Script.inputWeight d))
  ∧ (Script.isReady st = true →
     ∃ number rest,
       Script.generateNewFilename st
       = number ++ js "_" ++ partName ++ js "_" ++ trim (Script.inputWeight d)
         ++ js "_" ++ rest).
Proof.
  intros Hv d partName.
  pose proof (proj1 (validateInputs_true st) Hv)
    as (Hpart & Hweight & Hallowed & _ & Hmat & Hproc).
  fold d in Hpart, Hweight, Hallowed, Hmat, Hproc.
  pose proof (weightAllowed_sanitized _ Hallowed) as Hw.
  assert (Script.sanitizeFilename (trim (Script.inputWeight d)) = trim (Script.inputWeight d))
    as Hweq.
  { rewrite sanitizeFilename_truthy by done. by apply sanitized_clean. }
  assert (Script.filenameFields st !! 1%nat = Some partName) as H1.
  { unfold Script.filenameFields. cbn [lookup list_lookup Script.getInputValues Script.partName].
    fold d. by rewrite sanitizeFilename_truthy. }
  assert (Script.filenameFields st !! 2%nat = Some (trim (Script.inputWeight d))) as H2.
  { unfold Script.filenameFields. cbn [lookup list_lookup Script.getInputValues Script.weight].
    fold d. by rewrite Hweq. }
  split; [done|]. split; [done|]. split; [apply clean_sanitized|]. split; [done|].
  intros Hready. unfold Script.generateNewFilename. rewrite Hready.
  cbn [negb Script.getInputValues Script.partName Script.material Script.processing_].
  fold d.
  apply truthy_true in Hpart, Hmat, Hproc. rewrite Hpart, Hmat, Hproc. cbn [negb orb].
  unfold Script.filenameFields.
  cbn [Script.getInputValues Script.partName Script.weight]. fold d.
  rewrite Hweq, sanitizeFilename_truthy by (by apply truthy_true).
  fold partName. cbn [joinUnderscore]. eauto.
Qed.

Lemma script_fields_sanitized_witness :
  sanitized (Script.clean (trim (js "  Bracket <A>   left? "))).
Proof.
  apply (script_fields_sanitized
           (scriptState (scriptInputs "  Bracket <A>   left? " "12.5" "Aluminum"))).
  reflexivity.
Defined.

(** ** Identifiers that the tables do not hold *)

(** [app.js] has no placeholder: the missing identifier is printed as
    [undefined]. *)
Lemma app_placeholder_counterexample :
  ¬ (∀ st : App.State,
       App.validateForm st = true →
       App.materialNameToId st !! App.materialSelect (App.form st) = None →
       App.filenameFields st !! 4%nat = Some (js "???")).
Proof.
  intros H. specialize (H steelState eq_refl).
  assert (App.filenameFields steelState !! 4%nat = Some (js "???")) as E
    by (apply H; vm_compute; reflexivity).
  vm_compute in E. discriminate E.
Qed.

Example generateFilename_steel :
  App.generateFilename steelState = js "1_Bracket_12.5_kg_undefined_P02_I03_P_0".
Proof. vm_compute. reflexivity. Qed.

Lemma getProperty_own {V} (t : gmap jsstring V) (k : jsstring) (v : V) :
  t !! k = Some v → getProperty t k = Own v.
Proof. unfold getProperty. by intros ->. Qed.

Lemma getProperty_undefined {V} (t : gmap jsstring V) (k : jsstring) :
  t !! k = None → k ∉ prototypeKeys → getProperty t k = Undefined.
Proof. unfold getProperty. intros -> Hk. by rewrite bool_decide_eq_false_2. Qed.

Lemma getProperty_inherited {V} (t : gmap jsstring V) (k : jsstring) :
  t !! k = None → k ∈ prototypeKeys → getProperty t k = Inherited.
Proof. unfold getProperty. intros -> Hk. by rewrite bool_decide_eq_true_2. Qed.

Lemma idOrPlaceholder_missing (t : gmap jsstring jsstring) (k : jsstring) :
  t !! k = None → k ∉ prototypeKeys → Script.idOrPlaceholder t k = js "???".
Proof.
  intros Hk Hp. unfold Script.idOrPlaceholder. by rewrite getProperty_undefined.
Qed.

Lemma idOrPlaceholder_inherited (t : gmap jsstring jsstring) (k : jsstring) :
  t !! k = None → k ∈ prototypeKeys → Script.idOrPlaceholder t k = inheritedText k.
Proof.
  intros Hk Hp. unfold Script.idOrPlaceholder. by rewrite getProperty_inherited.
Qed.

Lemma idOrPlaceholder_found (t : gmap jsstring jsstring) (k id : jsstring) :
  t !! k = Some id → id ≠ [] → Script.idOrPlaceholder t k = id.
Proof.
  intros Hk Hne. unfold Script.idOrPlaceholder. rewrite (getProperty_own t k id Hk).
  by destruct id.
Qed.

(** C5, as the code has it.  In [script.js], for every accepted form, once
    the tables and the images are loaded, [generateNewFilename] returns the
    composed name, in which the identifier of a material or of a processing
    method that has no entry in its table is the placeholder [???], unless
    its name is the name of a member of [Object.prototype], which the
    lookup finds and the name embeds as text; an identifier that is found
    stands as it is.  ([script.js] has no implementer, and [app.js] no
    placeholder.) *)
Theorem script_placeholder (st : Script.State) :
  Script.isReady st = true → Script.validateInputs st = true →
  let d := Script.dom st in
  ∃ matId procId,
    Script.generateNewFilename st
    = toString (N.of_nat (Script.currentIndex st) + 1) ++ js "_"
      ++ Script.sanitizeFilename (trim (Script.inputPartName d)) ++ js "_"
      ++ Script.sanitizeFilename (trim (Script.inputWeight d)) ++ js "_"
      ++ Script.inputUnit d ++ js "_" ++ matId ++ js "_" ++ procId ++ js "_"
      ++ Script.inputPhotoType d ++ js "_" ++ Script.inputNotes d
    ∧ (Script.materialNameToId st !! Script.inputMaterial d = None →
       (Script.inputMaterial d ∉ prototypeKeys → matId = js "???")
       ∧ (Script.inputMaterial d ∈ prototypeKeys →
          matId = inheritedText (Script.inputMaterial d)))
    ∧ (Script.processing st !! Script.inputProcessing d = None →
       (Script.inputProcessing d ∉ prototypeKeys → procId = js "???")
       ∧ (Script.inputProcessing d ∈ prototypeKeys →
          procId = inheritedText (Script.inputProcessing d)))
    ∧ (∀ id, Script.materialNameToId st !! Script.inputMaterial d = Some id →
             id ≠ [] → matId = id)
    ∧ (∀ id, Script.processing st !! Script.inputProcessing d = Some id →
             id ≠ [] → procId = id).
Proof.
  intros Hready Hv d.
  pose proof (proj1 (validateInputs_true st) Hv) as (Hpart & _ & _ & _ & Hmat & Hproc).
  fold d in Hpart, Hmat, Hproc.
  exists (Script.idOrPlaceholder (Script.materialNameToId st) (Script.inputMaterial d)),
         (Script.idOrPlaceholder (Script.processing st) (Script.inputProcessing d)).
  split; [|split; [|split; [|split]]].
  - unfold Script.generateNewFilename. rewrite Hready.
    cbn [negb Script.getInputValues Script.partName Script.material Script.processing_].
    fold d. apply truthy_true in Hpart, Hmat, Hproc.
    rewrite Hpart, Hmat, Hproc. cbn [negb orb].
    unfold Script.filenameFields.
    cbn [Script.getInputValues Script.partName Script.weight Script.unit
         Script.material Script.processing_ Script.photoType Script.notes
         joinUnderscore].
    fold d. reflexivity.
  - intros Hk. split; [by apply idOrPlaceholder_missing|by apply idOrPlaceholder_inherited].
  - intros Hk. split; [by apply idOrPlaceholder_missing|by apply idOrPlaceholder_inherited].
  - apply idOrPlaceholder_found.
  - apply idOrPlaceholder_found.
Qed.

Lemma script_placeholder_witness :
  Script.generateNewFilename (scriptState (scriptInputs "Bracket" "12.5" "Steel"))
  = js "1_Bracket_12.5_kg_???_P02_P_0".
Proof.
  destruct (script_placeholder (scriptState (scriptInputs "Bracket" "12.5" "Steel")))
    as (matId & procId & Hname & Hmat & _ & _ & Hproc); [reflexivity | reflexivity |].
  destruct Hmat as [Hmat _]; [vm_compute; reflexivity|].
  rewrite Hname, Hmat, (Hproc (js "P02")); [reflexivity | | |].
  - vm_compute. reflexivity.
  - discriminate.
  - apply (bool_decide_unpack _). vm_compute. reflexivity.
Defined.

(** A material named as a member of [Object.prototype] and absent from
    the table gets the text of the member. *)
Example generateNewFilename_inherited :
  Script.generateNewFilename (scriptState (scriptInputs "Bracket" "12.5" "constructor"))
  = js "1_Bracket_12.5_kg_function Object() { [native code] }_P02_P_0".
Proof. vm_compute. reflexivity. Qed.

(** ** The extension *)

Lemma split_no_sep (sep : N) (s : jsstring) : sep ∉ s → split sep s = [s].
Proof.
  induction s as [|c s IH]; [done|]. intros Hnot.
  apply not_elem_of_cons in Hnot as [Hne Hnot]. simpl.
  assert ((c =? sep) = false) as -> by (apply N.eqb_neq; congruence).
  by rewrite IH.
Qed.

(** Without a dot in the name, what [split('.').pop()] returns is the whole
    name. *)
Lemma pop_split_no_dot (s : jsstring) : 46 ∉ s → pop (split 46 s) = s.
Proof. intros H. by rewrite split_no_sep. Qed.

Lemma pop_cons (a : jsstring) (l : list jsstring) : l ≠ [] → pop (a :: l) = pop l.
Proof. by destruct l. Qed.

(** With a dot, it is what follows the last one. *)
Lemma pop_split_last_dot (base ext : jsstring) :
  46 ∉ ext → pop (split 46 (base ++ 46 :: ext)) = ext.
Proof.
  intros Hext. induction base as [|c base IH]; simpl.
  - rewrite pop_cons by apply split_nonempty. by apply pop_split_no_dot.
  - destruct (c =? 46).
    + rewrite pop_cons by apply split_nonempty. exact IH.
    + destruct (split 46 (base ++ 46 :: ext)) as [|piece pieces] eqn:E.
      { by apply split_nonempty in E. }
      destruct pieces as [|piece' pieces'].
      * (* one piece only: impossible, the dot separates two *)
        exfalso. rewrite split_spans in E.
        assert (∀ l, dropWhile (λ c, negb (c =? 46)) (l ++ 46 :: ext) ≠ []) as Hd.
        { clear. induction l as [|x l IHl]; simpl; [done|]. by destruct (negb _). }
        specialize (Hd base).
        destruct (dropWhile _ _) as [|? r]; [done|].
        injection E as _ E. by apply split_nonempty in E.
      * rewrite pop_cons by done. rewrite pop_cons in IH by done. exact IH.
Qed.

(** C8: the code at an image whose name has no dot.  Both variants append
    a dot and the whole original name to the generated name. *)
Theorem applyAndNext_without_dot :
  App.fullFilename <$>
    App.mapGet (js "IMG_002") (App.processedFiles (App.applyAndNext noDotState))
  = Some (js "1_Bracket_12.5_kg_M01_P02_I03_P_0.IMG_002")
  ∧ Script.renamedFiles (Script.applyAndNext scriptNoDotState) !! js "IMG_002"
    = Some (js "2_Bracket_12.5_kg_M01_P02_P_0.IMG_002").
Proof. split; vm_compute; reflexivity. Qed.

(** The extension that [applyAndNext] of [app.js] records. *)
Lemma app_extension_after_last_dot (st : App.State) (file : App.File)
    (base ext : jsstring) :
  App.validateForm st = true →
  App.imageFiles st !! App.currentIndex st = Some file →
  App.name file = base ++ 46 :: ext → 46 ∉ ext →
  App.extension <$> App.mapGet (App.name file) (App.processedFiles (App.applyAndNext st))
  = Some ext.
Proof.
  intros Hv Hf Hname Hext.
  rewrite (applyAndNext_processedFiles st file Hv Hf), mapGet_mapSet_eq.
  cbn [fmap option_fmap option_map App.extension].
  by rewrite Hname, pop_split_last_dot.
Qed.

Lemma app_extension_no_dot (st : App.State) (file : App.File) :
  App.validateForm st = true →
  App.imageFiles st !! App.currentIndex st = Some file →
  46 ∉ App.name file →
  App.fullFilename <$> App.mapGet (App.name file) (App.processedFiles (App.applyAndNext st))
  = Some (App.generateFilename st ++ js "." ++ App.name file).
Proof.
  intros Hv Hf Hname.
  rewrite (applyAndNext_processedFiles st file Hv Hf), mapGet_mapSet_eq.
  cbn [fmap option_fmap option_map]. unfold App.fullFilename.
  cbn [App.newName App.extension]. by rewrite pop_split_no_dot.
Qed.

(** ** The order of the images *)

(** *** Sorting *)

Lemma insertBy_elem {A} (cmp : A → A → number) (x y : A) (l : list A) :
  y ∈ insertBy cmp x l ↔ y = x ∨ y ∈ l.
Proof.
  induction l as [|z l IH]; simpl.
  - rewrite list_elem_of_singleton. split; [by left|]. intros [?|H]; [done|inversion H].
  - destruct (isPositive (cmp x z)).
    + rewrite !elem_of_cons, IH. tauto.
    + rewrite !elem_of_cons. tauto.
Qed.

Lemma sortBy_elem {A} (cmp : A → A → number) (y : A) (l : list A) :
  y ∈ sortBy cmp l ↔ y ∈ l.
Proof.
  unfold sortBy. induction l as [|x l IH]; simpl; [done|].
  rewrite insertBy_elem, elem_of_cons, IH. done.
Qed.

Lemma insertBy_Permutation {A} (cmp : A → A → number) (x : A) (l : list A) :
  insertBy cmp x l ≡ₚ x :: l.
Proof.
  induction l as [|y l IH]; simpl; [done|].
  destruct (isPositive (cmp x y)); [|done].
  rewrite IH. apply Permutation_swap.
Qed.

(** [sort] rearranges: nothing is lost and nothing is added. *)
Lemma sortBy_Permutation {A} (cmp : A → A → number) (l : list A) :
  sortBy cmp l ≡ₚ l.
Proof.
  unfold sortBy. induction l as [|x l IH]; simpl; [done|].
  by rewrite insertBy_Permutation, IH.
Qed.

Lemma insertBy_map {A B} (f : A → B) (cmp : B → B → number) (cmp' : A → A → number)
    (x : A) (l : list A) :
  (∀ y, y ∈ l → isPositive (cmp (f x) (f y)) = isPositive (cmp' x y)) →
  insertBy cmp (f x) (List.map f l) = List.map f (insertBy cmp' x l).
Proof.
  induction l as [|z l IH]; intros H; simpl; [done|].
  rewrite H by left. destruct (isPositive (cmp' x z)); simpl; [|done].
  rewrite IH; [done|]. intros y Hy. apply H. by right.
Qed.

(** Sorting the images of a list under [f] by [cmp] is sorting the list
    by a comparator [cmp'] that has the sign of [cmp] on the images. *)
Lemma sortBy_map {A B} (f : A → B) (cmp : B → B → number) (cmp' : A → A → number)
    (l : list A) :
  (∀ a b, a ∈ l → b ∈ l → isPositive (cmp (f a) (f b)) = isPositive (cmp' a b)) →
  sortBy cmp (List.map f l) = List.map f (sortBy cmp' l).
Proof.
  unfold sortBy. induction l as [|x l IH]; intros H; simpl; [done|].
  rewrite IH by (intros a b Ha Hb; apply H; by right).
  apply insertBy_map. intros y Hy. apply H; [left|].
  right. by apply (sortBy_elem cmp').
Qed.

(** Sorting by number gives ascending numbers. *)
Lemma sortBy_byNumber_sorted (ns : list N) : StronglySorted N.le (sortBy byNumber ns).
Proof.
  unfold sortBy. induction ns as [|n ns IH]; simpl; [constructor|].
  generalize dependent (foldr (insertBy byNumber) [] ns). clear ns.
  intros l Hl. induction Hl as [|m l Hl IH Hm]; simpl; [by repeat constructor|].
  unfold byNumber at 1. cbn [isPositive].
  destruct (Z.ltb_spec 0 (Z.of_N n - Z.of_N m)) as [Hlt|Hge].
  - constructor; [exact IH|].
    apply Forall_forall. intros k Hk. apply insertBy_elem in Hk as [->|Hk]; [lia|].
    rewrite Forall_forall in Hm. by apply Hm.
  - constructor; [by constructor|].
    constructor; [lia|]. eapply Forall_impl; [exact Hm|]. intros k Hk. simpl in Hk. lia.
Qed.

Lemma isPositive_sgn (x y : Z) :
  Z.sgn x = Z.sgn y → isPositive (Fin x) = isPositive (Fin y).
Proof. by destruct x, y. Qed.

Lemma codeUnitCompare_refl (s : jsstring) : codeUnitCompare s s = 0%Z.
Proof. induction s as [|c s IH]; simpl; [done|]. by rewrite N.ltb_irrefl. Qed.

(** *** The matches of [naturalSort] *)

Lemma runs_head (c : N) (s : jsstring) :
  ∃ r rest, App.runs (c :: s) = (isDigit c, r) :: rest.
Proof.
  cbn [App.runs]. destruct (App.runs s) as [|[d r] rest]; [eauto|].
  destruct (Bool.eqb d (isDigit c)) eqn:E; [|eauto].
  apply Bool.eqb_prop in E. subst. eauto.
Qed.

(** A maximal run of digits, or of other code units, is one match. *)
Lemma runs_run (d : bool) (a b : jsstring) :
  a ≠ [] → Forall (λ c, isDigit c = d) a →
  match b with [] => True | c :: _ => isDigit c = negb d end →
  App.runs (a ++ b) = (d, a) :: App.runs b.
Proof.
  intros Hne Ha Hb. induction Ha as [|c a Hc Ha IH]; [done|].
  destruct a as [|c' a'].
  - cbn [app App.runs]. destruct b as [|c' b']; [by rewrite Hc|].
    destruct (runs_head c' b') as (r & rest & E). rewrite E, Hb, Hc.
    by destruct d.
  - change ((c :: c' :: a') ++ b) with (c :: ((c' :: a') ++ b)).
    cbn [App.runs]. rewrite IH by done. rewrite Hc.
    by destruct d.
Qed.

Lemma runs_cons (c : N) (s : jsstring) :
  App.runs (c :: s) =
    match App.runs s with
    | (d, r) :: rest =>
        if Bool.eqb d (isDigit c) then (d, c :: r) :: rest
        else (isDigit c, [c]) :: (d, r) :: rest
    | [] => [(isDigit c, [c])]
    end.
Proof. reflexivity. Qed.

(** The matches of a text that does not end in a digit, followed by a
    text that begins with one, are the matches of the two. *)
Lemma runs_app (p rest : jsstring) :
  noTrailingDigit p →
  match rest with [] => True | c :: _ => isDigit c = true end →
  App.runs (p ++ rest) = App.runs p ++ App.runs rest.
Proof.
  intros Hp Hrest. induction p as [|c p IH]; [done|].
  destruct p as [|c' p'].
  - unfold noTrailingDigit in Hp. simpl in Hp. cbn [app App.runs].
    destruct rest as [|d rest']; [done|].
    destruct (runs_head d rest') as (r & more & E). rewrite E, Hrest, Hp. done.
  - change ((c :: c' :: p') ++ rest) with (c :: ((c' :: p') ++ rest)).
    rewrite (runs_cons c ((c' :: p') ++ rest)), (runs_cons c (c' :: p')).
    rewrite IH by exact Hp.
    destruct (runs_head c' p') as (r & more & E). rewrite E. cbn [app].
    by destruct (Bool.eqb _ _).
Qed.

Lemma tokens_app (p rest : jsstring) :
  noTrailingDigit p →
  match rest with [] => True | c :: _ => isDigit c = true end →
  App.tokens (p ++ rest) = App.tokens p ++ App.tokens rest.
Proof. intros Hp Hrest. unfold App.tokens. by rewrite runs_app, map_app. Qed.


Lemma tokens_digits (ds rest : jsstring) :
  ds ≠ [] → Forall (λ c, isDigit c = true) ds → noLeadingDigit rest →
  App.tokens (ds ++ rest) = (App.Digits ds, []) :: App.tokens rest.
Proof.
  intros Hne Hd Hrest. unfold App.tokens. rewrite (runs_run true); [done..|].
  by destruct rest.
Qed.

Lemma tokens_toString (n : N) (rest : jsstring) :
  noLeadingDigit rest →
  App.tokens (toString n ++ rest) = (App.Digits (toString n), []) :: App.tokens rest.
Proof.
  intros Hr. apply tokens_digits; [apply toString_nonempty | apply toString_digits | done].
Qed.

Lemma toString_head (n : N) (rest : jsstring) :
  match toString n ++ rest with [] => True | c :: _ => isDigit c = true end.
Proof.
  pose proof (toString_nonempty n) as Hne. pose proof (toString_digits n) as Hd.
  destruct (toString n) as [|c ds]; [done|]. by inversion Hd.
Qed.

(** *** The difference of two doubles *)


Lemma roundInt_small (z : Z) : (Z.abs z < Z.of_N exactBelow)%Z → roundInt z = z.
Proof.
  intros Hz. unfold roundInt. rewrite roundNat_small by lia.
  rewrite N2Z.inj_abs_N. lia.
Qed.

Lemma roundInt_sgn (z : Z) : Z.sgn (roundInt z) = Z.sgn z.
Proof.
  unfold roundInt. destruct (decide (z = 0%Z)) as [->|Hz]; [done|].
  assert (0 < roundNat (Z.abs_N z)) as Hpos by (apply roundNat_pos; lia).
  destruct z as [|q|q]; [done|..].
  - change (Z.sgn (Z.pos q)) with 1%Z. apply Z.sgn_pos. lia.
  - change (Z.sgn (Z.neg q)) with (-1)%Z. apply Z.sgn_neg. lia.
Qed.

(** *** Under a collation of the host *)

Section Collation.

(** The host's [localeCompare]: any function that finds a string equal to
    itself. *)
Variable localeCompare : jsstring → jsstring → Z.
Hypothesis localeCompare_refl : ∀ s, localeCompare s s = 0%Z.


Lemma compareTokens_same (token : App.key * jsstring)
    (ax bx : list (App.key * jsstring)) :
  App.compareTokens localeCompare (token :: ax) (token :: bx)
  = App.compareTokens localeCompare ax bx.
Proof.
  cbn [App.compareTokens]. rewrite localeCompare_refl.
  assert (numTruthy (sub (App.keyNumber token.1) (App.keyNumber token.1)) = false) as ->.
  { destruct token as [[ds|] t]; simpl; [|done]. by rewrite Z.sub_diag. }
  done.
Qed.

(** The matches that two names share at their beginning do not decide. *)
Lemma compareTokens_common (common ax bx : list (App.key * jsstring)) :
  App.compareTokens localeCompare (common ++ ax) (common ++ bx)
  = App.compareTokens localeCompare ax bx.
Proof.
  induction common as [|token common IH]; [done|].
  cbn [app]. by rewrite compareTokens_same.
Qed.

Lemma compareTokens_digits (ds ds' : jsstring) (ax bx : list (App.key * jsstring)) :
  roundNat (decimalValue ds) ≠ roundNat (decimalValue ds') →
  App.compareTokens localeCompare ((App.Digits ds, []) :: ax) ((App.Digits ds', []) :: bx)
  = Fin (roundInt (Z.of_N (roundNat (decimalValue ds))
                   - Z.of_N (roundNat (decimalValue ds')))).
Proof.
  intros H. cbn [App.compareTokens fst snd App.keyNumber sub].
  set (z := (Z.of_N _ - Z.of_N _)%Z).
  assert (numTruthy (Fin (roundInt z)) = true) as Hne.
  { simpl. apply negb_true_iff, Z.eqb_neq. pose proof (roundInt_sgn z). subst z. lia. }
  by rewrite !Hne.
Qed.

Lemma compareTokens_refl (ax : list (App.key * jsstring)) :
  App.compareTokens localeCompare ax ax = Fin 0.
Proof.
  rewrite <- (app_nil_r ax). by rewrite compareTokens_common.
Qed.

(** [naturalSort] compares embedded runs of digits as numbers: two names
    with the same text before a number below 2^53 are ordered by the
    numbers. *)
Lemma naturalSort_numeric (p q q' : jsstring) (n m : N) :
  noTrailingDigit p → noLeadingDigit q → noLeadingDigit q' →
  safeNumber n → safeNumber m → n ≠ m →
  App.naturalSort localeCompare (p ++ toString n ++ q) (p ++ toString m ++ q')
  = byNumber n m.
Proof.
  intros Hp Hq Hq' Hn Hm Hnm. unfold App.naturalSort, byNumber.
  rewrite (tokens_app p (toString n ++ q)), (tokens_app p (toString m ++ q'))
    by (done || apply toString_head).
  rewrite compareTokens_common, !tokens_toString by done.
  unfold safeNumber in *.
  rewrite compareTokens_digits; rewrite !decimalValue_toString, !roundNat_small by done;
    [|done].
  f_equal. apply roundInt_small. lia.
Qed.

Lemma naturalSort_sign (p q : jsstring) (n m : N) :
  noTrailingDigit p → noLeadingDigit q → safeNumber n → safeNumber m →
  isPositive (App.naturalSort localeCompare (p ++ toString n ++ q) (p ++ toString m ++ q))
  = isPositive (byNumber n m).
Proof.
  intros Hp Hq Hn Hm. destruct (decide (n = m)) as [->|Hne].
  - unfold App.naturalSort, byNumber. rewrite compareTokens_refl.
    by rewrite Z.sub_diag.
  - by rewrite naturalSort_numeric.
Qed.

(** Names that share their text and differ in an embedded number are
    sorted by the number. *)
Lemma naturalSort_numbered (p q : jsstring) (ns : list N) :
  noTrailingDigit p → noLeadingDigit q → Forall safeNumber ns →
  sortBy (App.naturalSort localeCompare) (List.map (λ n, p ++ toString n ++ q) ns)
  = List.map (λ n, p ++ toString n ++ q) (sortBy byNumber ns).
Proof.
  intros Hp Hq Hsafe. rewrite Forall_forall in Hsafe.
  apply sortBy_map. intros a b Ha Hb. apply naturalSort_sign; auto.
Qed.

Lemma handleImageUpload_numbered (st : App.State) (p q : jsstring) (ns : list N) :
  noTrailingDigit p → noLeadingDigit q → Forall safeNumber ns → ns ≠ [] →
  App.name <$>
    App.imageFiles
      (App.handleImageUpload localeCompare
         (List.map (λ n, App.mkFile (p ++ toString n ++ q) []) ns) st)
  = List.map (λ n, p ++ toString n ++ q) (sortBy byNumber ns).
Proof.
  intros Hp Hq Hsafe Hne. rewrite Forall_forall in Hsafe.
  set (file := λ n, App.mkFile (p ++ toString n ++ q) []).
  assert (App.imageFiles (App.handleImageUpload localeCompare (List.map file ns) st)
          = sortBy (λ a b, App.naturalSort localeCompare (App.name a) (App.name b))
              (List.map file ns)) as ->.
  { unfold App.handleImageUpload. destruct ns as [|n ns']; [done|].
    cbn [List.map]. by destruct (App.checkReadyState _ _). }
  rewrite (sortBy_map file _ byNumber).
  - rewrite <- list_fmap_compose. done.
  - intros a b Ha Hb. cbn [file App.name]. apply naturalSort_sign; auto.
Qed.

Lemma handleImagesLoad_collation (st : Script.State) (lc' : jsstring → jsstring → Z)
    (files : list Script.File) :
  files ≠ [] →
  agreeOn localeCompare lc' (Script.name <$> files) →
  Script.images (Script.handleImagesLoad localeCompare files st)
  = Script.images (Script.handleImagesLoad lc' files st).
Proof.
  intros Hne Hagree. unfold Script.handleImagesLoad.
  destruct files as [|file files']; [done|]. cbn [Script.images].
  rewrite <- (map_id (file :: files')) at 1.
  rewrite (sortBy_map id _ (λ a b, Fin (lc' (Script.name a) (Script.name b)))).
  - by rewrite map_id.
  - intros a b Ha Hb. apply isPositive_sgn. apply Hagree.
    + by apply (list_elem_of_fmap_2 Script.name) in Ha.
    + by apply (list_elem_of_fmap_2 Script.name) in Hb.
Qed.

(** C9, as the code has it.  [app.js] sorts the imported images with
    [naturalSort], which compares embedded runs of digits as numbers:
    images whose names share their text, with whatever numbers in it, and
    differ in one embedded number below 2^53 come in the order of that
    number, and [img10.jpg], [img2.jpg], [img1.jpg] become [img1.jpg],
    [img2.jpg], [img10.jpg].  [script.js] sorts by [localeCompare] of the
    names alone; under a collation that orders these three names as their
    code units do, they become [img1.jpg], [img10.jpg], [img2.jpg]. *)
Theorem import_order :
  (∀ (st : App.State) (p q : jsstring) (ns : list N),
     noTrailingDigit p → noLeadingDigit q → Forall safeNumber ns →
     ns ≠ [] →
     App.name <$>
       App.imageFiles
         (App.handleImageUpload localeCompare
            (List.map (λ n, App.mkFile (p ++ toString n ++ q) []) ns) st)
     = List.map (λ n, p ++ toString n ++ q) (sortBy byNumber ns))
  ∧ (∀ st : App.State,
       App.name <$>
         App.imageFiles
           (App.handleImageUpload localeCompare (exampleFile <$> importedNames) st)
       = js <$> ["img1.jpg"; "img2.jpg"; "img10.jpg"]%string)
  ∧ (agreeOn localeCompare codeUnitCompare (js <$> importedNames) →
     ∀ st : Script.State,
       Script.name <$>
         Script.images
           (Script.handleImagesLoad localeCompare (scriptFile <$> importedNames) st)
       = js <$> ["img1.jpg"; "img10.jpg"; "img2.jpg"]%string).
Proof.
  split; [|split].
  - intros st p q ns. apply handleImageUpload_numbered.
  - intros st.
    exact (handleImageUpload_numbered st (js "img") (js ".jpg") [10; 2; 1]
             eq_refl eq_refl ltac:(by repeat constructor) ltac:(done)).
  - intros Hagree st.
    rewrite (handleImagesLoad_collation st codeUnitCompare) by done.
    vm_compute. reflexivity.
Qed.

End Collation.

(** [script.js] sorts by the collation alone: [img10.jpg] comes before
    [img2.jpg]. *)
Lemma script_import_counterexample :
  Script.name <$>
    Script.images
      (Script.handleImagesLoad codeUnitCompare (scriptFile <$> importedNames)
         (scriptState (scriptInputs "" "" "")))
  ≠ js <$> ["img1.jpg"; "img2.jpg"; "img10.jpg"]%string.
Proof. vm_compute. discriminate. Qed.

Lemma import_order_witness :
  App.name <$>
    App.imageFiles
      (App.handleImageUpload codeUnitCompare (exampleFile <$> importedNames) scenarioState)
  = js <$> ["img1.jpg"; "img2.jpg"; "img10.jpg"]%string
  ∧ Script.name <$>
      Script.images
        (Script.handleImagesLoad codeUnitCompare (scriptFile <$> importedNames)
           (scriptState (scriptInputs "" "" "")))
    = js <$> ["img1.jpg"; "img10.jpg"; "img2.jpg"]%string.
Proof.
  destruct (import_order codeUnitCompare codeUnitCompare_refl) as (_ & Happ & Hscript).
  split; [apply Happ|]. apply Hscript. intros a b _ _. reflexivity.
Defined.

(** ** What a confirmation leaves unchanged *)

(** C10. When validation passes, [applyAndNext] writes the ledger entry
    keyed by the name of the current image and moves the cursor by one
    unless it stands on the last image; every other ledger entry, the
    image sequence and all lookup tables are as before.  (In [app.js] it
    also appends to the list of processed names on the page and writes the
    next number into the number field.) *)
Theorem applyAndNext_frame :
  (∀ st : App.State,
     App.validateForm st = true →
     let st' := App.applyAndNext st in
     App.materials st' = App.materials st
     ∧ App.processingMethods st' = App.processingMethods st
     ∧ App.implementers st' = App.implementers st
     ∧ App.materialCategories st' = App.materialCategories st
     ∧ App.materialNameToId st' = App.materialNameToId st
     ∧ App.imageFiles st' = App.imageFiles st
     ∧ (∀ k, (∀ file, App.imageFiles st !! App.currentIndex st = Some file →
                     k ≠ App.name file) →
             App.mapGet k (App.processedFiles st') = App.mapGet k (App.processedFiles st))
     ∧ App.currentIndex st' =
         (if (App.currentIndex st + 1 <? length (App.imageFiles st))%nat
          then App.currentIndex st + 1 else App.currentIndex st)%nat)
  ∧ (∀ st : Script.State,
       Script.validateInputs st = true →
       let st' := Script.applyAndNext st in
       Script.materials st' = Script.materials st
       ∧ Script.materialCategories st' = Script.materialCategories st
       ∧ Script.materialNameToId st' = Script.materialNameToId st
       ∧ Script.processing st' = Script.processing st
       ∧ Script.images st' = Script.images st
       ∧ (∀ k, (∀ file, Script.images st !! Script.currentIndex st = Some file →
                       k ≠ Script.name file) →
               Script.renamedFiles st' !! k = Script.renamedFiles st !! k)
       ∧ Script.currentIndex st' =
           (if (Script.currentIndex st + 1 <? length (Script.images st))%nat
            then Script.currentIndex st + 1 else Script.currentIndex st)%nat).
Proof.
  assert (∀ i n : nat, (Z.of_nat i <? Z.of_nat n - 1)%Z = (i + 1 <? n)%nat) as Hcmp.
  { intros i n. destruct (Nat.ltb_spec (i + 1) n); [apply Z.ltb_lt|apply Z.ltb_ge]; lia. }
  split.
  - intros st Hv st'. subst st'. unfold App.applyAndNext. rewrite Hv. cbn [negb].
    destruct (App.imageFiles st !! App.currentIndex st) as [file|] eqn:Hfile.
    + cbn zeta. rewrite Hcmp. cbn [App.withProcessed App.currentIndex App.imageFiles].
      destruct (App.currentIndex st + 1 <? length (App.imageFiles st))%nat;
        (repeat split; try done);
        intros k Hk; cbn [App.processedFiles App.autoSetNumber App.withForm
          App.withCurrentIndex App.withProcessed];
        apply mapGet_mapSet_ne; by apply Hk.
    + repeat split; try done.
      apply lookup_ge_None in Hfile.
      destruct (Nat.ltb_spec (App.currentIndex st + 1) (length (App.imageFiles st))); [lia|done].
  - intros st Hv st'. subst st'. unfold Script.applyAndNext. rewrite Hv. cbn [negb].
    destruct (Script.images st !! Script.currentIndex st) as [file|] eqn:Hfile.
    + cbn zeta. rewrite Hcmp. cbn [Script.withRenamed Script.currentIndex Script.images].
      destruct (Script.currentIndex st + 1 <? length (Script.images st))%nat;
        (repeat split; try done);
        intros k Hk; cbn [Script.renamedFiles Script.withCurrentIndex Script.withRenamed];
        apply lookup_insert_ne; intros E; by apply (Hk file).
    + repeat split; try done.
      apply lookup_ge_None in Hfile.
      destruct (Nat.ltb_spec (Script.currentIndex st + 1) (length (Script.images st))); [lia|done].
Qed.

Lemma applyAndNext_frame_witness :
  App.imageFiles (App.applyAndNext scenarioState) = App.imageFiles scenarioState
  ∧ Script.images (Script.applyAndNext (scriptState (scriptInputs "Bracket" "12.5" "Aluminum")))
    = Script.images (scriptState (scriptInputs "Bracket" "12.5" "Aluminum")).
Proof.
  destruct applyAndNext_frame as [Happ Hscript]. split.
  - apply (Happ scenarioState). reflexivity.
  - apply (Hscript (scriptState (scriptInputs "Bracket" "12.5" "Aluminum"))). reflexivity.
Defined.

(** * Further properties of the code *)

(** ** The session of [app.js] *)

Lemma mapSet_keys {V} (k : jsstring) (v : V) (m : list (jsstring * V)) :
  (App.mapSet k v m).*1 = if decide (k ∈ m.*1) then m.*1 else m.*1 ++ [k].
Proof.
  induction m as [|[k' v'] m IH].
  - cbn [App.mapSet fmap list_fmap fst app]. case_decide as H; [inversion H|done].
  - cbn [App.mapSet]. destruct (decide (k' = k)) as [->|Hne].
    + cbn [fmap list_fmap fst]. rewrite decide_True; [done|]. left.
    + cbn [fmap list_fmap fst]. fold (fmap (M := list) (@fst jsstring V)).
      rewrite IH. case_decide as Hin.
      * rewrite decide_True; [done|]. by right.
      * rewrite decide_False; [done|].
        intros [?|?]%elem_of_cons; [congruence|done].
Qed.

Lemma mapGet_None_keys {V} (k : jsstring) (m : list (jsstring * V)) :
  App.mapGet k m = None ↔ k ∉ m.*1.
Proof.
  induction m as [|[k' v'] m IH]; simpl.
  - split; [|done]. intros _ H. inversion H.
  - destruct (decide (k' = k)) as [->|Hne].
    + split; [done|]. intros H. exfalso. apply H. left.
    + rewrite IH, not_elem_of_cons. split; [by intros ?; split|by intros [_ ?]].
Qed.

Lemma applyAndNext_tables (st : App.State) :
  App.materialNameToId (App.applyAndNext st) = App.materialNameToId st
  ∧ App.processingMethods (App.applyAndNext st) = App.processingMethods st
  ∧ App.implementers (App.applyAndNext st) = App.implementers st.
Proof.
  unfold App.applyAndNext. destruct (negb _); [done|].
  destruct (_ !! _); [|done]. by destruct (_ <? _)%Z.
Qed.

Lemma applyAndNext_currentIndex (st : App.State) :
  App.currentIndex (App.applyAndNext st) = App.currentIndex st
  ∨ (App.currentIndex (App.applyAndNext st) = S (App.currentIndex st)
     ∧ (S (App.currentIndex st) < length (App.imageFiles st))%nat).
Proof.
  destruct (App.validateForm st) eqn:Hv;
    [|by left; unfold App.applyAndNext; rewrite Hv].
  destruct (App.imageFiles st !! App.currentIndex st) as [file|] eqn:Hf;
    [|by left; unfold App.applyAndNext; rewrite Hv, Hf].
  rewrite (applyAndNext_confirm st file Hv Hf).
  destruct (Z.ltb_spec (Z.of_nat (App.currentIndex st))
              (Z.of_nat (length (App.imageFiles st)) - 1)) as [Hlt|Hge].
  - right. simpl. split; lia.
  - by left.
Qed.

(** X1. The cursor never leaves the image sequence: confirming, going
    back and importing images keep it on an image (or at 0 when there is
    none). *)
Theorem app_cursor_within (lc : jsstring → jsstring → Z) (files : list App.File)
    (st : App.State) :
  cursorOk (App.currentIndex st) (length (App.imageFiles st)) →
  cursorOk (App.currentIndex (App.applyAndNext st))
    (length (App.imageFiles (App.applyAndNext st)))
  ∧ cursorOk (App.currentIndex (App.navigatePrevious st))
      (length (App.imageFiles (App.navigatePrevious st)))
  ∧ cursorOk (App.currentIndex (App.handleImageUpload lc files st))
      (length (App.imageFiles (App.handleImageUpload lc files st))).
Proof.
  intros Hok. split; [|split].
  - rewrite applyAndNext_imageFiles.
    destruct (applyAndNext_currentIndex st) as [-> | [-> Hlt]]; [done|by right].
  - unfold App.navigatePrevious.
    destruct (Nat.ltb_spec 0 (App.currentIndex st)) as [Hpos|Hzero]; [|done].
    simpl. right. destruct Hok as [Hz|Hlt]; lia.
  - unfold App.handleImageUpload. destruct files as [|file files']; [done|].
    left. by destruct (App.checkReadyState _ _).
Qed.

Lemma app_cursor_within_witness :
  cursorOk (App.currentIndex (App.applyAndNext noDotState))
    (length (App.imageFiles (App.applyAndNext noDotState))).
Proof.
  apply (app_cursor_within codeUnitCompare [] noDotState). right. vm_compute. lia.
Defined.

(** X2. The keys of the ledger stay names of images of the sequence:
    a confirmation and a step back preserve this, and an import of
    images establishes it. *)
Theorem app_ledger_within (lc : jsstring → jsstring → Z) (files : list App.File)
    (st : App.State) :
  (ledgerWithin st → ledgerWithin (App.applyAndNext st))
  ∧ (ledgerWithin st → ledgerWithin (App.navigatePrevious st))
  ∧ (files ≠ [] → ledgerWithin (App.handleImageUpload lc files st)).
Proof.
  unfold ledgerWithin. split; [|split].
  - intros H. rewrite applyAndNext_imageFiles.
    destruct (App.validateForm st) eqn:Hv;
      [|by unfold App.applyAndNext; rewrite Hv].
    destruct (App.imageFiles st !! App.currentIndex st) as [file|] eqn:Hf;
      [|by unfold App.applyAndNext; rewrite Hv, Hf].
    rewrite (applyAndNext_processedFiles st file Hv Hf), mapSet_keys.
    destruct (decide _); [done|]. apply Forall_app. split; [done|].
    apply Forall_singleton. apply list_elem_of_fmap. exists file. split; [done|].
    by eapply list_elem_of_lookup_2.
  - intros H. unfold App.navigatePrevious. by destruct (_ <? _)%nat.
  - intros Hne. unfold App.handleImageUpload. destruct files as [|file files']; [done|].
    by destruct (App.checkReadyState _ _).
Qed.

Lemma app_ledger_within_witness : ledgerWithin (App.applyAndNext scenarioState).
Proof. apply (app_ledger_within codeUnitCompare [] scenarioState). constructor. Defined.

(** X3. Importing images.  An empty selection changes nothing.  Any other
    selection replaces the sequence by a rearrangement of the selected
    files, puts the cursor on the first image and empties the ledger; the
    lookup tables stay as they are. *)
Theorem handleImageUpload_resets (lc : jsstring → jsstring → Z) (files : list App.File)
    (st : App.State) :
  App.handleImageUpload lc [] st = st
  ∧ (files ≠ [] →
     let st' := App.handleImageUpload lc files st in
     App.imageFiles st' ≡ₚ files
     ∧ App.currentIndex st' = 0%nat
     ∧ App.processedFiles st' = []
     ∧ App.materialNameToId st' = App.materialNameToId st
     ∧ App.processingMethods st' = App.processingMethods st
     ∧ App.implementers st' = App.implementers st
     ∧ App.materialCategories st' = App.materialCategories st).
Proof.
  split; [done|]. intros Hne st'. subst st'. unfold App.handleImageUpload.
  destruct files as [|file files']; [done|].
  destruct (App.checkReadyState _ _);
    (split; [exact (sortBy_Permutation _ (file :: files'))|done]).
Qed.

Lemma handleImageUpload_resets_witness :
  App.processedFiles
    (App.handleImageUpload codeUnitCompare (exampleFile <$> importedNames) reviewState) = [].
Proof.
  apply (handleImageUpload_resets codeUnitCompare (exampleFile <$> importedNames) reviewState).
  discriminate.
Defined.

(** X4. A confirmation writes one entry: when the name of the current
    image is a key of the ledger already, the keys stay as they are, in
    their order (the entry is replaced, the ledger does not grow);
    otherwise the name becomes the last key. *)
Theorem applyAndNext_keys (st : App.State) (file : App.File) :
  App.validateForm st = true →
  App.imageFiles st !! App.currentIndex st = Some file →
  (App.processedFiles (App.applyAndNext st)).*1 =
    if decide (App.name file ∈ (App.processedFiles st).*1)
    then (App.processedFiles st).*1
    else (App.processedFiles st).*1 ++ [App.name file].
Proof.
  intros Hv Hf. rewrite (applyAndNext_processedFiles st file Hv Hf). apply mapSet_keys.
Qed.

Lemma applyAndNext_keys_witness :
  (App.processedFiles (App.applyAndNext (App.applyAndNext noDotState))).*1 = [js "IMG_002"].
Proof.
  rewrite (applyAndNext_keys (App.applyAndNext noDotState) (exampleFile "IMG_002"));
    reflexivity.
Defined.

(** X5. The two gates of [app.js] agree: [validateForm] accepts a form
    exactly when [generateFilename] returns a name for it. *)
Theorem validateForm_generateFilename (st : App.State) :
  App.validateForm st = true ↔ App.generateFilename st ≠ [].
Proof.
  split.
  - intros Hv. rewrite generateFilename_valid by done. apply joinUnderscore_nonempty.
  - unfold App.validateForm, App.generateFilename.
    destruct (truthy (trim _)), (truthy (trim _)), (truthy (App.implementerSelect _)),
      (truthy (App.materialSelect _)), (truthy (App.processingSelect _)); simpl; done.
Qed.

(** What one forward confirmation does to a state that is ready for it. *)
Lemma confirm_step (f : App.Form) (st : App.State) (file : App.File) :
  App.validateForm (App.withForm f st) = true →
  numberProposed st → freshAhead st →
  App.imageFiles st !! App.currentIndex st = Some file →
  let st1 := userFills f st in
  let st' := App.applyAndNext st1 in
  App.processedFiles st' =
    App.processedFiles st
    ++ [(App.name file,
         App.mkEntry (App.generateFilename st1) (pop (split 46 (App.name file))) file)]
  ∧ (∃ rest,
       App.generateFilename st1 = numberToString (App.getNextNumber st) ++ 95 :: rest)
  ∧ ((S (App.currentIndex st) < length (App.imageFiles st))%nat →
     App.currentIndex st' = S (App.currentIndex st)
     ∧ App.numberInput (App.form st') = numberToString (App.getNextNumber st')
     ∧ freshAhead st').
Proof.
  intros Hvalid Hnum [Hdup Hfresh] Hfile st1 st'.
  assert (App.validateForm st1 = true) as Hv1 by exact Hvalid.
  assert (App.imageFiles st1 !! App.currentIndex st1 = Some file) as Hfile1 by exact Hfile.
  rewrite (drop_S _ _ _ Hfile) in Hdup, Hfresh.
  rewrite fmap_cons in Hdup. apply NoDup_cons in Hdup as [Hnotin Hdup].
  apply Forall_cons in Hfresh as [Hnew Hfresh].
  assert (App.processedFiles st' =
    App.processedFiles st
    ++ [(App.name file,
         App.mkEntry (App.generateFilename st1) (pop (split 46 (App.name file))) file)])
    as Hledger.
  { unfold st'. rewrite (applyAndNext_processedFiles st1 file Hv1 Hfile1).
    change (App.processedFiles st1) with (App.processedFiles st).
    by rewrite mapSet_fresh. }
  split; [done|]. split.
  { change (App.getNextNumber st) with (App.getNextNumber st1).
    apply generateFilename_proposed; [done|].
    destruct Hnum as [H|H]; [left|right]; exact H. }
  intros Hlt.
  destruct (applyAndNext_advance st1 file Hv1 Hfile1) as [Hidx Hprop].
  { change (App.currentIndex st1) with (App.currentIndex st).
    change (App.imageFiles st1) with (App.imageFiles st). lia. }
  split; [exact Hidx|]. split; [exact Hprop|].
  unfold freshAhead. rewrite Hledger. subst st'.
  rewrite applyAndNext_imageFiles, Hidx.
  change (App.imageFiles st1) with (App.imageFiles st).
  change (App.currentIndex st1) with (App.currentIndex st).
  split; [done|].
  rewrite Forall_forall in Hfresh. apply Forall_forall. intros file' Hin.
  rewrite <- (mapSet_fresh (App.name file)) by done.
  rewrite mapGet_mapSet_ne; [by apply Hfresh|].
  intros Heq. apply Hnotin. rewrite <- Heq. apply list_elem_of_fmap. eauto.
Qed.

Lemma generateFilename_userFills (f : App.Form) (st : App.State) :
  App.validateForm (App.withForm f st) = true → numberProposed st →
  App.generateFilename (userFills f st) =
    joinUnderscore
      [ numberToString (App.getNextNumber st); trim (App.partNameInput f);
        trim (App.weightInput f); App.unitSelect f;
        App.showId (App.materialNameToId st) (App.materialSelect f);
        App.showId (App.processingMethods st) (App.processingSelect f);
        App.showId (App.implementers st) (App.implementerSelect f);
        App.photoTypeSelect f; App.notesSelect f ].
Proof.
  intros Hv Hn. rewrite generateFilename_valid by exact Hv.
  unfold App.filenameFields, userFills.
  cbn [App.form App.withForm App.withNumberInput App.numberInput App.partNameInput
       App.weightInput App.unitSelect App.materialSelect App.processingSelect
       App.implementerSelect App.photoTypeSelect App.notesSelect
       App.materialNameToId App.processingMethods App.implementers].
  change (App.getNextNumber (App.withForm _ st)) with (App.getNextNumber st).
  by rewrite numberField_proposed.
Qed.

(** The two confirmations of [confirmTwice], when the greatest number of
    the ledger is used up: both get the same proposal and the same
    name. *)
Lemma confirmTwice_steps (f : App.Form) (st : App.State) (file1 file2 : App.File) :
  App.validateForm (App.withForm f st) = true →
  numberProposed st → freshAhead st →
  App.imageFiles st !! App.currentIndex st = Some file1 →
  App.imageFiles st !! S (App.currentIndex st) = Some file2 →
  slotOpen (ledgerNumbers (App.processedFiles st)) = false →
  let name12 := App.generateFilename (userFills f st) in
  App.name file1 ≠ App.name file2
  ∧ App.processedFiles (confirmTwice f st) =
      App.processedFiles st
      ++ [(App.name file1, App.mkEntry name12 (pop (split 46 (App.name file1))) file1);
          (App.name file2, App.mkEntry name12 (pop (split 46 (App.name file2))) file2)]
  ∧ (∃ rest, name12 = numberToString (App.getNextNumber st) ++ 95 :: rest)
  ∧ ((S (S (App.currentIndex st)) < length (App.imageFiles st))%nat →
     App.currentIndex (confirmTwice f st) = S (S (App.currentIndex st))).
Proof.
  intros Hv Hnum Hfresh Hf1 Hf2 Hslot name12. unfold confirmTwice.
  pose proof (lookup_lt_Some _ _ _ Hf2) as Hlt.
  destruct (confirm_step f st file1 Hv Hnum Hfresh Hf1)
    as (Hledger1 & [rest Hname1] & Hadv1).
  destruct (Hadv1 Hlt) as (Hidx1 & Hprop1 & Hfresh1).
  set (s1 := App.applyAndNext (userFills f st)) in *.
  assert (App.getNextNumber s1 = App.getNextNumber st) as Hnext1.
  { apply (recorded_proposal st s1 _ rest Hslot Hledger1). exact Hname1. }
  assert (App.imageFiles s1 = App.imageFiles st) as Himg1
    by exact (applyAndNext_imageFiles (userFills f st)).
  assert (App.imageFiles s1 !! App.currentIndex s1 = Some file2) as Hf2'
    by by rewrite Himg1, Hidx1.
  assert (App.validateForm (App.withForm f s1) = true) as Hv1 by exact Hv.
  destruct (confirm_step f s1 file2 Hv1 (or_intror Hprop1) Hfresh1 Hf2')
    as (Hledger2 & _ & Hadv2).
  set (s2 := App.applyAndNext (userFills f s1)) in *.
  assert (App.generateFilename (userFills f s1) = name12) as Hsame.
  { unfold name12.
    rewrite (generateFilename_userFills f s1), (generateFilename_userFills f st)
      by (done || by right).
    destruct (applyAndNext_tables (userFills f st)) as (Ht1 & Ht2 & Ht3).
    fold s1 in Ht1, Ht2, Ht3. rewrite Ht1, Ht2, Ht3, Hnext1. done. }
  split; [|split; [|split]].
  - destruct Hfresh as [Hdup _].
    rewrite (drop_S _ _ _ Hf1), (drop_S _ _ _ Hf2) in Hdup.
    rewrite !fmap_cons in Hdup. apply NoDup_cons in Hdup as [Hnotin _].
    intros E. apply Hnotin. rewrite E. left.
  - rewrite Hledger2, Hledger1, Hsame, <- app_assoc. done.
  - by exists rest.
  - intros Hlt2. rewrite Himg1, Hidx1 in Hadv2. by destruct (Hadv2 Hlt2) as [-> _].
Qed.

(** Below 2^53, the number of the pair and the next proposal. *)
Lemma confirmTwice_numbers (f : App.Form) (st : App.State) (file1 file2 : App.File)
    (r : N) :
  App.validateForm (App.withForm f st) = true →
  numberProposed st → freshAhead st →
  App.imageFiles st !! App.currentIndex st = Some file1 →
  App.imageFiles st !! S (App.currentIndex st) = Some file2 →
  slotOpen (ledgerNumbers (App.processedFiles st)) = false →
  App.getNextNumber st = Finite r → safeNumber r →
  leadingInteger (App.generateFilename (userFills f st)) = Some r
  ∧ App.getNextNumber (confirmTwice f st) = Finite (r + 1).
Proof.
  intros Hv Hnum Hfresh Hf1 Hf2 Hslot Hr Hsafe.
  destruct (confirmTwice_steps f st file1 file2 Hv Hnum Hfresh Hf1 Hf2 Hslot)
    as (_ & Hledger & [rest Hname] & _).
  assert (leadingInteger (App.generateFilename (userFills f st)) = Some r) as Hlead.
  { rewrite Hname, Hr, numberToString_small by done.
    apply (leadingInteger_toString r rest). }
  split; [done|].
  set (nums := ledgerNumbers (App.processedFiles st)).
  assert (ledgerNumbers (App.processedFiles (confirmTwice f st)) = (nums ++ [r]) ++ [r])
    as Hnums.
  { rewrite Hledger. change [?a; ?b] with ([a] ++ [b]).
    rewrite app_assoc, !ledgerNumbers_snoc. cbn [snd App.newName]. by rewrite Hlead. }
  assert (safeNumber (greatest nums)) as HG.
  { destruct (decide (nums = [])) as [E|Hne]; [by rewrite E|].
    destruct (greatest_read nums Hne) as [_ Hub].
    pose proof (getNextNumber_isDouble st) as Hd.
    assert (doubleLe (toDouble (greatest nums)) (Finite r)) as Hle.
    { rewrite <- Hr, (getNextNumber_greatest st Hne). fold nums.
      destruct (_ <? _)%nat; [apply doubleLe_refl|apply plusOne_ge, toDouble_isDouble]. }
    unfold safeNumber in *.
    destruct (N.lt_ge_cases (greatest nums) exactBelow) as [Hlt|Hge]; [done|].
    exfalso. unfold toDouble in Hle.
    pose proof (roundNat_lower _ Hge) as Hlow.
    destruct (_ <? _); simpl in Hle; [lia|done]. }
  set (st1 := App.withProcessed
                (App.processedFiles st
                 ++ [(App.name file1,
                      App.mkEntry (App.generateFilename (userFills f st))
                        (pop (split 46 (App.name file1))) file1)])
                (App.processedList st) st).
  assert (ledgerNumbers (App.processedFiles st1) = nums ++ [r]) as Hnums1.
  { cbn [st1 App.withProcessed App.processedFiles]. rewrite ledgerNumbers_snoc.
    cbn [snd App.newName]. by rewrite Hlead. }
  destruct (pairRule_step nums st st1 r eq_refl Hr Hsafe HG Hnums1) as [Hnext1 Hslot1].
  fold nums in Hslot. rewrite Hslot in Hnext1, Hslot1. cbn [negb] in Hslot1.
  assert (safeNumber (greatest (nums ++ [r]))) as HG1.
  { rewrite greatest_app. cbn [greatest foldr]. unfold safeNumber in *. lia. }
  destruct (pairRule_step (nums ++ [r]) st1 (confirmTwice f st) r Hnums1 Hnext1 Hsafe HG1
              Hnums) as [Hnext2 _].
  by rewrite Hslot1 in Hnext2.
Qed.

Lemma mapGet_app_fresh {V} (k : jsstring) (m m' : list (jsstring * V)) :
  k ∉ m.*1 → App.mapGet k (m ++ m') = App.mapGet k m'.
Proof.
  induction m as [|[k' v'] m IH]; [done|]. intros [Hne Hnin]%not_elem_of_cons.
  simpl. rewrite decide_False by done. by apply IH.
Qed.

(** X6. Pair numbering reuses names.  When the greatest number of the
    ledger is used up (or the ledger is empty) and the same form is
    confirmed for two images in a row, both images get the same number and
    the same generated name: the two entries differ in their extensions
    at most. *)
Theorem pair_names_collide (f : App.Form) (st : App.State) (file1 file2 : App.File) :
  App.validateForm (App.withForm f st) = true →
  numberProposed st → freshAhead st →
  App.imageFiles st !! App.currentIndex st = Some file1 →
  App.imageFiles st !! S (App.currentIndex st) = Some file2 →
  slotOpen (ledgerNumbers (App.processedFiles st)) = false →
  ∃ data1 data2,
    App.mapGet (App.name file1) (App.processedFiles (confirmTwice f st)) = Some data1
    ∧ App.mapGet (App.name file2) (App.processedFiles (confirmTwice f st)) = Some data2
    ∧ App.name file1 ≠ App.name file2
    ∧ App.newName data1 = App.newName data2.
Proof.
  intros Hv Hnum Hfresh Hf1 Hf2 Hslot.
  destruct (confirmTwice_steps f st file1 file2 Hv Hnum Hfresh Hf1 Hf2 Hslot)
    as (Hne & Hledger & _).
  destruct Hfresh as [Hdup Hnew].
  rewrite (drop_S _ _ _ Hf1), (drop_S _ _ _ Hf2) in Hnew.
  apply Forall_cons in Hnew as [Hnew1 Hnew]. apply Forall_cons in Hnew as [Hnew2 _].
  apply mapGet_None_keys in Hnew1, Hnew2.
  eexists _, _. rewrite Hledger, !mapGet_app_fresh by done.
  cbn [App.mapGet]. rewrite !decide_True by done. rewrite decide_False by done.
  rewrite decide_True by done. done.
Qed.

Lemma pair_names_collide_witness :
  ∃ data1 data2,
    App.mapGet (js "IMG_001.jpg") (App.processedFiles (confirmTwice (bracketForm []) scenarioState))
      = Some data1
    ∧ App.mapGet (js "IMG_002.jpg") (App.processedFiles (confirmTwice (bracketForm []) scenarioState))
      = Some data2
    ∧ js "IMG_001.jpg" ≠ js "IMG_002.jpg"
    ∧ App.newName data1 = App.newName data2.
Proof.
  apply (pair_names_collide (bracketForm []) scenarioState
           (exampleFile "IMG_001.jpg") (exampleFile "IMG_002.jpg")).
  - reflexivity.
  - left. reflexivity.
  - unfold freshAhead. split; apply (bool_decide_unpack _); vm_compute; reflexivity.
  - reflexivity.
  - reflexivity.
  - reflexivity.
Defined.

(** X7. Confirming again is no round trip in [app.js].  After the same
    form has been confirmed for two images that share a number, going back
    one image and confirming it again gives that image the following
    number, as long as that number is below 2^53: the proposal is
    computed from a ledger that still holds the image's earlier entry. *)
Theorem reconfirm_changes_number (f : App.Form) (st : App.State)
    (file1 file2 file3 : App.File) (r : N) :
  App.validateForm (App.withForm f st) = true →
  numberProposed st → freshAhead st →
  App.imageFiles st !! App.currentIndex st = Some file1 →
  App.imageFiles st !! S (App.currentIndex st) = Some file2 →
  App.imageFiles st !! S (S (App.currentIndex st)) = Some file3 →
  slotOpen (ledgerNumbers (App.processedFiles st)) = false →
  App.getNextNumber st = Finite r → safeNumber (r + 1) →
  recordedNumber (App.name file2) (confirmTwice f st) = Some r
  ∧ recordedNumber (App.name file2) (backAndConfirm f (confirmTwice f st))
    = Some (r + 1).
Proof.
  intros Hv Hnum Hfresh Hf1 Hf2 Hf3 Hslot Hr Hsafe1.
  assert (safeNumber r) as Hsafe by (unfold safeNumber in *; lia).
  destruct (confirmTwice_steps f st file1 file2 Hv Hnum Hfresh Hf1 Hf2 Hslot)
    as (Hne & Hledger & _ & Hidx).
  destruct (confirmTwice_numbers f st file1 file2 r Hv Hnum Hfresh Hf1 Hf2 Hslot Hr Hsafe)
    as [Hlead Hnext].
  specialize (Hidx (lookup_lt_Some _ _ _ Hf3)).
  destruct Hfresh as [Hdup Hnew].
  rewrite (drop_S _ _ _ Hf1), (drop_S _ _ _ Hf2) in Hnew.
  apply Forall_cons in Hnew as [Hnew1 Hnew]. apply Forall_cons in Hnew as [Hnew2 _].
  apply mapGet_None_keys in Hnew1, Hnew2.
  set (s2 := confirmTwice f st) in *.
  split.
  - unfold recordedNumber. rewrite Hledger, mapGet_app_fresh by done.
    cbn [App.mapGet]. rewrite decide_False by done. rewrite decide_True by done.
    exact Hlead.
  - assert (App.imageFiles s2 = App.imageFiles st) as Himg.
    { unfold s2, confirmTwice. rewrite applyAndNext_imageFiles.
      change (App.imageFiles (userFills f ?s)) with (App.imageFiles s).
      by rewrite applyAndNext_imageFiles. }
    set (s3 := App.navigatePrevious s2).
    assert (s3 = App.autoSetNumber (App.withCurrentIndex (S (App.currentIndex st)) s2))
      as Hs3.
    { unfold s3, App.navigatePrevious. rewrite Hidx. simpl. done. }
    assert (App.validateForm (userFills f s3) = true) as Hv3 by exact Hv.
    assert (App.imageFiles (userFills f s3) !! App.currentIndex (userFills f s3) = Some file2)
      as Hf3'.
    { rewrite Hs3. cbn [userFills App.withForm App.autoSetNumber App.withCurrentIndex
        App.imageFiles App.currentIndex]. by rewrite Himg. }
    unfold recordedNumber, backAndConfirm. fold s3.
    rewrite (applyAndNext_processedFiles (userFills f s3) file2 Hv3 Hf3'),
      mapGet_mapSet_eq.
    cbn [mbind option_bind App.newName].
    apply generateFilename_number; [exact Hv3| | |exact Hsafe1].
    + right. rewrite Hs3. reflexivity.
    + rewrite Hs3. change (App.getNextNumber (userFills f _)) with (App.getNextNumber s2).
      exact Hnext.
Qed.

Lemma reconfirm_changes_number_witness :
  recordedNumber (js "IMG_002.jpg") (confirmTwice (bracketForm []) scenarioState) = Some 1
  ∧ recordedNumber (js "IMG_002.jpg")
      (backAndConfirm (bracketForm []) (confirmTwice (bracketForm []) scenarioState))
    = Some (1 + 1).
Proof.
  apply (reconfirm_changes_number (bracketForm []) scenarioState
           (exampleFile "IMG_001.jpg") (exampleFile "IMG_002.jpg") (exampleFile "IMG_003.jpg")
           1).
  - reflexivity.
  - left. reflexivity.
  - unfold freshAhead. split; apply (bool_decide_unpack _); vm_compute; reflexivity.
  - reflexivity.
  - reflexivity.
  - reflexivity.
  - reflexivity.
  - vm_compute. reflexivity.
  - vm_compute. reflexivity.
Defined.

(** ** The session of [script.js] *)

Lemma script_applyAndNext_confirm (st : Script.State) (file : Script.File) :
  Script.validateInputs st = true →
  Script.images st !! Script.currentIndex st = Some file →
  Script.applyAndNext st =
    let st1 :=
      Script.withRenamed
        (<[Script.name file :=
             Script.generateNewFilename st ++ js "." ++ pop (split 46 (Script.name file))]>
           (Script.renamedFiles st)) st in
    if (S (Script.currentIndex st) <? length (Script.images st))%nat
    then Script.withCurrentIndex (Script.currentIndex st + 1) st1
    else st1.
Proof.
  intros Hv Hf. unfold Script.applyAndNext. rewrite Hv, Hf. cbn [negb]. cbv zeta.
  cbn [Script.withRenamed Script.currentIndex Script.images].
  destruct (Nat.ltb_spec (S (Script.currentIndex st)) (length (Script.images st)));
    [rewrite (proj2 (Z.ltb_lt _ _))|rewrite (proj2 (Z.ltb_ge _ _))]; (done || lia).
Qed.

(** X8. The cursor of [script.js] never leaves the image sequence:
    confirming, moving by any step and importing images keep it on an
    image (or at 0 when there is none). *)
Theorem script_cursor_within (lc : jsstring → jsstring → Z) (files : list Script.File)
    (delta : Z) (st : Script.State) :
  cursorOk (Script.currentIndex st) (length (Script.images st)) →
  cursorOk (Script.currentIndex (Script.applyAndNext st))
    (length (Script.images (Script.applyAndNext st)))
  ∧ cursorOk (Script.currentIndex (Script.navigateImage delta st))
      (length (Script.images (Script.navigateImage delta st)))
  ∧ cursorOk (Script.currentIndex (Script.handleImagesLoad lc files st))
      (length (Script.images (Script.handleImagesLoad lc files st))).
Proof.
  intros Hok. split; [|split].
  - destruct (Script.validateInputs st) eqn:Hv;
      [|by unfold Script.applyAndNext; rewrite Hv].
    destruct (Script.images st !! Script.currentIndex st) as [file|] eqn:Hf;
      [|by unfold Script.applyAndNext; rewrite Hv, Hf].
    rewrite (script_applyAndNext_confirm st file Hv Hf). cbv zeta.
    destruct (Nat.ltb_spec (S (Script.currentIndex st)) (length (Script.images st)));
      [|done].
    right. simpl. lia.
  - unfold Script.navigateImage.
    destruct (_ && _) eqn:E; [|done].
    apply andb_true_iff in E as [Hlo Hhi]. apply Z.leb_le in Hlo. apply Z.ltb_lt in Hhi.
    right. simpl. lia.
  - unfold Script.handleImagesLoad. destruct files; [done|]. by left.
Qed.

Lemma script_cursor_within_witness :
  cursorOk
    (Script.currentIndex (Script.navigateImage 5 (scriptState (scriptInputs "" "" ""))))
    (length (Script.images (Script.navigateImage 5 (scriptState (scriptInputs "" "" ""))))).
Proof.
  apply (script_cursor_within codeUnitCompare [] 5 (scriptState (scriptInputs "" "" ""))).
  left. reflexivity.
Defined.

(** X9. Confirming again is a round trip in [script.js], where the number
    is the position of the image: confirming an image, going back to it
    and confirming it again with the same form leaves the ledger as the
    first confirmation made it; so does confirming the last image
    twice. *)
Theorem script_reconfirm_same (st : Script.State) :
  Script.validateInputs st = true →
  (Script.currentIndex st < length (Script.images st))%nat →
  Script.renamedFiles
    (Script.applyAndNext
       (if (S (Script.currentIndex st) <? length (Script.images st))%nat
        then Script.navigateImage (-1) (Script.applyAndNext st)
        else Script.applyAndNext st))
  = Script.renamedFiles (Script.applyAndNext st).
Proof.
  intros Hv Hlt.
  destruct (lookup_lt_is_Some_2 _ _ Hlt) as [file Hf].
  rewrite (script_applyAndNext_confirm st file Hv Hf). cbv zeta.
  destruct (Nat.ltb_spec (S (Script.currentIndex st)) (length (Script.images st)))
    as [Hnext|Hlast].
  - set (new := Script.generateNewFilename st ++ js "." ++ pop (split 46 (Script.name file))).
    assert (Script.navigateImage (-1)
              (Script.withCurrentIndex (Script.currentIndex st + 1)
                 (Script.withRenamed (<[Script.name file := new]> (Script.renamedFiles st)) st))
            = Script.withRenamed (<[Script.name file := new]> (Script.renamedFiles st)) st)
      as ->.
    { unfold Script.navigateImage.
      cbn [Script.withCurrentIndex Script.withRenamed Script.currentIndex Script.images].
      assert ((Z.of_nat (Script.currentIndex st + 1) + -1)%Z
              = Z.of_nat (Script.currentIndex st)) as -> by lia.
      rewrite (proj2 (Z.leb_le _ _)), (proj2 (Z.ltb_lt _ _)) by lia.
      cbn [andb]. rewrite Nat2Z.id. by destruct st. }
    rewrite (script_applyAndNext_confirm _ file) by (exact Hv || exact Hf). cbv zeta.
    cbn [Script.withRenamed Script.currentIndex Script.images Script.renamedFiles].
    change (Script.generateNewFilename (Script.mkState _ _ _ _ _ _ _ _))
      with (Script.generateNewFilename st). fold new.
    rewrite (proj2 (Nat.ltb_lt _ _)) by done.
    cbn [Script.withCurrentIndex Script.renamedFiles]. apply insert_insert_eq.
  - set (new := Script.generateNewFilename st ++ js "." ++ pop (split 46 (Script.name file))).
    rewrite (script_applyAndNext_confirm _ file) by (exact Hv || exact Hf). cbv zeta.
    cbn [Script.withRenamed Script.currentIndex Script.images Script.renamedFiles].
    change (Script.generateNewFilename (Script.mkState _ _ _ _ _ _ _ _))
      with (Script.generateNewFilename st). fold new.
    rewrite (proj2 (Nat.ltb_ge _ _)) by done.
    cbn [Script.renamedFiles]. apply insert_insert_eq.
Qed.

Lemma script_reconfirm_same_witness :
  Script.renamedFiles
    (Script.applyAndNext (Script.navigateImage (-1) (Script.applyAndNext bracketScript)))
  = Script.renamedFiles (Script.applyAndNext bracketScript).
Proof.
  apply (script_reconfirm_same bracketScript).
  - reflexivity.
  - vm_compute. lia.
Defined.

Lemma generateNewFilename_composed (st : Script.State) :
  Script.isReady st = true →
  trim (Script.inputPartName (Script.dom st)) ≠ [] →
  Script.inputMaterial (Script.dom st) ≠ [] →
  Script.inputProcessing (Script.dom st) ≠ [] →
  ∃ rest,
    Script.generateNewFilename st
    = toString (N.of_nat (Script.currentIndex st) + 1) ++ js "_" ++ rest.
Proof.
  intros Hready Hpart Hmat Hproc. unfold Script.generateNewFilename. rewrite Hready.
  cbn [negb Script.getInputValues Script.partName Script.material Script.processing_].
  apply truthy_true in Hpart, Hmat, Hproc. rewrite Hpart, Hmat, Hproc. cbn [negb orb].
  unfold Script.filenameFields. cbn [joinUnderscore]. eauto.
Qed.

(** X10. In [script.js] the names generated at different positions of the
    sequence differ, whatever the forms and the tables: the name starts
    with the position of the image, counted from 1. *)
Theorem script_names_differ (st st' : Script.State) :
  Script.isReady st = true → Script.validateInputs st = true →
  Script.isReady st' = true → Script.validateInputs st' = true →
  Script.currentIndex st ≠ Script.currentIndex st' →
  leadingInteger (Script.generateNewFilename st)
    = Some (N.of_nat (Script.currentIndex st) + 1)
  ∧ Script.generateNewFilename st ≠ Script.generateNewFilename st'.
Proof.
  intros Hr Hv Hr' Hv' Hne.
  pose proof (proj1 (validateInputs_true st) Hv) as (Hp & _ & _ & _ & Hm & Hpr).
  pose proof (proj1 (validateInputs_true st') Hv') as (Hp' & _ & _ & _ & Hm' & Hpr').
  destruct (generateNewFilename_composed st Hr Hp Hm Hpr) as [rest E].
  destruct (generateNewFilename_composed st' Hr' Hp' Hm' Hpr') as [rest' E'].
  assert (leadingInteger (Script.generateNewFilename st)
          = Some (N.of_nat (Script.currentIndex st) + 1)) as Hlead
    by (rewrite E; apply leadingInteger_toString).
  split; [exact Hlead|]. intros Heq. rewrite Heq, E', leadingInteger_toString in Hlead.
  injection Hlead as Hlead. lia.
Qed.

Lemma script_names_differ_witness :
  Script.generateNewFilename bracketScript
  ≠ Script.generateNewFilename (Script.withCurrentIndex 1 bracketScript).
Proof.
  apply (script_names_differ bracketScript (Script.withCurrentIndex 1 bracketScript));
    (reflexivity || (vm_compute; lia)).
Defined.

(** X11. Importing images in [script.js].  An empty selection changes
    nothing.  Any other selection replaces the sequence by a rearrangement
    of the selected files, puts the cursor on the first image and empties
    the ledger; tables and form stay as they are. *)
Theorem handleImagesLoad_resets (lc : jsstring → jsstring → Z) (files : list Script.File)
    (st : Script.State) :
  Script.handleImagesLoad lc [] st = st
  ∧ (files ≠ [] →
     let st' := Script.handleImagesLoad lc files st in
     Script.images st' ≡ₚ files
     ∧ Script.currentIndex st' = 0%nat
     ∧ Script.renamedFiles st' = ∅
     ∧ Script.materialNameToId st' = Script.materialNameToId st
     ∧ Script.processing st' = Script.processing st
     ∧ Script.dom st' = Script.dom st).
Proof.
  split; [done|]. intros Hne st'. subst st'. unfold Script.handleImagesLoad.
  destruct files as [|file files']; [done|].
  split; [exact (sortBy_Permutation _ (file :: files'))|done].
Qed.

Lemma handleImagesLoad_resets_witness :
  Script.renamedFiles
    (Script.handleImagesLoad codeUnitCompare (scriptFile <$> importedNames)
       (Script.applyAndNext bracketScript)) = ∅.
Proof.
  apply (handleImagesLoad_resets codeUnitCompare (scriptFile <$> importedNames)).
  discriminate.
Defined.

(** ** What [sanitizeFilename] returns *)

Lemma dropWhile_nil {A} (p : A → bool) (l : list A) :
  dropWhile p l = [] ↔ Forall (λ x, p x = true) l.
Proof.
  induction l as [|x l IH]; simpl; [by split; [constructor|]|].
  destruct (p x) eqn:E.
  - rewrite IH. split; [by constructor|by inversion 1].
  - split; [done|]. inversion 1; congruence.
Qed.

Lemma trim_nil (s : jsstring) : trim s = [] ↔ Forall (λ c, isSpace c = true) s.
Proof.
  unfold trim. split.
  - intros E. apply (f_equal (@rev N)) in E. rewrite rev_involutive in E. simpl in E.
    apply dropWhile_nil in E.
    assert (Forall (λ c, isSpace c = true) (dropWhile isSpace s)) as Hall.
    { apply Forall_forall. intros c Hc. rewrite Forall_forall in E. apply E.
      apply list_elem_of_In. apply -> in_rev. by apply list_elem_of_In. }
    apply dropWhile_nil.
    destruct (dropWhile isSpace s) as [|c v] eqn:Ev; [done|].
    apply dropWhile_head in Ev. inversion Hall; congruence.
  - intros H. by rewrite (proj2 (dropWhile_nil isSpace s) H).
Qed.

Lemma collapseSpaces_spaces (s : jsstring) :
  Forall (λ c, isSpace c = true) (Script.collapseSpaces s)
  ↔ Forall (λ c, isSpace c = true) s.
Proof.
  split; [|by apply Forall_collapseSpaces].
  induction s as [|c s IH]; [done|]. cbn [Script.collapseSpaces].
  destruct (isSpace c) eqn:Ec.
  - destruct s as [|c' s']; [by repeat constructor|].
    destruct (isSpace c') eqn:Ec'.
    + intros H. constructor; [done|]. by apply IH.
    + intros H. constructor; [done|]. apply IH. by inversion H.
  - inversion 1; congruence.
Qed.

Lemma clean_nil (s : jsstring) :
  Script.clean s = [] ↔
  Forall (λ c, Script.forbidden c = true ∨ isSpace c = true) s.
Proof.
  unfold Script.clean. rewrite trim_nil, collapseSpaces_spaces.
  induction s as [|c s IH]; simpl; [by split; constructor|].
  destruct (Script.forbidden c) eqn:Ef; simpl.
  - rewrite IH. split; [constructor; [by left|done]|by inversion 1].
  - split.
    + inversion 1; subst. constructor; [by right|]. by apply IH.
    + inversion 1 as [|? ? [?|?] ?]; subst; [congruence|].
      constructor; [done|]. by apply IH.
Qed.

Lemma collapseSpaces_length (s : jsstring) :
  (length (Script.collapseSpaces s) ≤ length s)%nat.
Proof.
  induction s as [|c s IH]; [done|]. cbn [Script.collapseSpaces].
  destruct (isSpace c); [|simpl; lia].
  destruct s as [|c' s']; [done|].
  destruct (isSpace c'); simpl in *; lia.
Qed.

Lemma trim_length (s : jsstring) : (length (trim s) ≤ length s)%nat.
Proof.
  destruct (trim_infix s) as (pre & post & E).
  rewrite E at 2. rewrite !length_app. lia.
Qed.

(** X12. [sanitizeFilename] returns the empty string exactly for a
    non-empty string made of forbidden characters and white space only
    (the empty string itself gives [untitled]); on a non-empty string it
    never returns more code units than it was given; and it leaves every
    non-empty sanitized string as it is. *)
Theorem sanitizeFilename_result (s : jsstring) :
  (Script.sanitizeFilename s = [] ↔
   s ≠ [] ∧ Forall (λ c, Script.forbidden c = true ∨ isSpace c = true) s)
  ∧ (s ≠ [] → (length (Script.sanitizeFilename s) ≤ length s)%nat)
  ∧ (s ≠ [] → sanitized s → Script.sanitizeFilename s = s).
Proof.
  split; [|split].
  - destruct s as [|c s]; [by split; [|intros [? _]]|].
    rewrite sanitizeFilename_truthy, clean_nil by done. by split; [|intros [_ ?]].
  - intros Hne. rewrite sanitizeFilename_truthy by done. unfold Script.clean.
    etransitivity; [apply trim_length|].
    etransitivity; [apply collapseSpaces_length|]. apply filter_length_le.
  - intros Hne Hs. rewrite sanitizeFilename_truthy by done. by apply sanitized_clean.
Qed.

Lemma sanitizeFilename_result_witness :
  (length (Script.sanitizeFilename (js " a  <b> ")) ≤ length (js " a  <b> "))%nat
  ∧ Script.sanitizeFilename (js "Bracket 2 left") = js "Bracket 2 left".
Proof.
  destruct (sanitizeFilename_result (js " a  <b> ")) as (_ & Hlen & _).
  destruct (sanitizeFilename_result (js "Bracket 2 left")) as (_ & _ & Hid).
  split; [apply Hlen; discriminate|]. apply Hid; [discriminate|].
  split; [|split].
  - apply (bool_decide_unpack _). vm_compute. reflexivity.
  - vm_compute. repeat split; intros; discriminate.
  - reflexivity.
Defined.

(** A part name that [validateInputs] accepts can leave its field of the
    generated name empty. *)
Example script_empty_part_field :
  Script.validateInputs (scriptState (scriptInputs "<?>" "12.5" "Aluminum")) = true
  ∧ Script.generateNewFilename (scriptState (scriptInputs "<?>" "12.5" "Aluminum"))
    = js "1__12.5_kg_M01_P02_P_0".
Proof. split; vm_compute; reflexivity. Qed.

(** ** More on [naturalSort] *)

Lemma tokens_head (c : N) (s : jsstring) :
  ∃ r rest,
    App.tokens (c :: s)
    = (if isDigit c then (App.Digits r, []) else (App.Infinity, r)) :: rest.
Proof.
  unfold App.tokens. destruct (runs_head c s) as (r & rest & ->).
  cbn [List.map]. eauto.
Qed.

(** X13. [naturalSort] puts a name that begins with a digit before a name
    that begins with any other character, whatever the collation: it
    returns minus infinity for the pair and plus infinity for the pair
    reversed. *)
Theorem naturalSort_digit_first (lc : jsstring → jsstring → Z) (c c' : N)
    (a b : jsstring) :
  isDigit c = true → isDigit c' = false →
  App.naturalSort lc (c :: a) (c' :: b) = NegInf
  ∧ App.naturalSort lc (c' :: b) (c :: a) = PosInf.
Proof.
  intros Hc Hc'. unfold App.naturalSort.
  destruct (tokens_head c a) as (r & rest & ->).
  destruct (tokens_head c' b) as (r' & rest' & ->).
  rewrite Hc, Hc'. done.
Qed.

Lemma naturalSort_digit_first_witness :
  App.naturalSort codeUnitCompare (js "2024-scan.jpg") (js "IMG_1.jpg") = NegInf
  ∧ App.naturalSort codeUnitCompare (js "IMG_1.jpg") (js "2024-scan.jpg") = PosInf.
Proof.
  apply (naturalSort_digit_first codeUnitCompare 50 73 (js "024-scan.jpg") (js "MG_1.jpg"));
    reflexivity.
Defined.

Section LeadingZeros.

Variable localeCompare : jsstring → jsstring → Z.
Hypothesis localeCompare_refl : ∀ s, localeCompare s s = 0%Z.



End LeadingZeros.


(** ** Reading the spreadsheets *)

Lemma cellString_truthy (c : cell) : cellTruthy c = true → truthy (cellString c) = true.
Proof.
  destruct c as [|s|z]; simpl; [done|done|]. intros _.
  destruct (z <? 0)%Z; [done|]. apply truthy_true, numberToString_nonempty.
Qed.

Lemma fold_left_invariant {A B : Type} (P : A → Prop) (f : A → B → A) (l : list B)
    (a : A) :
  P a → (∀ a b, P a → P (f a b)) → P (fold_left f l a).
Proof. intros Ha Hstep. revert a Ha. induction l as [|b l IH]; simpl; auto. Qed.

Lemma linked_empty : linked ∅ ∅.
Proof. split; intros ? ?; by rewrite lookup_empty. Qed.

Lemma getProperty_cases {V} (t : gmap jsstring V) (k : jsstring) :
  match getProperty t k with
  | Own v => t !! k = Some v
  | Inherited => t !! k = None ∧ k ∈ prototypeKeys
  | Undefined => t !! k = None ∧ k ∉ prototypeKeys
  end.
Proof. unfold getProperty. destruct (t !! k); [done|]. by case_bool_decide. Qed.

Lemma linked_insert (ids : gmap jsstring jsstring)
    (categories : gmap jsstring (list jsstring)) (n id c : jsstring) :
  linked ids categories → truthy id = true → c ∉ prototypeKeys →
  linked (setProperty n id ids)
    (<[c := default [] (categories !! c) ++ [n]]> categories).
Proof.
  intros [Hcat Hid] Htrue Hc. split.
  - intros c' names Hc'.
    assert (∀ n', n' ∈ names → n' = n ∨ ∃ old, categories !! c' = Some old ∧ n' ∈ old)
      as Hfrom.
    { intros n' Hn'. destruct (decide (c' = c)) as [->|Hne].
      - rewrite lookup_insert_eq in Hc'. injection Hc' as <-.
        apply elem_of_app in Hn' as [Hn'|Hn'].
        + right. destruct (categories !! c) as [old|]; simpl in *; [eauto|].
          by apply elem_of_nil in Hn'.
        + left. by apply list_elem_of_singleton in Hn'.
      - rewrite lookup_insert_ne in Hc' by done. eauto. }
    split; [|split].
    + destruct (decide (c' = c)) as [->|Hne]; [done|].
      rewrite lookup_insert_ne in Hc' by done. by apply Hcat in Hc' as [? _].
    + destruct (decide (c' = c)) as [->|Hne].
      * rewrite lookup_insert_eq in Hc'. injection Hc' as <-.
        intros Hnil. by apply app_eq_nil in Hnil as [_ ?].
      * rewrite lookup_insert_ne in Hc' by done. by apply Hcat in Hc' as (_ & ? & _).
    + intros n' Hn'.
      destruct (decide (n' = js "__proto__")) as [Hproto|Hproto]; [by left|]. right.
      assert (n' ≠ n → ∃ id', ids !! n' = Some id' ∧ truthy id' = true) as Hold.
      { intros Hne. destruct (Hfrom n' Hn') as [?|(old & Hold & Hin)]; [done|].
        destruct (Hcat c' old Hold) as (_ & _ & H). by destruct (H n' Hin). }
      unfold setProperty. destruct (decide (n = js "__proto__")) as [Hn|Hn].
      * apply Hold. congruence.
      * destruct (decide (n' = n)) as [->|Hne].
        -- exists id. by rewrite lookup_insert_eq.
        -- rewrite lookup_insert_ne by done. by apply Hold.
  - intros n' id' Hn'.
    assert (ids !! n' = Some id' →
            truthy id' = true
            ∧ ∃ c0 names,
                <[c := default [] (categories !! c) ++ [n]]> categories !! c0 = Some names
                ∧ n' ∈ names) as Hold.
    { intros Hlook. destruct (Hid n' id' Hlook) as [Hid' (c' & names & Hc' & Hin)].
      split; [done|]. destruct (decide (c' = c)) as [->|Hne].
      - exists c, (default [] (categories !! c) ++ [n]). rewrite lookup_insert_eq.
        split; [done|]. rewrite Hc'. simpl. apply elem_of_app. by left.
      - exists c', names. by rewrite lookup_insert_ne. }
    unfold setProperty in Hn'. destruct (decide (n = js "__proto__")) as [Hn|Hn];
      [by apply Hold|].
    destruct (decide (n' = n)) as [->|Hne].
    + rewrite lookup_insert_eq in Hn'. injection Hn' as <-. split; [done|].
      exists c, (default [] (categories !! c) ++ [n]). rewrite lookup_insert_eq.
      split; [done|]. apply elem_of_app. right. by apply list_elem_of_singleton.
    + rewrite lookup_insert_ne in Hn' by done. by apply Hold.
Qed.

(** *** Loops that may throw *)

Lemma forEach_always {S R : Type} (P : S → Prop) (body : S → R → S * bool)
    (rows : list R) (st : S) :
  P st → (∀ s row, P s → P (body s row).1) → P (forEach body rows st).1.
Proof.
  intros Hst Hstep. revert st Hst.
  induction rows as [|row rows IH]; intros st Hst; [done|].
  cbn [forEach]. specialize (Hstep st row Hst).
  destruct (body st row) as [s1 []]; [done|]. by apply IH.
Qed.

Lemma forEach_thrown {S R : Type} (P : S → Prop) (ok : R → Prop)
    (body : S → R → S * bool) (rows : list R) (st : S) :
  (∀ row, Decision (ok row)) →
  P st →
  (∀ s row, P s → ok row → (body s row).2 = false ∧ P (body s row).1) →
  (∀ s row, P s → ¬ ok row → (body s row).2 = true) →
  ((forEach body rows st).2 = false ↔ Forall ok rows)
  ∧ ((forEach body rows st).2 = false → P (forEach body rows st).1).
Proof.
  intros Hdec Hst Hok Hbad. revert st Hst.
  induction rows as [|row rows IH]; intros st Hst; [by split|].
  cbn [forEach]. destruct (Hdec row) as [Hrow|Hrow].
  - destruct (Hok st row Hst Hrow) as [Hflag Hnext].
    destruct (body st row) as [s1 thrown]. cbn [fst snd] in Hflag, Hnext. subst thrown.
    destruct (IH s1 Hnext) as [Hiff Hkeep]. split; [|done].
    rewrite Hiff, Forall_cons. tauto.
  - pose proof (Hbad st row Hst Hrow) as Hflag.
    destruct (body st row) as [s1 thrown]. cbn [fst snd] in Hflag. subst thrown.
    cbn [snd]. split; [|done]. split; [done|].
    intros [? _]%Forall_cons. done.
Qed.

Lemma forEach_related {S R : Type} (Rel : S → S → Prop) (body : S → R → S * bool)
    (rows : list R) (a a' : S) :
  Rel a a' →
  (∀ a a' b, Rel a a' →
     Rel (body a b).1 (body a' b).1 ∧ (body a b).2 = (body a' b).2) →
  Rel (forEach body rows a).1 (forEach body rows a').1
  ∧ (forEach body rows a).2 = (forEach body rows a').2.
Proof.
  intros Ha Hstep. revert a a' Ha.
  induction rows as [|b rows IH]; intros a a' Ha; [done|].
  cbn [forEach]. destruct (Hstep a a' b Ha) as [Hrel Hflag].
  destruct (body a b) as [s1 t1], (body a' b) as [s1' t1']. cbn [fst snd] in *.
  subst t1'. destruct t1; [done|]. by apply IH.
Qed.

(** *** The material sheet of [app.js] *)

Lemma app_materialRow_step (st : App.State) (row : gmap jsstring cell) :
  appMaterialsLinked st →
  (appRowOk row →
   (App.materialRow st row).2 = false ∧ appMaterialsLinked (App.materialRow st row).1)
  ∧ (¬ appRowOk row → (App.materialRow st row).2 = true).
Proof.
  intros [Heq Hl]. unfold appRowOk, appRowRead, App.materialRow.
  destruct (cellTruthy (App.rowGet row App.colMaterialName)) eqn:Hname;
    [|split; [done|intros H; by destruct H]].
  destruct (cellTruthy (App.rowGet row App.colMaterialId)) eqn:Hid;
    [|split; [done|intros H; by destruct H]].
  destruct (cellTruthy (App.rowGet row App.colMaterialCategory)) eqn:Hcat;
    [|split; [done|intros H; by destruct H]].
  cbn [andb].
  set (c := cellString (App.rowGet row App.colMaterialCategory)).
  set (n := cellString (App.rowGet row App.colMaterialName)).
  set (id := cellString (App.rowGet row App.colMaterialId)).
  assert (truthy id = true) as Htrue by (by apply cellString_truthy).
  pose proof (getProperty_cases (App.materialCategories st) c) as Hg.
  destruct (getProperty (App.materialCategories st) c) as [names| |].
  - assert (c ∉ prototypeKeys) as Hc by (by destruct Hl as [Hcats _]; apply Hcats in Hg as [? _]).
    split; [|intros H; by destruct H]. intros _. split; [done|].
    split; cbn [fst App.withMaterialTables App.materials App.materialNameToId
      App.materialCategories]; [by rewrite Heq|].
    replace (names ++ [n]) with (default [] (App.materialCategories st !! c) ++ [n])
      by (by rewrite Hg).
    by apply linked_insert.
  - destruct Hg as [_ Hc]. split; [intros H; by destruct (H eq_refl)|done].
  - destruct Hg as [Hnone Hc].
    split; [|intros H; by destruct H]. intros _. split; [done|].
    split; cbn [fst App.withMaterialTables App.materials App.materialNameToId
      App.materialCategories]; [by rewrite Heq|].
    replace [n] with (default [] (App.materialCategories st !! c) ++ [n])
      by (by rewrite Hnone).
    by apply linked_insert.
Qed.

Lemma app_materialRow_same (st : App.State) (row : gmap jsstring cell) :
  App.materials st = App.materialNameToId st →
  App.materials (App.materialRow st row).1
  = App.materialNameToId (App.materialRow st row).1.
Proof.
  intros Heq. unfold App.materialRow. destruct (_ && _); [|done].
  destruct (getProperty _ _); cbn [fst App.withMaterialTables App.materials
    App.materialNameToId]; by rewrite Heq.
Qed.

Lemma app_materialRow_frame (st : App.State) (row : gmap jsstring cell) :
  appOutsideMaterials (App.materialRow st row).1 = appOutsideMaterials st
  ∧ App.form (App.materialRow st row).1 = App.form st.
Proof.
  unfold App.materialRow. destruct (_ && _); [|done]. by destruct (getProperty _ _).
Qed.

(** The loop of [parseMaterialSheet] over the rows. *)
Lemma app_materialRows_run (data : list (gmap jsstring cell)) (st : App.State) :
  appMaterialsLinked st →
  let result := forEach App.materialRow data st in
  App.materials result.1 = App.materialNameToId result.1
  ∧ (result.2 = false ↔ appSheetReadable data)
  ∧ (result.2 = false → appMaterialsLinked result.1)
  ∧ App.form result.1 = App.form st
  ∧ appOutsideMaterials result.1 = appOutsideMaterials st.
Proof.
  intros Hst. cbn zeta.
  pose proof (forEach_always (λ s, App.materials s = App.materialNameToId s)
                App.materialRow data st (proj1 Hst) app_materialRow_same) as Hsame.
  pose proof (forEach_always
                (λ s, appOutsideMaterials s = appOutsideMaterials st
                      ∧ App.form s = App.form st)
                App.materialRow data st (conj eq_refl eq_refl)) as [Hframe Hform].
  { intros s row [<- <-]. apply app_materialRow_frame. }
  destruct (forEach_thrown appMaterialsLinked appRowOk App.materialRow data st)
    as [Hiff Hlinked]; [apply _|done|..].
  { intros s row Hs. by apply app_materialRow_step. }
  { intros s row Hs. by apply app_materialRow_step. }
  done.
Qed.

(** When [parseMaterialSheet] throws, and what it leaves alone. *)
Lemma app_parseMaterialSheet_flag (selected : jsstring)
    (data : list (gmap jsstring cell)) (st : App.State) :
  ((App.parseMaterialSheet selected data st).2 = false ↔ appSheetReadable data)
  ∧ appOutsideMaterials (App.parseMaterialSheet selected data st).1
    = appOutsideMaterials st.
Proof.
  unfold App.parseMaterialSheet.
  destruct (app_materialRows_run data (App.withMaterialTables ∅ ∅ ∅ st))
    as (_ & Hiff & _ & _ & Hframe); [split; [done|apply linked_empty]|].
  destruct (forEach App.materialRow data _) as [st1 thrown].
  cbn [fst snd] in *. by destruct thrown.
Qed.

(** X15.  [parseMaterialSheet] of [app.js] rebuilds the material tables.
    The table of materials and the table from name to identifier are the
    same table after every run.  The run throws exactly when a row with a
    name, an identifier and a category has a category that is the name
    of a member of [Object.prototype] (the code finds the inherited
    member, which has no [push]); the category control is then not
    rebuilt.  When it does not throw, the tables hang together: no
    category is such a name, every category lists at least one name,
    every listed name has an identifier (the name [__proto__] apart,
    under which nothing is stored), every identifier is a non-empty text,
    and every name that has an identifier is listed under some category.
    Nothing outside the material tables and the category control
    changes. *)
Theorem app_parseMaterialSheet_linked (selected : jsstring)
    (data : list (gmap jsstring cell)) (st : App.State) :
  let result := App.parseMaterialSheet selected data st in
  App.materials result.1 = App.materialNameToId result.1
  ∧ (result.2 = false ↔ appSheetReadable data)
  ∧ (result.2 = false →
     linked (App.materialNameToId result.1) (App.materialCategories result.1))
  ∧ (result.2 = true → App.form result.1 = App.form st)
  ∧ appOutsideMaterials result.1 = appOutsideMaterials st.
Proof.
  cbn zeta. unfold App.parseMaterialSheet.
  set (st0 := App.withMaterialTables ∅ ∅ ∅ st).
  assert (appMaterialsLinked st0) as Hst0 by (split; [done|apply linked_empty]).
  destruct (app_materialRows_run data st0 Hst0)
    as (Hsame & Hiff & Hlinked & Hform & Hframe).
  destruct (forEach App.materialRow data st0) as [st1 thrown].
  cbn [fst snd] in *. destruct thrown; cbn [fst snd].
  - split; [done|]. split; [done|]. split; [done|]. by split.
  - split; [done|]. split; [done|]. split; [|by split].
    intros _. by apply Hlinked.
Qed.

Lemma app_parseMaterialSheet_linked_witness :
  (App.parseMaterialSheet [] (default [] (App.findSheet inheritedWorkbook App.keywordMaterial))
     loadedApp).2 = true
  ∧ ((App.parseMaterialSheet []
        (default [] (App.findSheet exampleWorkbook App.keywordMaterial)) loadedApp).2
     = false →
     linked
       (App.materialNameToId
          (App.parseMaterialSheet []
             (default [] (App.findSheet exampleWorkbook App.keywordMaterial))
             loadedApp).1)
       (App.materialCategories
          (App.parseMaterialSheet []
             (default [] (App.findSheet exampleWorkbook App.keywordMaterial))
             loadedApp).1)).
Proof.
  split; [vm_compute; reflexivity|].
  apply (app_parseMaterialSheet_linked []
           (default [] (App.findSheet exampleWorkbook App.keywordMaterial)) loadedApp).
Defined.

(** *** What each reader leaves alone *)

Lemma app_parseProcessingSheet_frame (selected : jsstring)
    (data : list (gmap jsstring cell)) (st : App.State) :
  appOutsideProcessing (App.parseProcessingSheet selected data st)
  = appOutsideProcessing st.
Proof.
  unfold App.parseProcessingSheet.
  transitivity (appOutsideProcessing (App.withProcessingMethods ∅ st)); [|done].
  set (s0 := App.withProcessingMethods ∅ st).
  transitivity (appOutsideProcessing (fold_left App.processingRow data s0)); [done|].
  apply (fold_left_invariant (λ s, appOutsideProcessing s = appOutsideProcessing s0));
    [done|].
  intros s row <-. unfold App.processingRow.
  by destruct (_ && _).
Qed.

Lemma app_parseImplementerSheet_frame (selected : jsstring)
    (data : list (gmap jsstring cell)) (st : App.State) :
  appOutsideImplementers (App.parseImplementerSheet selected data st)
  = appOutsideImplementers st.
Proof.
  unfold App.parseImplementerSheet.
  transitivity (appOutsideImplementers (App.withImplementers ∅ st)); [|done].
  set (s0 := App.withImplementers ∅ st).
  transitivity (appOutsideImplementers (fold_left App.implementerRow data s0)); [done|].
  apply (fold_left_invariant
           (λ s, appOutsideImplementers s = appOutsideImplementers s0)); [done|].
  intros s row <-. unfold App.implementerRow.
  by destruct (_ && _).
Qed.

Lemma findSheet_None (workbook : list (jsstring * list (gmap jsstring cell)))
    (keyword : jsstring) :
  noSheet workbook keyword → App.findSheet workbook keyword = None.
Proof.
  unfold noSheet. induction 1 as [|[name sheet] wb Hhead _ IH]; [done|].
  simpl in *. by rewrite Hhead.
Qed.

Lemma size_zero_empty {V : Type} (m : gmap jsstring V) :
  (size m =? 0)%nat = false ↔ m ≠ ∅.
Proof.
  rewrite Nat.eqb_neq. split; intros H Hm; apply H.
  - by rewrite Hm, map_size_empty.
  - by apply map_size_empty_iff.
Qed.

Lemma app_tables_nonempty (st : App.State) :
  (size (App.materials st) =? 0)%nat || (size (App.processingMethods st) =? 0)%nat
  || (size (App.implementers st) =? 0)%nat = false
  ↔ App.materials st ≠ ∅ ∧ App.processingMethods st ≠ ∅ ∧ App.implementers st ≠ ∅.
Proof. rewrite !orb_false_iff, !size_zero_empty. tauto. Qed.

(** [parseExcelData] by the run of its material sheet. *)
Lemma parseExcelData_unfold (sel : App.Selected)
    (workbook : list (jsstring * list (gmap jsstring cell))) (st : App.State) :
  App.parseExcelData sel workbook st =
    let r :=
      match App.findSheet workbook App.keywordMaterial with
      | Some sheet => App.parseMaterialSheet (App.selectedCategory sel) sheet st
      | None => (st, false)
      end in
    if r.2 then (r.1, true)
    else
      let st2 :=
        match App.findSheet workbook App.keywordProcessing with
        | Some sheet => App.parseProcessingSheet (App.selectedProcessing sel) sheet r.1
        | None => r.1
        end in
      let st3 :=
        match App.findSheet workbook App.keywordImplementer with
        | Some sheet => App.parseImplementerSheet (App.selectedImplementer sel) sheet st2
        | None => st2
        end in
      (st3,
       (size (App.materials st3) =? 0)%nat || (size (App.processingMethods st3) =? 0)%nat
       || (size (App.implementers st3) =? 0)%nat).
Proof.
  unfold App.parseExcelData. cbn zeta.
  by destruct (match App.findSheet workbook App.keywordMaterial with
               | Some sheet => App.parseMaterialSheet (App.selectedCategory sel) sheet st
               | None => (st, false)
               end) as [s1 []].
Qed.

Lemma parseExcelData_frames (sel : App.Selected)
    (workbook : list (jsstring * list (gmap jsstring cell))) (st : App.State) :
  ∃ st1 st2,
    appOutsideMaterials st1 = appOutsideMaterials st
    ∧ appOutsideProcessing st2 = appOutsideProcessing st1
    ∧ appOutsideImplementers (App.parseExcelData sel workbook st).1
      = appOutsideImplementers st2
    ∧ (App.findSheet workbook App.keywordMaterial = None → st1 = st)
    ∧ (App.findSheet workbook App.keywordProcessing = None → st2 = st1)
    ∧ (App.findSheet workbook App.keywordImplementer = None →
       (App.parseExcelData sel workbook st).1 = st2).
Proof.
  rewrite parseExcelData_unfold. cbn zeta.
  set (r := match App.findSheet workbook App.keywordMaterial with
            | Some _ => _ | None => _ end).
  assert (appOutsideMaterials r.1 = appOutsideMaterials st) as H1.
  { subst r. destruct (App.findSheet workbook App.keywordMaterial); [|done].
    apply app_parseMaterialSheet_flag. }
  assert (App.findSheet workbook App.keywordMaterial = None → r.1 = st) as N1.
  { subst r. by intros ->. }
  clearbody r. destruct r as [s1 thrown]. cbn [fst snd] in *.
  destruct thrown; cbn [fst snd].
  { exists s1, s1. by repeat split. }
  set (st2 := match App.findSheet workbook App.keywordProcessing with
              | Some _ => _ | None => _ end).
  exists s1, st2. subst st2. repeat split; [done| | |done| |].
  - destruct (App.findSheet workbook App.keywordProcessing);
      [apply app_parseProcessingSheet_frame|done].
  - destruct (App.findSheet workbook App.keywordImplementer);
      [apply app_parseImplementerSheet_frame|done].
  - by intros ->.
  - by intros ->.
Qed.

Lemma parseExcelData_flag (sel : App.Selected)
    (workbook : list (jsstring * list (gmap jsstring cell))) (st : App.State) :
  (App.parseExcelData sel workbook st).2 = false
  ↔ workbookReadable workbook
    ∧ App.materials (App.parseExcelData sel workbook st).1 ≠ ∅
    ∧ App.processingMethods (App.parseExcelData sel workbook st).1 ≠ ∅
    ∧ App.implementers (App.parseExcelData sel workbook st).1 ≠ ∅.
Proof.
  rewrite parseExcelData_unfold. cbn zeta. unfold workbookReadable.
  set (r := match App.findSheet workbook App.keywordMaterial with
            | Some _ => _ | None => _ end).
  assert (r.2 = false
          ↔ match App.findSheet workbook App.keywordMaterial with
            | Some data => appSheetReadable data
            | None => True
            end) as Hr.
  { subst r. destruct (App.findSheet workbook App.keywordMaterial); [|done].
    apply app_parseMaterialSheet_flag. }
  clearbody r. destruct r as [s1 thrown]. cbn [fst snd] in *.
  destruct thrown; cbn [fst snd].
  - split; [done|]. intros [H _]. by apply Hr in H.
  - rewrite app_tables_nonempty. split; [|tauto]. intros H. split; [|done]. by apply Hr.
Qed.

Lemma parseExcelData_thrown (sel : App.Selected)
    (workbook : list (jsstring * list (gmap jsstring cell))) (st : App.State) :
  (App.parseExcelData sel workbook st).2 = false →
  App.materials (App.parseExcelData sel workbook st).1 ≠ ∅
  ∧ App.processingMethods (App.parseExcelData sel workbook st).1 ≠ ∅
  ∧ App.implementers (App.parseExcelData sel workbook st).1 ≠ ∅.
Proof. intros H. by apply parseExcelData_flag in H as [_ ?]. Qed.

Lemma parseExcelData_session (sel : App.Selected)
    (workbook : list (jsstring * list (gmap jsstring cell))) (st : App.State) :
  appSession (App.parseExcelData sel workbook st).1 = appSession st
  ∧ App.isReady (App.parseExcelData sel workbook st).1 = App.isReady st.
Proof.
  destruct (parseExcelData_frames sel workbook st) as (st1 & st2 & H1 & H2 & H3 & _).
  unfold appOutsideMaterials, appOutsideProcessing, appOutsideImplementers in *.
  split; congruence.
Qed.

(** X16.  [parseExcelData] reads each of the three sheets only when the
    workbook has a sheet whose name contains its keyword: without one, the
    table of that kind stays as the previous workbook left it.  The import
    succeeds exactly when the material sheet, if there is one, has no row
    with a name, an identifier and a category whose category is the name
    of a member of [Object.prototype], and none of the three tables, kept
    or new, is empty in the end.  With such a row the material sheet
    throws, and the two other sheets are not read: their tables stay as
    they were. *)
Theorem parseExcelData_missing_sheet (sel : App.Selected)
    (workbook : list (jsstring * list (gmap jsstring cell))) (st : App.State) :
  (noSheet workbook App.keywordMaterial →
   App.materials (App.parseExcelData sel workbook st).1 = App.materials st
   ∧ App.materialCategories (App.parseExcelData sel workbook st).1
     = App.materialCategories st
   ∧ App.materialNameToId (App.parseExcelData sel workbook st).1
     = App.materialNameToId st)
  ∧ (noSheet workbook App.keywordProcessing →
     App.processingMethods (App.parseExcelData sel workbook st).1
     = App.processingMethods st)
  ∧ (noSheet workbook App.keywordImplementer →
     App.implementers (App.parseExcelData sel workbook st).1 = App.implementers st)
  ∧ ((App.parseExcelData sel workbook st).2 = false
     ↔ workbookReadable workbook
       ∧ App.materials (App.parseExcelData sel workbook st).1 ≠ ∅
       ∧ App.processingMethods (App.parseExcelData sel workbook st).1 ≠ ∅
       ∧ App.implementers (App.parseExcelData sel workbook st).1 ≠ ∅)
  ∧ (¬ workbookReadable workbook →
     (App.parseExcelData sel workbook st).2 = true
     ∧ App.processingMethods (App.parseExcelData sel workbook st).1
       = App.processingMethods st
     ∧ App.implementers (App.parseExcelData sel workbook st).1 = App.implementers st).
Proof.
  destruct (parseExcelData_frames sel workbook st)
    as (st1 & st2 & H1 & H2 & H3 & N1 & N2 & N3).
  unfold appOutsideMaterials, appOutsideProcessing, appOutsideImplementers in *.
  split; [|split; [|split; [|split]]].
  - intros H. apply findSheet_None, N1 in H. repeat split; congruence.
  - intros H. apply findSheet_None, N2 in H. congruence.
  - intros H. apply findSheet_None, N3 in H. congruence.
  - apply parseExcelData_flag.
  - intros Hbad. clear H1 H2 H3 N1 N2 N3 st1 st2.
    revert Hbad. unfold workbookReadable. rewrite parseExcelData_unfold. cbn zeta.
    destruct (App.findSheet workbook App.keywordMaterial) as [data|]; [|done].
    intros Hbad.
    destruct (app_parseMaterialSheet_flag (App.selectedCategory sel) data st)
      as [Hiff Hframe].
    destruct (App.parseMaterialSheet (App.selectedCategory sel) data st)
      as [s1 thrown]. cbn [fst snd] in *.
    destruct thrown; [|by destruct Hbad; apply Hiff]. cbn [fst snd].
    unfold appOutsideMaterials in Hframe. split; [done|]. split; congruence.
Qed.

Lemma parseExcelData_missing_sheet_witness :
  App.implementers (App.parseExcelData exampleSelected materialsOnly loadedApp).1
  = App.implementers loadedApp
  ∧ (App.parseExcelData exampleSelected materialsOnly loadedApp).2 = false
  ∧ (App.parseExcelData exampleSelected inheritedWorkbook loadedApp).2 = true.
Proof.
  split; [|split].
  - apply (proj1 (proj2 (proj2
             (parseExcelData_missing_sheet exampleSelected materialsOnly loadedApp)))).
    repeat constructor.
  - vm_compute. reflexivity.
  - apply (proj2 (proj2 (proj2 (proj2
             (parseExcelData_missing_sheet exampleSelected inheritedWorkbook loadedApp))))).
    unfold workbookReadable. cbn. intros H. apply Forall_cons in H as [H _].
    apply (H eq_refl). apply (bool_decide_unpack _). vm_compute. reflexivity.
Defined.

Lemma handleExcelUpload_state (sel : App.Selected)
    (workbook : list (jsstring * list (gmap jsstring cell))) (st : App.State) :
  App.handleExcelUpload sel workbook st =
    let st1 := (App.parseExcelData sel workbook st).1 in
    if (App.parseExcelData sel workbook st).2 then st1
    else App.withIsReady (App.checkReadyState st1 (App.imageFiles st1)) st1.
Proof. unfold App.handleExcelUpload. by destruct (App.parseExcelData _ _ _). Qed.

Lemma checkReadyState_true (st : App.State) (files : list App.File) :
  App.materials st ≠ ∅ → App.processingMethods st ≠ ∅ → App.implementers st ≠ ∅ →
  App.checkReadyState st files = negb (length files =? 0)%nat.
Proof.
  intros Hm Hp Hi. unfold App.checkReadyState.
  apply size_zero_empty in Hm, Hp, Hi.
  destruct (size (App.materials st)); [done|].
  destruct (size (App.processingMethods st)); [done|].
  destruct (size (App.implementers st)); [done|].
  by destruct (length files).
Qed.

(** X17.  [handleExcelUpload] never touches the session: the images, the
    cursor, the ledger with the names composed from the old tables, the
    list of processed names and the number field stay as they were.  When
    the import fails, the ready flag keeps its old value; when it
    succeeds, the flag says whether images are loaded. *)
Theorem handleExcelUpload_session (sel : App.Selected)
    (workbook : list (jsstring * list (gmap jsstring cell))) (st : App.State) :
  appSession (App.handleExcelUpload sel workbook st) = appSession st
  ∧ ((App.parseExcelData sel workbook st).2 = true →
     App.isReady (App.handleExcelUpload sel workbook st) = App.isReady st)
  ∧ ((App.parseExcelData sel workbook st).2 = false →
     App.isReady (App.handleExcelUpload sel workbook st)
     = negb (length (App.imageFiles st) =? 0)%nat).
Proof.
  rewrite handleExcelUpload_state. cbn zeta.
  destruct (parseExcelData_session sel workbook st) as [Hs Hr].
  destruct ((App.parseExcelData sel workbook st).2) eqn:Hthrown.
  - repeat split; [done|done|]. intros [=].
  - repeat split; [done|by intros [=]|]. intros _.
    apply parseExcelData_thrown in Hthrown as (Hm & Hp & Hi).
    cbn [App.withIsReady App.isReady]. rewrite checkReadyState_true by done.
    unfold appSession in Hs. congruence.
Qed.

Lemma fold_left_related {A B : Type} (R : A → A → Prop) (f : A → B → A) (l : list B)
    (a a' : A) :
  R a a' → (∀ a a' b, R a a' → R (f a b) (f a' b)) →
  R (fold_left f l a) (fold_left f l a').
Proof. intros Ha Hstep. revert a a' Ha. induction l as [|b l IH]; simpl; auto. Qed.

Ltac same_tables :=
  unfold appTables in *; cbn in *; simplify_eq; congruence.

Lemma app_parseMaterialSheet_tables (v v' : jsstring) (data : list (gmap jsstring cell))
    (st st' : App.State) :
  appTables st = appTables st' →
  appTables (App.parseMaterialSheet v data st).1
  = appTables (App.parseMaterialSheet v' data st').1
  ∧ (App.parseMaterialSheet v data st).2 = (App.parseMaterialSheet v' data st').2.
Proof.
  intros H. unfold App.parseMaterialSheet.
  destruct (forEach_related (λ s s', appTables s = appTables s') App.materialRow data
              (App.withMaterialTables ∅ ∅ ∅ st) (App.withMaterialTables ∅ ∅ ∅ st'))
    as [Hs Hflag].
  - same_tables.
  - clear. intros s s' row H.
    assert (App.materialCategories s = App.materialCategories s') as Hc
      by (unfold appTables in H; congruence).
    unfold App.materialRow. destruct (_ && _); [|done]. rewrite Hc.
    destruct (getProperty _ _); (split; [same_tables|done]).
  - destruct (forEach _ _ (App.withMaterialTables ∅ ∅ ∅ st)) as [s1 t1],
      (forEach _ _ (App.withMaterialTables ∅ ∅ ∅ st')) as [s1' t1'].
    cbn [fst snd] in *. subst t1'. by destruct t1.
Qed.

Lemma app_parseProcessingSheet_tables (v v' : jsstring)
    (data : list (gmap jsstring cell)) (st st' : App.State) :
  appTables st = appTables st' →
  appTables (App.parseProcessingSheet v data st)
  = appTables (App.parseProcessingSheet v' data st').
Proof.
  intros H. unfold App.parseProcessingSheet.
  set (s := fold_left _ _ _). set (s' := fold_left _ _ _).
  assert (appTables s = appTables s') as Hs; [|done].
  apply (fold_left_related (λ s s', appTables s = appTables s')).
  - same_tables.
  - clear. intros s s' row H. unfold App.processingRow. destruct (_ && _); same_tables.
Qed.

Lemma app_parseImplementerSheet_tables (v v' : jsstring)
    (data : list (gmap jsstring cell)) (st st' : App.State) :
  appTables st = appTables st' →
  appTables (App.parseImplementerSheet v data st)
  = appTables (App.parseImplementerSheet v' data st').
Proof.
  intros H. unfold App.parseImplementerSheet.
  set (s := fold_left _ _ _). set (s' := fold_left _ _ _).
  assert (appTables s = appTables s') as Hs; [|done].
  apply (fold_left_related (λ s s', appTables s = appTables s')).
  - same_tables.
  - clear. intros s s' row H. unfold App.implementerRow. destruct (_ && _); same_tables.
Qed.

Lemma parseExcelData_tables (sel sel' : App.Selected)
    (workbook : list (jsstring * list (gmap jsstring cell))) (st st' : App.State) :
  appTables st = appTables st' →
  appTables (App.parseExcelData sel workbook st).1
  = appTables (App.parseExcelData sel' workbook st').1
  ∧ (App.parseExcelData sel workbook st).2 = (App.parseExcelData sel' workbook st').2.
Proof.
  intros H. rewrite !parseExcelData_unfold. cbn zeta.
  set (r := match App.findSheet workbook App.keywordMaterial with
            | Some sheet => App.parseMaterialSheet _ sheet st | None => _ end).
  set (r' := match App.findSheet workbook App.keywordMaterial with
             | Some sheet => App.parseMaterialSheet _ sheet st' | None => _ end).
  assert (appTables r.1 = appTables r'.1 ∧ r.2 = r'.2) as [H1 Hflag].
  { subst r r'. destruct (App.findSheet workbook App.keywordMaterial);
      [by apply app_parseMaterialSheet_tables|done]. }
  clearbody r r'. destruct r as [s1 t1], r' as [s1' t1']. cbn [fst snd] in *.
  subst t1'. destruct t1; [done|]. cbn [fst snd].
  set (s2 := match App.findSheet workbook App.keywordProcessing with
             | Some _ => _ | None => s1 end).
  set (s2' := match App.findSheet workbook App.keywordProcessing with
              | Some _ => _ | None => s1' end).
  assert (appTables s2 = appTables s2') as H2.
  { subst s2 s2'. destruct (App.findSheet workbook App.keywordProcessing);
      [by apply app_parseProcessingSheet_tables|done]. }
  clearbody s2 s2'.
  set (s3 := match App.findSheet workbook App.keywordImplementer with
             | Some _ => _ | None => s2 end).
  set (s3' := match App.findSheet workbook App.keywordImplementer with
              | Some _ => _ | None => s2' end).
  assert (appTables s3 = appTables s3') as H3.
  { subst s3 s3'. destruct (App.findSheet workbook App.keywordImplementer);
      [by apply app_parseImplementerSheet_tables|done]. }
  clearbody s3 s3'. split; [done|].
  unfold appTables in H3. simplify_eq. congruence.
Qed.

Lemma sortBy_nonempty {A : Type} (cmp : A → A → number) (l : list A) :
  l ≠ [] → sortBy cmp l ≠ [].
Proof.
  intros Hl Hnil. pose proof (sortBy_Permutation cmp l) as Hp.
  rewrite Hnil in Hp. by apply Permutation_nil_l in Hp.
Qed.

Lemma handleImageUpload_not_ready (lc : jsstring → jsstring → Z) (files : list App.File)
    (st : App.State) :
  App.materials st = ∅ → files ≠ [] →
  App.handleImageUpload lc files st =
    App.withImages (sortBy (λ a b, App.naturalSort lc (App.name a) (App.name b)) files)
      false st.
Proof.
  intros Hm Hf. destruct files as [|file files]; [done|].
  unfold App.handleImageUpload, App.checkReadyState. by rewrite Hm, map_size_empty.
Qed.

Lemma handleImageUpload_ready (lc : jsstring → jsstring → Z) (files : list App.File)
    (st : App.State) :
  App.materials st ≠ ∅ → App.processingMethods st ≠ ∅ → App.implementers st ≠ ∅ →
  files ≠ [] →
  App.handleImageUpload lc files st =
    App.autoSetNumber
      (App.withImages (sortBy (λ a b, App.naturalSort lc (App.name a) (App.name b)) files)
         true st).
Proof.
  intros Hm Hp Hi Hf. destruct files as [|file files]; [done|].
  unfold App.handleImageUpload. rewrite checkReadyState_true by done.
  set (sorted := sortBy _ _).
  assert (sorted ≠ []) as Hs by (by apply sortBy_nonempty).
  by destruct sorted.
Qed.

(** X18.  The order of the two uploads decides the number field of
    [app.js].  Starting without materials, with a workbook that imports
    without error and a non-empty selection of images: when the images
    come first, the application ends ready but the number field is as it
    was, since neither handler proposes a number on that path; when the
    workbook comes first, it ends ready with the number field at 1. *)
Theorem upload_order (lc : jsstring → jsstring → Z) (sel : App.Selected)
    (workbook : list (jsstring * list (gmap jsstring cell))) (files : list App.File)
    (st : App.State) :
  App.materials st = ∅ → files ≠ [] →
  (App.parseExcelData sel workbook st).2 = false →
  App.isReady (App.handleExcelUpload sel workbook (App.handleImageUpload lc files st))
  = true
  ∧ App.numberInput
      (App.form (App.handleExcelUpload sel workbook (App.handleImageUpload lc files st)))
    = App.numberInput (App.form st)
  ∧ App.isReady (App.handleImageUpload lc files (App.handleExcelUpload sel workbook st))
    = true
  ∧ App.numberInput
      (App.form (App.handleImageUpload lc files (App.handleExcelUpload sel workbook st)))
    = js "1".
Proof.
  intros Hm Hf Hok.
  pose proof (sortBy_nonempty (λ a b, App.naturalSort lc (App.name a) (App.name b))
                files Hf) as Hsorted.
  rewrite (handleImageUpload_not_ready lc files st Hm Hf).
  set (sorted := sortBy _ files) in *.
  set (st1 := App.withImages sorted false st).
  assert ((App.parseExcelData sel workbook st1).2 = false) as Hok1.
  { by destruct (parseExcelData_tables sel sel workbook st1 st eq_refl) as [_ ->]. }
  split; [|split].
  - rewrite handleExcelUpload_state, Hok1. cbn zeta.
    apply parseExcelData_thrown in Hok1 as (H1 & H2 & H3).
    cbn [App.withIsReady App.isReady]. rewrite checkReadyState_true by done.
    destruct (parseExcelData_session sel workbook st1) as [Hs _].
    pose proof (f_equal (λ t, t.1.1.1.1) Hs) as Himages.
    change (App.imageFiles (App.parseExcelData sel workbook st1).1 = sorted) in Himages.
    rewrite Himages. by destruct sorted.
  - rewrite handleExcelUpload_state, Hok1. cbn zeta.
    destruct (parseExcelData_session sel workbook st1) as [Hs _].
    exact (f_equal snd Hs).
  - rewrite handleExcelUpload_state, Hok. cbn zeta.
    apply parseExcelData_thrown in Hok as (H1 & H2 & H3).
    set (st2 := App.withIsReady _ _).
    rewrite (handleImageUpload_ready lc files st2) by done.
    split; [done|].
    unfold App.autoSetNumber. cbn [App.withForm App.form App.withNumberInput
      App.numberInput].
    by rewrite getNextNumber_empty.
Qed.

Lemma upload_order_witness :
  App.numberInput
    (App.form (App.handleImageUpload codeUnitCompare [exampleFile "a.jpg"]
                 (App.handleExcelUpload exampleSelected exampleWorkbook appStart)))
  = js "1".
Proof.
  apply (upload_order codeUnitCompare exampleSelected exampleWorkbook
           [exampleFile "a.jpg"] appStart); [reflexivity|done|vm_compute; reflexivity].
Defined.

(** ** Reading the masters of [script.js] *)

Lemma script_blank_control (st : Script.State) :
  Script.inputCategory (Script.dom st) = [] ∨ Script.inputMaterial (Script.dom st) = []
  ∨ Script.inputProcessing (Script.dom st) = [] →
  Script.validateInputs st = false ∧ Script.applyAndNext st = st.
Proof.
  intros H.
  assert (Script.validateInputs st = false) as Hv.
  { destruct (Script.validateInputs st) eqn:Hv; [|done].
    apply validateInputs_true in Hv as (_ & _ & _ & Hc & Hm & Hp).
    by destruct H as [?|[?|?]]. }
  split; [done|]. unfold Script.applyAndNext. by rewrite Hv.
Qed.

Lemma script_materialRow_step (colName colId : nat) (colCat : option nat)
    (st : Script.State) (row : list cell) :
  scriptMaterialsLinked st →
  (scriptRowOk colName colId colCat row →
   (Script.materialRow colName colId colCat st row).2 = false
   ∧ scriptMaterialsLinked (Script.materialRow colName colId colCat st row).1)
  ∧ (¬ scriptRowOk colName colId colCat row →
     (Script.materialRow colName colId colCat st row).2 = true).
Proof.
  intros [Heq Hl]. unfold scriptRowOk, Script.materialRow.
  destruct (cellTruthy (cellAt row colName)) eqn:Hname;
    [|split; [done|intros H; by destruct H]].
  destruct (cellTruthy (cellAt row colId)) eqn:Hid;
    [|split; [done|intros H; by destruct H]].
  cbn [andb]. fold (scriptRowCategory colCat row).
  set (c := scriptRowCategory colCat row).
  set (n := cellString (cellAt row colName)).
  set (id := cellString (cellAt row colId)).
  assert (truthy id = true) as Htrue by (by apply cellString_truthy).
  pose proof (getProperty_cases (Script.materialCategories st) c) as Hg.
  destruct (getProperty (Script.materialCategories st) c) as [names| |].
  - assert (c ∉ prototypeKeys) as Hc
      by (by destruct Hl as [Hcats _]; apply Hcats in Hg as [? _]).
    split; [|intros H; by destruct H]. intros _. split; [done|].
    split; cbn [fst Script.withMaterialTables Script.materials Script.materialNameToId
      Script.materialCategories]; [by rewrite Heq|].
    replace (names ++ [n]) with (default [] (Script.materialCategories st !! c) ++ [n])
      by (by rewrite Hg).
    by apply linked_insert.
  - destruct Hg as [_ Hc]. split; [intros H; by destruct (H eq_refl)|done].
  - destruct Hg as [Hnone Hc].
    split; [|intros H; by destruct H]. intros _. split; [done|].
    split; cbn [fst Script.withMaterialTables Script.materials Script.materialNameToId
      Script.materialCategories]; [by rewrite Heq|].
    replace [n] with (default [] (Script.materialCategories st !! c) ++ [n])
      by (by rewrite Hnone).
    by apply linked_insert.
Qed.

Lemma script_materialRows_frame (colName colId : nat) (colCat : option nat)
    (rows : list (list cell)) (st : Script.State) :
  let st1 := (forEach (Script.materialRow colName colId colCat) rows st).1 in
  Script.processing st1 = Script.processing st ∧ Script.dom st1 = Script.dom st
  ∧ scriptSession st1 = scriptSession st.
Proof.
  apply (forEach_always
           (λ s, Script.processing s = Script.processing st
                 ∧ Script.dom s = Script.dom st ∧ scriptSession s = scriptSession st));
    [done|].
  intros s row H. unfold Script.materialRow. destruct (_ && _); [|done].
  by destruct (getProperty _ _).
Qed.

Lemma script_processingRows_frame (colName colId : nat) (rows : list (list cell))
    (st : Script.State) :
  let st1 := fold_left (Script.processingRow colName colId) rows st in
  Script.materials st1 = Script.materials st
  ∧ Script.materialCategories st1 = Script.materialCategories st
  ∧ Script.materialNameToId st1 = Script.materialNameToId st
  ∧ Script.dom st1 = Script.dom st ∧ scriptSession st1 = scriptSession st.
Proof.
  apply (fold_left_invariant
           (λ s, Script.materials s = Script.materials st
                 ∧ Script.materialCategories s = Script.materialCategories st
                 ∧ Script.materialNameToId s = Script.materialNameToId st
                 ∧ Script.dom s = Script.dom st ∧ scriptSession s = scriptSession st));
    [done|].
  intros s row H. unfold Script.processingRow. by destruct (_ && _).
Qed.

Lemma short_master (rows : list (list cell)) :
  (2 ≤ length rows)%nat → (length rows <? 2)%nat = false.
Proof. intros H. apply Nat.ltb_ge. lia. Qed.

(** The run over a well-formed material master. *)
Lemma readMaterialMaster_accepted (rows : list (list cell)) (st : Script.State) :
  (2 ≤ length rows)%nat →
  indexOf (headerOf rows) Script.colMaterialId ≠ None →
  indexOf (headerOf rows) Script.colMaterialName ≠ None
  ∨ indexOf (headerOf rows) Script.colMaterial ≠ None →
  ∃ colName colId,
    masterColumns rows = Some (colName, colId)
    ∧ Script.readMaterialMaster rows st =
        let r :=
          forEach
            (Script.materialRow colName colId
               (indexOf (headerOf rows) Script.colMaterialCategory))
            (drop 1 rows) (Script.withMaterialTables ∅ ∅ ∅ st) in
        if r.2 then (r.1, true)
        else (Script.withDom (Script.withInputCategory [] (Script.dom r.1)) r.1, false).
Proof.
  intros Hlen Hid Hname. unfold Script.readMaterialMaster, masterColumns.
  rewrite short_master by done. fold (headerOf rows).
  destruct (indexOf (headerOf rows) Script.colMaterialId) as [colId|]; [|done].
  assert (∀ colName,
            (let '(st1, thrown) :=
               forEach
                 (Script.materialRow colName colId
                    (indexOf (headerOf rows) Script.colMaterialCategory))
                 (drop 1 rows) (Script.withMaterialTables ∅ ∅ ∅ st) in
             if thrown then (st1, true)
             else (Script.withDom (Script.withInputCategory [] (Script.dom st1)) st1,
                   false))
            = let r :=
                forEach
                  (Script.materialRow colName colId
                     (indexOf (headerOf rows) Script.colMaterialCategory))
                  (drop 1 rows) (Script.withMaterialTables ∅ ∅ ∅ st) in
              if r.2 then (r.1, true)
              else (Script.withDom (Script.withInputCategory [] (Script.dom r.1)) r.1,
                    false)) as Hrun.
  { intros colName. cbn zeta. by destruct (forEach _ _ _) as [s1 []]. }
  destruct (indexOf (headerOf rows) Script.colMaterialName) as [colName|].
  - exists colName, colId. split; [done|]. apply Hrun.
  - destruct (indexOf (headerOf rows) Script.colMaterial) as [colName|].
    + exists colName, colId. split; [done|]. apply Hrun.
    + by destruct Hname.
Qed.

(** X19.  A material master of [script.js] with a header row, a row below
    it, the identifier column and one of the two name columns is
    accepted and its rows are read.  The run throws exactly when a row
    with a name and an identifier has a category that is the name of a
    member of [Object.prototype]: the code finds the inherited member,
    which has no [push], the rows after it are not read and the category
    control is not rebuilt.  Without such a row the tables are rebuilt
    and hang together (the two tables from name to identifier are one
    table, every category lists at least one name, every listed name has
    a non-empty identifier, the name [__proto__] apart, and every name
    with an identifier is listed), so that no other material offered for
    a category gets the placeholder; the category control is back on its
    empty option, which closes the confirmation until a category is
    chosen again.  In both cases the material control, the processing
    table and the session are as before. *)
Theorem parseMaterialMaster_linked (rows : list (list cell)) (st : Script.State) :
  (2 ≤ length rows)%nat →
  indexOf (headerOf rows) Script.colMaterialId ≠ None →
  indexOf (headerOf rows) Script.colMaterialName ≠ None
  ∨ indexOf (headerOf rows) Script.colMaterial ≠ None →
  ((Script.readMaterialMaster rows st).2 = false ↔ masterReadable rows)
  ∧ (masterReadable rows →
     scriptMaterialsLinked (Script.parseMaterialMaster rows st)
     ∧ (∀ category n,
          n ∈ Script.materialOptions
                (picksCategory category (Script.parseMaterialMaster rows st)) →
          n = js "__proto__"
          ∨ ∃ id, Script.materialNameToId (Script.parseMaterialMaster rows st) !! n
                  = Some id
                  ∧ Script.idOrPlaceholder
                      (Script.materialNameToId (Script.parseMaterialMaster rows st)) n
                    = id)
     ∧ Script.inputCategory (Script.dom (Script.parseMaterialMaster rows st)) = []
     ∧ Script.validateInputs (Script.parseMaterialMaster rows st) = false
     ∧ Script.applyAndNext (Script.parseMaterialMaster rows st)
       = Script.parseMaterialMaster rows st)
  ∧ (¬ masterReadable rows →
     Script.inputCategory (Script.dom (Script.parseMaterialMaster rows st))
     = Script.inputCategory (Script.dom st))
  ∧ Script.inputMaterial (Script.dom (Script.parseMaterialMaster rows st))
    = Script.inputMaterial (Script.dom st)
  ∧ Script.processing (Script.parseMaterialMaster rows st) = Script.processing st
  ∧ scriptSession (Script.parseMaterialMaster rows st) = scriptSession st.
Proof.
  intros Hlen Hid Hname. unfold Script.parseMaterialMaster, masterReadable.
  destruct (readMaterialMaster_accepted rows st Hlen Hid Hname)
    as (colName & colId & -> & ->).
  set (colCat := indexOf _ Script.colMaterialCategory).
  set (st0 := Script.withMaterialTables ∅ ∅ ∅ st).
  pose proof (script_materialRows_frame colName colId colCat (drop 1 rows) st0)
    as (Hp & Hd & Hs).
  destruct (forEach_thrown scriptMaterialsLinked (scriptRowOk colName colId colCat)
              (Script.materialRow colName colId colCat) (drop 1 rows) st0)
    as [Hiff Hlinked].
  { apply _. }
  { split; [done|]. apply linked_empty. }
  { intros s row Hst. by apply script_materialRow_step. }
  { intros s row Hst. by apply script_materialRow_step. }
  cbn zeta in *.
  destruct (forEach (Script.materialRow colName colId colCat) (drop 1 rows) st0)
    as [st1 thrown].
  cbn [fst snd] in *. destruct thrown; cbn [fst snd].
  { split; [done|]. split; [intros H; by apply Hiff in H|].
    split; [intros _; by rewrite Hd|]. split; [by rewrite Hd|]. by split. }
  pose proof (Hlinked eq_refl) as Hl.
  set (st' := Script.withDom _ st1).
  assert (Script.inputCategory (Script.dom st') = []) as Hcat by done.
  destruct (script_blank_control st' (or_introl Hcat)) as [Hv Ha].
  split; [done|]. split; [|split].
  - intros _. split; [exact Hl|]. split; [|by repeat split].
    intros category n. unfold Script.materialOptions, picksCategory.
    cbn [Script.withDom Script.dom Script.withInputCategory Script.inputCategory
      Script.materialCategories].
    change (Script.materialCategories st') with (Script.materialCategories st1).
    destruct (truthy category); [|by intros ?%elem_of_nil].
    pose proof (getProperty_cases (Script.materialCategories st1) category) as Hc.
    destruct (getProperty (Script.materialCategories st1) category) as [names| |];
      [|by intros ?%elem_of_nil..].
    intros Hn. destruct Hl as [_ [Hcats _]].
    destruct (Hcats category names Hc) as (_ & _ & Hids).
    destruct (Hids n Hn) as [?|(id & Hlook & Hid')]; [by left|]. right. exists id.
    change (Script.materialNameToId st') with (Script.materialNameToId st1).
    split; [done|]. apply idOrPlaceholder_found; [done|]. by apply truthy_true.
  - intros H. by destruct H; apply Hiff.
  - split; [|by split].
    change (Script.inputMaterial (Script.dom st1) = Script.inputMaterial (Script.dom st)).
    by rewrite Hd.
Qed.

Lemma parseMaterialMaster_linked_witness :
  scriptMaterialsLinked (Script.parseMaterialMaster exampleMaster bracketScript)
  ∧ Script.applyAndNext (Script.parseMaterialMaster exampleMaster bracketScript)
    = Script.parseMaterialMaster exampleMaster bracketScript
  ∧ (Script.readMaterialMaster inheritedMaster bracketScript).2 ≠ false.
Proof.
  assert (2 ≤ length exampleMaster)%nat as Hlen by (simpl; lia).
  assert (indexOf (headerOf exampleMaster) Script.colMaterialId ≠ None) as Hid
    by (vm_compute; discriminate).
  assert (indexOf (headerOf exampleMaster) Script.colMaterialName ≠ None
          ∨ indexOf (headerOf exampleMaster) Script.colMaterial ≠ None) as Hname
    by (left; vm_compute; discriminate).
  assert (2 ≤ length inheritedMaster)%nat as Hlen' by (simpl; lia).
  assert (indexOf (headerOf inheritedMaster) Script.colMaterialId ≠ None) as Hid'
    by (vm_compute; discriminate).
  assert (indexOf (headerOf inheritedMaster) Script.colMaterialName ≠ None
          ∨ indexOf (headerOf inheritedMaster) Script.colMaterial ≠ None) as Hname'
    by (left; vm_compute; discriminate).
  destruct (parseMaterialMaster_linked exampleMaster bracketScript Hlen Hid Hname)
    as (_ & Hgood & _).
  destruct Hgood as (H1 & _ & _ & _ & H2).
  { unfold masterReadable. cbn. repeat constructor; intros _;
      apply (bool_decide_unpack _); vm_compute; reflexivity. }
  split; [done|]. split; [done|].
  destruct (parseMaterialMaster_linked inheritedMaster bracketScript Hlen' Hid' Hname')
    as (Hiff & _).
  intros Hflag. apply Hiff in Hflag. unfold masterReadable in Hflag. cbn in Hflag.
  apply Forall_cons in Hflag as [Hrow _].
  apply (Hrow eq_refl). apply (bool_decide_unpack _). vm_compute. reflexivity.
Defined.

Lemma commonOnly_snoc (names : list jsstring) (n : jsstring) :
  <[Script.commonCategory :=
      default [] (commonOnly names !! Script.commonCategory) ++ [n]]> (commonOnly names)
  = commonOnly (names ++ [n]).
Proof.
  destruct names as [|a names]; cbn [commonOnly app].
  - by rewrite lookup_empty, insert_empty.
  - by rewrite lookup_singleton_eq, insert_singleton_eq.
Qed.

Lemma commonCategory_own : Script.commonCategory ∉ prototypeKeys.
Proof. apply (bool_decide_unpack _). vm_compute. reflexivity. Qed.

Lemma validNames_cons (colName colId : nat) (row : list cell) (rows : list (list cell)) :
  validNames colName colId (row :: rows)
  = validNames colName colId [row] ++ validNames colName colId rows.
Proof.
  unfold validNames. cbn [List.filter].
  by destruct (cellTruthy (cellAt row colName) && cellTruthy (cellAt row colId)).
Qed.

Lemma materialRow_common (colName colId : nat) (st : Script.State) (row : list cell)
    (names : list jsstring) :
  Script.materialCategories st = commonOnly names →
  (Script.materialRow colName colId None st row).2 = false
  ∧ Script.materialCategories (Script.materialRow colName colId None st row).1
    = commonOnly (names ++ validNames colName colId [row]).
Proof.
  intros Hst. unfold Script.materialRow, validNames. cbn [List.filter].
  destruct (cellTruthy (cellAt row colName) && cellTruthy (cellAt row colId));
    [|by rewrite app_nil_r].
  cbn [List.map].
  change (cellString (orCell (Text Script.commonCategory) (Text Script.commonCategory)))
    with Script.commonCategory.
  rewrite Hst.
  pose proof (getProperty_cases (commonOnly names) Script.commonCategory) as Hg.
  destruct (getProperty (commonOnly names) Script.commonCategory) as [l| |].
  - split; [done|].
    cbn [fst Script.withMaterialTables Script.materialCategories].
    by rewrite <- commonOnly_snoc, Hg.
  - destruct Hg as [_ Hc]. by destruct commonCategory_own.
  - destruct Hg as [Hnone _]. split; [done|].
    cbn [fst Script.withMaterialTables Script.materialCategories].
    by rewrite <- commonOnly_snoc, Hnone.
Qed.

Lemma materialRows_common (colName colId : nat) (rows : list (list cell))
    (st : Script.State) (names : list jsstring) :
  Script.materialCategories st = commonOnly names →
  (forEach (Script.materialRow colName colId None) rows st).2 = false
  ∧ Script.materialCategories (forEach (Script.materialRow colName colId None) rows st).1
    = commonOnly (names ++ validNames colName colId rows).
Proof.
  revert st names. induction rows as [|row rows IH]; intros st names Hst.
  - unfold validNames. simpl. by rewrite app_nil_r.
  - cbn [forEach]. rewrite validNames_cons, app_assoc.
    destruct (materialRow_common colName colId st row names Hst) as [Hflag Hcats].
    destruct (Script.materialRow colName colId None st row) as [s1 thrown].
    cbn [fst snd] in *. subst thrown. by apply IH.
Qed.

(** X20.  A material master of [script.js] whose header has no category
    column puts every material under the one category of the source, the
    common one: the categories are that single entry, with the names of
    all rows that have a name and an identifier, in the order of the rows
    and with repetitions, or no entry when no row has both. *)
Theorem parseMaterialMaster_common (rows : list (list cell)) (st : Script.State)
    (colName colId : nat) :
  (2 ≤ length rows)%nat →
  indexOf (headerOf rows) Script.colMaterialCategory = None →
  indexOf (headerOf rows) Script.colMaterialId = Some colId →
  indexOf (headerOf rows) Script.colMaterialName = Some colName
  ∨ indexOf (headerOf rows) Script.colMaterialName = None
    ∧ indexOf (headerOf rows) Script.colMaterial = Some colName →
  Script.materialCategories (Script.parseMaterialMaster rows st)
  = commonOnly (validNames colName colId (drop 1 rows)).
Proof.
  intros Hlen Hcat Hid Hname.
  unfold Script.parseMaterialMaster, Script.readMaterialMaster.
  rewrite short_master by done. fold (headerOf rows). rewrite Hid, Hcat.
  assert (match indexOf (headerOf rows) Script.colMaterialName with
          | Some col => Some col
          | None => indexOf (headerOf rows) Script.colMaterial
          end = Some colName) as ->.
  { by destruct Hname as [->|[-> ->]]. }
  destruct (materialRows_common colName colId (drop 1 rows)
              (Script.withMaterialTables ∅ ∅ ∅ st) [] eq_refl) as [Hflag Hcats].
  destruct (forEach _ _ _) as [s1 thrown]. cbn [fst snd] in *. by subst thrown.
Qed.

Lemma parseMaterialMaster_common_witness :
  Script.materialCategories (Script.parseMaterialMaster plainMaster bracketScript)
  = {[ Script.commonCategory := [js "Aluminum"; js "Steel"] ]}.
Proof.
  apply (parseMaterialMaster_common plainMaster bracketScript 0 1);
    [simpl; lia|reflexivity|reflexivity|right; split; reflexivity].
Defined.

(** X21.  A master that is not well formed changes nothing in
    [script.js]: with fewer than two rows, without the identifier column,
    or with neither of the two name columns in the header row,
    [parseMaterialMaster] and [parseProcessingMaster] return the state as
    it was, old tables and controls included. *)
Theorem master_rejected (rows : list (list cell)) (st : Script.State) :
  ((length rows < 2)%nat
   ∨ indexOf (headerOf rows) Script.colMaterialId = None
   ∨ indexOf (headerOf rows) Script.colMaterialName = None
     ∧ indexOf (headerOf rows) Script.colMaterial = None →
   Script.parseMaterialMaster rows st = st)
  ∧ ((length rows < 2)%nat
     ∨ indexOf (headerOf rows) Script.colProcessingId = None
     ∨ indexOf (headerOf rows) Script.colProcessingName = None
       ∧ indexOf (headerOf rows) Script.colProcessing = None →
     Script.parseProcessingMaster rows st = st).
Proof.
  split; intros H.
  - unfold Script.parseMaterialMaster, Script.readMaterialMaster. fold (headerOf rows).
    destruct (Nat.ltb_spec (length rows) 2) as [|Hlen]; [done|].
    destruct H as [H|[->|[-> ->]]]; [lia| |done].
    by destruct (match indexOf (headerOf rows) Script.colMaterialName with
                 | Some col => Some col
                 | None => _
                 end).
  - unfold Script.parseProcessingMaster. fold (headerOf rows).
    destruct (Nat.ltb_spec (length rows) 2) as [|Hlen]; [done|].
    destruct H as [H|[->|[-> ->]]]; [lia| |done].
    by destruct (match indexOf (headerOf rows) Script.colProcessingName with
                 | Some col => Some col
                 | None => _
                 end).
Qed.

Lemma cellAt_truthy (row : list cell) (col : nat) :
  cellTruthy (cellAt row col) = true → cellAt row col ∈ row.
Proof.
  unfold cellAt. destruct (row !! col) as [c|] eqn:Hc; simpl; [|done].
  intros _. by apply list_elem_of_lookup_2 in Hc.
Qed.

Lemma processingRows_readFrom (colName colId : nat) (rows done_ : list (list cell))
    (st : Script.State) :
  readFrom (done_ ++ rows) (Script.processing st) →
  readFrom (done_ ++ rows)
    (Script.processing (fold_left (Script.processingRow colName colId) rows st)).
Proof.
  revert done_ st. induction rows as [|row rows IH]; intros done_ st Hst; [done|].
  cbn [fold_left]. rewrite cons_middle, app_assoc. apply IH.
  rewrite <- app_assoc, <- cons_middle. unfold Script.processingRow.
  destruct (cellTruthy (cellAt row colName)) eqn:Hname; [|done].
  destruct (cellTruthy (cellAt row colId)) eqn:Hid; [|done].
  cbn [andb Script.withProcessing Script.processing].
  unfold setProperty. destruct (decide (_ = _)) as [|Hproto]; [done|].
  intros n id Hn.
  destruct (decide (n = cellString (cellAt row colName))) as [->|Hne].
  - rewrite lookup_insert_eq in Hn. injection Hn as <-. split.
    + by apply truthy_true, cellString_truthy.
    + exists row, (cellAt row colName), (cellAt row colId).
      split; [apply elem_of_app; right; left|].
      by repeat split; try apply cellAt_truthy.
  - rewrite lookup_insert_ne in Hn by done. by apply Hst.
Qed.

(** X22.  A processing master of [script.js] with a header row, a row
    below it, the identifier column and one of the two name columns is
    accepted: every entry of the new table was read from a row below the
    header that has a name and an identifier, its identifier is not
    empty, and the name of such an entry never gets the placeholder; the
    processing control is back on its empty option, which closes the
    confirmation until a method is chosen again, while the material
    tables, the other controls and the session are as before. *)
Theorem parseProcessingMaster_table (rows : list (list cell)) (st : Script.State) :
  (2 ≤ length rows)%nat →
  indexOf (headerOf rows) Script.colProcessingId ≠ None →
  indexOf (headerOf rows) Script.colProcessingName ≠ None
  ∨ indexOf (headerOf rows) Script.colProcessing ≠ None →
  readFrom (drop 1 rows) (Script.processing (Script.parseProcessingMaster rows st))
  ∧ (∀ n id,
       Script.processing (Script.parseProcessingMaster rows st) !! n = Some id →
       Script.idOrPlaceholder (Script.processing (Script.parseProcessingMaster rows st)) n
       = id)
  ∧ Script.inputProcessing (Script.dom (Script.parseProcessingMaster rows st)) = []
  ∧ Script.validateInputs (Script.parseProcessingMaster rows st) = false
  ∧ Script.applyAndNext (Script.parseProcessingMaster rows st)
    = Script.parseProcessingMaster rows st
  ∧ Script.inputCategory (Script.dom (Script.parseProcessingMaster rows st))
    = Script.inputCategory (Script.dom st)
  ∧ Script.inputMaterial (Script.dom (Script.parseProcessingMaster rows st))
    = Script.inputMaterial (Script.dom st)
  ∧ Script.materialNameToId (Script.parseProcessingMaster rows st)
    = Script.materialNameToId st
  ∧ Script.materialCategories (Script.parseProcessingMaster rows st)
    = Script.materialCategories st
  ∧ scriptSession (Script.parseProcessingMaster rows st) = scriptSession st.
Proof.
  intros Hlen Hid Hname.
  assert (∃ colName colId,
            Script.parseProcessingMaster rows st =
              let st1 :=
                fold_left (Script.processingRow colName colId) (drop 1 rows)
                  (Script.withProcessing ∅ st) in
              Script.withDom (Script.withInputProcessing [] (Script.dom st1)) st1)
    as (colName & colId & ->).
  { unfold Script.parseProcessingMaster. rewrite short_master by done.
    fold (headerOf rows).
    destruct (indexOf (headerOf rows) Script.colProcessingId) as [colId|]; [|done].
    destruct (indexOf (headerOf rows) Script.colProcessingName) as [colName|];
      [by exists colName, colId|].
    destruct (indexOf (headerOf rows) Script.colProcessing) as [colName|];
      [by exists colName, colId|].
    by destruct Hname. }
  set (st0 := Script.withProcessing ∅ st).
  pose proof (script_processingRows_frame colName colId (drop 1 rows) st0)
    as (Hm & Hc & Hn & Hd & Hs).
  assert (readFrom (drop 1 rows)
            (Script.processing
               (fold_left (Script.processingRow colName colId) (drop 1 rows) st0)))
    as Hread.
  { apply (processingRows_readFrom colName colId (drop 1 rows) []).
    intros n id Hlook. subst st0. cbn in Hlook. by rewrite lookup_empty in Hlook. }
  cbn zeta. set (st1 := fold_left _ _ _) in *.
  set (st' := Script.withDom _ st1).
  assert (Script.inputProcessing (Script.dom st') = []) as Hproc by done.
  destruct (script_blank_control st' (or_intror (or_intror Hproc))) as [Hv Ha].
  split; [exact Hread|]. split.
  { intros n id Hlook. apply idOrPlaceholder_found; [done|].
    by apply (Hread n id). }
  split; [done|]. split; [done|]. split; [done|].
  change (Script.inputCategory (Script.dom st1) = Script.inputCategory (Script.dom st)
          ∧ Script.inputMaterial (Script.dom st1) = Script.inputMaterial (Script.dom st)
          ∧ Script.materialNameToId st1 = Script.materialNameToId st
          ∧ Script.materialCategories st1 = Script.materialCategories st
          ∧ scriptSession st1 = scriptSession st).
  by rewrite Hd.
Qed.

Lemma parseProcessingMaster_table_witness :
  Script.validateInputs (Script.parseProcessingMaster exampleProcessingMaster bracketScript)
  = false
  ∧ scriptSession (Script.parseProcessingMaster exampleProcessingMaster bracketScript)
    = scriptSession bracketScript.
Proof.
  assert (2 ≤ length exampleProcessingMaster)%nat as Hlen by (simpl; lia).
  assert (indexOf (headerOf exampleProcessingMaster) Script.colProcessingId ≠ None)
    as Hid by (vm_compute; discriminate).
  assert (indexOf (headerOf exampleProcessingMaster) Script.colProcessingName ≠ None
          ∨ indexOf (headerOf exampleProcessingMaster) Script.colProcessing ≠ None)
    as Hname by (right; vm_compute; discriminate).
  destruct (parseProcessingMaster_table exampleProcessingMaster bracketScript
              Hlen Hid Hname) as (_ & _ & _ & H1 & _ & _ & _ & _ & _ & H2).
  by split.
Defined.

(** X23.  [handleCategoryChange] of [script.js] puts the material control
    back on its empty option whatever category was chosen, so that after
    every change of category the form is refused and [applyAndNext] does
    nothing until a material is chosen again; tables and session are not
    touched. *)
Theorem handleCategoryChange_closes (st : Script.State) :
  Script.validateInputs (Script.handleCategoryChange st) = false
  ∧ Script.applyAndNext (Script.handleCategoryChange st) = Script.handleCategoryChange st
  ∧ Script.materialOptions (Script.handleCategoryChange st) = Script.materialOptions st
  ∧ Script.materialNameToId (Script.handleCategoryChange st) = Script.materialNameToId st
  ∧ scriptSession (Script.handleCategoryChange st) = scriptSession st.
Proof.
  assert (Script.inputMaterial (Script.dom (Script.handleCategoryChange st)) = [])
    as Hmat by done.
  destruct (script_blank_control _ (or_intror (or_introl Hmat))) as [Hv Ha].
  by repeat split.
Qed.

(** ** The archive *)

(** X24.  Pair numbering makes names collide in the archive of [app.js].
    When the greatest number of the ledger is used up (or the ledger is
    empty) and the same form is confirmed for two images in a row whose
    names end in the same extension, [downloadZip] passes the two
    contents to [zip.file] under one and the same name, one call after
    the other. *)
Theorem app_archive_names_collide (f : App.Form) (st : App.State)
    (file1 file2 : App.File) :
  App.validateForm (App.withForm f st) = true →
  numberProposed st → freshAhead st →
  App.imageFiles st !! App.currentIndex st = Some file1 →
  App.imageFiles st !! S (App.currentIndex st) = Some file2 →
  slotOpen (ledgerNumbers (App.processedFiles st)) = false →
  pop (split 46 (App.name file1)) = pop (split 46 (App.name file2)) →
  ∃ archiveName,
    App.downloadZip (confirmTwice f st)
    = App.downloadZip st ++ [(archiveName, file1); (archiveName, file2)].
Proof.
  intros Hv Hnum Hfresh Hf1 Hf2 Hslot Hext.
  destruct (confirmTwice_steps f st file1 file2 Hv Hnum Hfresh Hf1 Hf2 Hslot)
    as (_ & Hledger & _).
  eexists. unfold App.downloadZip. rewrite Hledger, fmap_app.
  cbn [fmap list_fmap snd App.fullFilename App.newName App.extension App.blob].
  by rewrite Hext.
Qed.

Lemma app_archive_names_collide_witness :
  ∃ archiveName,
    App.downloadZip (confirmTwice (bracketForm []) scenarioState)
    = App.downloadZip scenarioState
      ++ [(archiveName, exampleFile "IMG_001.jpg");
          (archiveName, exampleFile "IMG_002.jpg")].
Proof.
  apply (app_archive_names_collide (bracketForm []) scenarioState
           (exampleFile "IMG_001.jpg") (exampleFile "IMG_002.jpg")).
  - reflexivity.
  - left. reflexivity.
  - unfold freshAhead. split; apply (bool_decide_unpack _); vm_compute; reflexivity.
  - reflexivity.
  - reflexivity.
  - reflexivity.
  - reflexivity.
Defined.

Lemma NoDup_omap_positions {A B : Type} (g : A → option B) (l : list A) :
  (∀ i j x y b, l !! i = Some x → l !! j = Some y → g x = Some b → g y = Some b →
                i = j) →
  NoDup (omap g l).
Proof.
  induction l as [|x l IH]; intros Hinj; [constructor|].
  assert (NoDup (omap g l)) as Hl.
  { apply IH. intros i j a a' b Hi Hj Ha Ha'.
    by injection (Hinj (S i) (S j) a a' b Hi Hj Ha Ha'). }
  cbn [omap list_omap]. destruct (g x) as [b|] eqn:Hx; [|done].
  constructor; [|done]. intros Hin.
  apply list_elem_of_omap in Hin as (y & Hy & Hgy).
  apply list_elem_of_lookup in Hy as [j Hj].
  discriminate (Hinj 0%nat (S j) x y b eq_refl Hj Hx Hgy).
Qed.

Lemma positioned_empty (st : Script.State) : Script.renamedFiles st = ∅ → positioned st.
Proof. intros He i file n _. by rewrite He, lookup_empty. Qed.

Lemma leadingInteger_extension (n : N) (rest ext : jsstring) :
  leadingInteger ((toString n ++ js "_" ++ rest) ++ js "." ++ ext) = Some n.
Proof. rewrite <- !app_assoc. apply leadingInteger_toString. Qed.

Lemma positioned_applyAndNext (st : Script.State) :
  NoDup (Script.name <$> Script.images st) → Script.isReady st = true →
  positioned st → positioned (Script.applyAndNext st).
Proof.
  intros Hdup Hready Hpos.
  destruct (Script.validateInputs st) eqn:Hv;
    [|by unfold Script.applyAndNext; rewrite Hv].
  destruct (Script.images st !! Script.currentIndex st) as [file|] eqn:Hf;
    [|by unfold Script.applyAndNext; rewrite Hv, Hf].
  rewrite (script_applyAndNext_confirm st file Hv Hf). cbn zeta.
  pose proof (proj1 (validateInputs_true st) Hv) as (Hp & _ & _ & _ & Hm & Hpr).
  destruct (generateNewFilename_composed st Hready Hp Hm Hpr) as [rest E].
  assert (positioned
            (Script.withRenamed
               (<[Script.name file :=
                    Script.generateNewFilename st ++ js "."
                    ++ pop (split 46 (Script.name file))]> (Script.renamedFiles st)) st))
    as Hpos'.
  { intros i file' n Hi Hn.
    cbn [Script.withRenamed Script.images Script.renamedFiles] in Hi, Hn.
    destruct (decide (Script.name file' = Script.name file)) as [Heq|Hne].
    - rewrite Heq, lookup_insert_eq in Hn. injection Hn as <-.
      assert (i = Script.currentIndex st) as ->.
      { apply (NoDup_lookup _ _ _ (Script.name file) Hdup);
          rewrite list_lookup_fmap; [by rewrite Hi, <- Heq|by rewrite Hf]. }
      rewrite E. apply leadingInteger_extension.
    - rewrite lookup_insert_ne in Hn by done. by apply (Hpos i file'). }
  by destruct (_ <? _)%nat.
Qed.

(** X25.  The names in the archive of [script.js] never collide.  As long
    as the images have different names and every recorded name starts
    with the position of its image, [downloadZip] passes [folder.file] a
    different name with each content; and this state of the ledger holds
    after every import of images and is kept by every confirmation made
    while the tables are loaded, by every move of the cursor and by every
    change of the controls. *)
Theorem script_archive_names_distinct (st : Script.State) :
  NoDup (Script.name <$> Script.images st) → positioned st →
  NoDup (Script.downloadZip st).*1
  ∧ (Script.isReady st = true → positioned (Script.applyAndNext st))
  ∧ (∀ delta, positioned (Script.navigateImage delta st))
  ∧ (∀ d, positioned (userSets d st))
  ∧ (∀ localeCompare files,
       files ≠ [] → positioned (Script.handleImagesLoad localeCompare files st)).
Proof.
  intros Hdup Hpos. split; [|split; [|split; [|split]]].
  - unfold Script.downloadZip. rewrite list_fmap_omap.
    apply NoDup_omap_positions. intros i j x y n Hi Hj Hx Hy.
    destruct (Script.renamedFiles st !! Script.name x) as [nx|] eqn:Ex; [|done].
    destruct (Script.renamedFiles st !! Script.name y) as [ny|] eqn:Ey; [|done].
    destruct (truthy nx); [|done]. destruct (truthy ny); [|done].
    cbn in Hx, Hy. injection Hx as ->. injection Hy as ->.
    pose proof (Hpos i x n Hi Ex) as Hni. pose proof (Hpos j y n Hj Ey) as Hnj.
    rewrite Hni in Hnj. injection Hnj as Hnj. lia.
  - intros Hready. by apply positioned_applyAndNext.
  - intros delta. unfold Script.navigateImage. by destruct (_ && _).
  - done.
  - intros localeCompare files Hfiles. apply positioned_empty.
    by destruct files.
Qed.

Lemma script_archive_names_distinct_witness :
  NoDup (Script.downloadZip (Script.applyAndNext bracketScript)).*1.
Proof.
  assert (NoDup (Script.name <$> Script.images bracketScript)) as Hdup
    by (apply (bool_decide_unpack _); vm_compute; reflexivity).
  assert (positioned bracketScript) as Hpos by (by apply positioned_empty).
  destruct (script_archive_names_distinct bracketScript Hdup Hpos)
    as (_ & Hstep & _).
  apply (script_archive_names_distinct (Script.applyAndNext bracketScript)).
  - apply (bool_decide_unpack _). vm_compute. reflexivity.
  - apply Hstep. reflexivity.
Defined.
